(** * ResourceInput: the resource-aware text input of hicode-vue

    A shallow embedding of [src/components/business/ResourceInput.vue]
    (the variant with [parseContentWithResources] and the [folder]
    resource type), of the handlers of [src/pages/chat/src/ChatPage.vue]
    that feed it, and of the properties its specification states.

    The component keeps its document in the DOM: the children of the
    [contenteditable] div are text nodes, [span.resource-tag] elements and
    whatever other elements the browser or the component put there
    ([br]).  The model keeps exactly that: a list of [Node]s, the
    [resourcesMap] index from resource id to tag element, the window
    selection, the queue of [nextTick] callbacks and the log of emitted
    events; and, for the elements [resourcesMap] may still point at,
    which detached tags kept a parent.

    Strings are JavaScript strings: sequences of UTF-16 code units. *)

From Stdlib Require Import String Ascii NArith ZArith List Lia.
From stdpp Require Import base option list sorting gmap pretty.

Set Default Proof Using "Type".

(** ** JavaScript strings *)

Abbreviation jsstring := (list N).

(** An ASCII literal as a JavaScript string. *)
Definition js (s : string) : jsstring :=
  N_of_ascii <$> list_ascii_of_string s.

(** The marker that wraps a resource id in the storage format: the seven
    code units of [【$RES$】]. *)
Definition DELIM : jsstring :=
  [0x3010; 0x24; 0x52; 0x45; 0x53; 0x24; 0x3011]%N.

(** [s.startsWith(p)]. *)
Fixpoint startsWith (p s : jsstring) : bool :=
  match p, s with
  | [], _ => true
  | _ :: _, [] => false
  | a :: p', b :: s' => if decide (a = b) then startsWith p' s' else false
  end.

(** [s.includes(p)]. *)
Fixpoint includes (p s : jsstring) : bool :=
  startsWith p s ||
  match s with
  | [] => false
  | _ :: s' => includes p s'
  end.

(** The code units the regular-expression dot does not match. *)
Definition isLineTerminator (c : N) : bool :=
  bool_decide (c = 0x0A ∨ c = 0x0D ∨ c = 0x2028 ∨ c = 0x2029)%N.

(** The code units [String.prototype.trim] strips: WhiteSpace and
    LineTerminator of ECMA-262. *)
Definition isWhiteSpace (c : N) : bool :=
  bool_decide (c = 0x09 ∨ c = 0x0A ∨ c = 0x0B ∨ c = 0x0C ∨ c = 0x0D
               ∨ c = 0x20 ∨ c = 0xA0 ∨ c = 0x1680
               ∨ (0x2000 ≤ c ∧ c ≤ 0x200A)
               ∨ c = 0x2028 ∨ c = 0x2029 ∨ c = 0x202F ∨ c = 0x205F
               ∨ c = 0x3000 ∨ c = 0xFEFF)%N.

(** [s.trim() === ''] *)
Definition trimIsEmpty (s : jsstring) : bool := forallb isWhiteSpace s.

(** Truthiness of an optional string ([undefined] and [''] are falsy). *)
Definition truthy (o : option jsstring) : bool :=
  match o with
  | Some (_ :: _) => true
  | _ => false
  end.

(** [o || ''] *)
Definition orEmpty (o : option jsstring) : jsstring :=
  match o with
  | Some s => s
  | None => []
  end.

(** ** The regular expression [/【\$RES\$】(.*?)【\$RES\$】/g]

    A match attempt anchored at a position reads the opening marker, then
    the lazy group: it tries the closing marker first and, when that fails,
    lets the dot take one more code unit, which must not be a line
    terminator.  [lazyGroup s] is run on what follows the opening marker
    and returns the captured id and what follows the closing marker. *)
Fixpoint lazyGroup (s : jsstring) : option (jsstring * jsstring) :=
  if startsWith DELIM s then Some ([], drop 7 s)
  else
    match s with
    | [] => None
    | c :: s' =>
        if isLineTerminator c then None
        else
          match lazyGroup s' with
          | Some (cap, rest) => Some (c :: cap, rest)
          | None => None
          end
    end.

(** The match attempt anchored at the head of [s]. *)
Definition matchHere (s : jsstring) : option (jsstring * jsstring) :=
  if startsWith DELIM s then lazyGroup (drop 7 s) else None.

(** [resourcePattern.exec(content)] resumed at [lastIndex]: [s] is
    [content.substring(lastIndex)].  The result is the text between
    [lastIndex] and [match.index], the group [match[1]] and the text from
    the new [lastIndex] on. *)
Fixpoint exec (s : jsstring) : option (jsstring * jsstring * jsstring) :=
  match matchHere s with
  | Some (cap, rest) => Some ([], cap, rest)
  | None =>
      match s with
      | [] => None
      | c :: s' =>
          match exec s' with
          | Some (before, cap, rest) => Some (c :: before, cap, rest)
          | None => None
          end
      end
  end.

(** ** Resources *)

Inductive ResourceType := Code | File | Image | Folder.

Global Instance ResourceType_eq_dec : EqDecision ResourceType.
Proof. solve_decision. Defined.

Record Resource := mkResource {
  id : jsstring;
  type : ResourceType;
  language : option jsstring;
  languageId : option jsstring;
  filePath : option jsstring;
  code : option jsstring;
  startLine : option Z;
  endLine : option Z;
  name : option jsstring
}.

(** [resources.find((r) => r.id === resourceId)] *)
Definition findById (resources : list Resource) (resourceId : jsstring)
  : option Resource :=
  List.find (fun r => bool_decide (id r = resourceId)) resources.

(** ** DOM nodes

    A tag element is a leaf of the model: its inner markup (icon, label,
    close button) is not represented, and [el] is the identity of the
    element object, which is what [resourcesMap] stores.  A [br] is a
    void element and has no children; [Elem] stands for any other
    element. *)

Abbreviation handle := nat.

Local Unset Elimination Schemes.

Inductive Node :=
| Text (data : jsstring)
| Tag (el : handle) (resourceId : jsstring)
| Br
| Elem (tagName : jsstring) (children : list Node).

Local Set Elimination Schemes.

Definition isTag (n : Node) : bool :=
  match n with
  | Tag _ _ => true
  | _ => false
  end.

(** The contribution of one child to [extractTextFromNode(node, false)]. *)
Fixpoint extractChild (child : Node) : jsstring :=
  match child with
  | Text data => data
  | Tag _ resourceId =>
      match resourceId with
      | [] => []
      | _ :: _ => DELIM ++ resourceId ++ DELIM
      end
  | Br => []
  | Elem _ children => concat (map extractChild children)
  end.

(** [extractTextFromNode(node, false)], on the child list of [node]. *)
Definition extractTextFromNode (childNodes : list Node) : jsstring :=
  concat (map extractChild childNodes).

(** [node.querySelectorAll('.resource-tag')]: the tag elements below the
    node in document order, each with its [data-resource-id]. *)
Fixpoint tagsOfNode (n : Node) : list (handle * jsstring) :=
  match n with
  | Text _ => []
  | Tag el resourceId => [(el, resourceId)]
  | Br => []
  | Elem _ children => concat (map tagsOfNode children)
  end.

Definition querySelectorAllTags (childNodes : list Node)
  : list (handle * jsstring) :=
  concat (map tagsOfNode childNodes).

(** The sequence of token ids of a document. *)
Definition tokenIds (childNodes : list Node) : list jsstring :=
  snd <$> querySelectorAllTags childNodes.

(** The text of the text nodes outside tags, in document order: what
    [textContent] yields apart from the markup inside the tags. *)
Fixpoint textOfNode (n : Node) : jsstring :=
  match n with
  | Text data => data
  | Tag _ _ => []
  | Br => []
  | Elem _ children => concat (map textOfNode children)
  end.

Definition textOf (childNodes : list Node) : jsstring :=
  concat (map textOfNode childNodes).

(** ** Selection

    [window.getSelection()] either has no range, or a range outside the
    editable div, or a range inside it.  A boundary point inside the div is
    [(div, offset)] or [(text node child of the div, offset)].  Boundary
    points inside a tag (in its label, where [setCursorPosition] can put
    the caret) or inside a nested element are outside the model: what
    the component does with such a selection is not described here. *)

Inductive Boundary :=
| AtDiv (offset : nat)
| InText (index offset : nat).

Global Instance Boundary_eq_dec : EqDecision Boundary.
Proof. solve_decision. Defined.

Record Range := mkRange {
  rangeStart : Boundary;
  rangeEnd : Boundary
}.

Inductive Selection :=
| NoRange
| Outside
| Inside (r : Range).

Definition caret (b : Boundary) : Range := mkRange b b.

(** [range.collapsed] *)
Definition collapsed (r : Range) : bool :=
  bool_decide (rangeStart r = rangeEnd r).

(** [range.startOffset] *)
Definition startOffset (r : Range) : nat :=
  match rangeStart r with
  | AtDiv offset => offset
  | InText _ offset => offset
  end.

(** Position of a boundary point in document order, as (child index,
    offset inside that child); [(div, k)] is the very start of child [k]. *)
Definition position (b : Boundary) : nat * nat :=
  match b with
  | AtDiv k => (k, 0)
  | InText i offset => (i, S offset)
  end.

Definition boundaryLe (a b : Boundary) : bool :=
  let '(i, x) := position a in
  let '(j, y) := position b in
  (i <? j) || ((i =? j) && (x <=? y)).

(** *** Live ranges

    When children of the div are removed, the DOM moves the boundary points
    of every live range: a point inside a removed child goes to the place
    of that child in the div, and later indices shift down.  [flags] tells
    for every child whether it is removed. *)
Definition removedBefore (flags : list bool) (k : nat) : nat :=
  length (List.filter (fun b : bool => b) (take k flags)).

Definition adjustBoundary (flags : list bool) (b : Boundary) : Boundary :=
  match b with
  | AtDiv k => AtDiv (k - removedBefore flags k)
  | InText i offset =>
      if nth i flags false then AtDiv (i - removedBefore flags i)
      else InText (i - removedBefore flags i) offset
  end.

Definition adjustSelection (flags : list bool) (sel : Selection) : Selection :=
  match sel with
  | Inside r =>
      Inside (mkRange (adjustBoundary flags (rangeStart r))
                      (adjustBoundary flags (rangeEnd r)))
  | _ => sel
  end.

(** After [div.textContent = ...] (or removing every child) a range in the
    div is collapsed at [(div, 0)]. *)
Definition resetSelection (sel : Selection) : Selection :=
  match sel with
  | Inside _ => Inside (caret (AtDiv 0))
  | _ => sel
  end.

(** *** Removing nodes

    [removeNodes p nodes] detaches every node, at any depth, that [p]
    marks; the marks are taken on the tree as it is before the removal,
    as the loops of the component do (they collect first, or test an
    attribute that the removal does not change). *)
Fixpoint removeIn (p : Node -> bool) (n : Node) : Node :=
  match n with
  | Elem tagName children =>
      Elem tagName
        (concat (map (fun c => if p c then [] else [removeIn p c]) children))
  | _ => n
  end.

Definition removeNodes (p : Node -> bool) (nodes : list Node) : list Node :=
  concat (map (fun c => if p c then [] else [removeIn p c]) nodes).

(** *** [Range.deleteContents] and [Range.insertNode] on the children of
    the div *)

Definition truncateTail (a : nat) (n : Node) : Node :=
  match n with
  | Text data => Text (take a data)
  | _ => n
  end.

Definition truncateHead (b : nat) (n : Node) : Node :=
  match n with
  | Text data => Text (drop b data)
  | _ => n
  end.

Definition cutMiddle (a b : nat) (n : Node) : Node :=
  match n with
  | Text data => Text (take a data ++ drop b data)
  | _ => n
  end.

(** [range.deleteContents()]: the new child list and the boundary point
    the range is collapsed to. *)
Definition deleteContents (nodes : list Node) (r : Range)
  : list Node * Boundary :=
  if collapsed r || negb (boundaryLe (rangeStart r) (rangeEnd r))
  then (nodes, rangeStart r)
  else
    match rangeStart r, rangeEnd r with
    | InText i a, InText j b =>
        if decide (i = j)
        then (take i nodes
              ++ from_option (fun n => [cutMiddle a b n]) [] (nodes !! i)
              ++ drop (S i) nodes, InText i a)
        else (take i nodes
              ++ from_option (fun n => [truncateTail a n]) [] (nodes !! i)
              ++ from_option (fun n => [truncateHead b n]) [] (nodes !! j)
              ++ drop (S j) nodes, AtDiv (S i))
    | InText i a, AtDiv m =>
        (take i nodes
         ++ from_option (fun n => [truncateTail a n]) [] (nodes !! i)
         ++ drop m nodes, AtDiv (S i))
    | AtDiv k, InText j b =>
        (take k nodes
         ++ from_option (fun n => [truncateHead b n]) [] (nodes !! j)
         ++ drop (S j) nodes, AtDiv k)
    | AtDiv k, AtDiv m =>
        (take k nodes ++ drop m nodes, AtDiv k)
    end.

(** The first child that lies behind a boundary point as a whole, and
    the first child that does not lie before it as a whole. *)
Definition childAfter (b : Boundary) : nat :=
  match b with
  | AtDiv k => k
  | InText i _ => S i
  end.

Definition childAt (b : Boundary) : nat :=
  match b with
  | AtDiv k => k
  | InText i _ => i
  end.

(** The children [range.deleteContents()] removes as a whole: the ones
    between the two boundary points. *)
Definition deletedNodes (nodes : list Node) (r : Range) : list Node :=
  if collapsed r || negb (boundaryLe (rangeStart r) (rangeEnd r))
  then []
  else take (childAt (rangeEnd r) - childAfter (rangeStart r))
            (drop (childAfter (rangeStart r)) nodes).

(** The boundary points of the model that are boundary points of the
    DOM: an offset among the children of the div, or an offset in a
    child that is a text node. *)
Definition representable (nodes : list Node) (b : Boundary) : bool :=
  match b with
  | AtDiv k => k <=? length nodes
  | InText i a =>
      match nodes !! i with
      | Some (Text data) => a <=? length data
      | _ => false
      end
  end.

(** [range.insertNode(node)] for a range collapsed at [b]: at
    [(text node, offset)] the text node is split at the offset and the
    node goes before the second half; at [(div, offset)] the node goes
    before the child at the offset.  The result is the new child list
    and the index of the inserted node.  On the values of [Boundary]
    that are not [representable], which no range of the DOM takes, the
    function is completed: the node goes before the child of that index,
    or last. *)
Definition insertNode (nodes : list Node) (b : Boundary) (node : Node)
  : list Node * nat :=
  match b with
  | AtDiv k =>
      let k' := k `min` length nodes in
      (take k' nodes ++ node :: drop k' nodes, k')
  | InText i a =>
      match nodes !! i with
      | Some (Text data) =>
          (take i nodes ++ Text (take a data) :: node :: Text (drop a data)
           :: drop (S i) nodes, S i)
      | _ =>
          let k' := i `min` length nodes in
          (take k' nodes ++ node :: drop k' nodes, k')
      end
  end.

(** ** The state of a mounted component *)

Inductive Emit :=
| UpdateModelValue (value : jsstring)
| InputEvent
| EnterEvent
| CtrlEnterEvent
| ArrowUpEvent
| ResourceRemoved (resourceId : jsstring).

(** The callbacks the component hands to [nextTick]. *)
Inductive Task :=
| EnsureArea
| AfterUpdate (resources : list Resource)
| SyncValue
| AfterRemove.

(** [childNodes] are the children of the div.  [wrapped] holds the tag
    elements that are no longer in the tree of the div but still have a
    parent: they left the div inside another element, which
    [div.textContent = ...] and [range.deleteContents()] detach as a
    whole.  [resourcesMap] may still point at them, and
    [removeResource] tests [tag.parentNode]. *)
Record State := mkState {
  childNodes : list Node;
  resourcesMap : gmap (list N) handle;
  selection : Selection;
  propsResources : list Resource;
  nextEl : handle;
  emitted : list Emit;
  ticks : list Task;
  wrapped : gset handle
}.

Definition setChildNodes (nodes : list Node) (s : State) : State :=
  mkState nodes (resourcesMap s) (selection s) (propsResources s)
          (nextEl s) (emitted s) (ticks s) (wrapped s).

Definition setResourcesMap (m : gmap (list N) handle) (s : State) : State :=
  mkState (childNodes s) m (selection s) (propsResources s)
          (nextEl s) (emitted s) (ticks s) (wrapped s).

Definition setSelection (sel : Selection) (s : State) : State :=
  mkState (childNodes s) (resourcesMap s) sel (propsResources s)
          (nextEl s) (emitted s) (ticks s) (wrapped s).

Definition setProps (resources : list Resource) (s : State) : State :=
  mkState (childNodes s) (resourcesMap s) (selection s) resources
          (nextEl s) (emitted s) (ticks s) (wrapped s).

Definition setNextEl (h : handle) (s : State) : State :=
  mkState (childNodes s) (resourcesMap s) (selection s) (propsResources s)
          h (emitted s) (ticks s) (wrapped s).

Definition emit (e : Emit) (s : State) : State :=
  mkState (childNodes s) (resourcesMap s) (selection s) (propsResources s)
          (nextEl s) (emitted s ++ [e]) (ticks s) (wrapped s).

Definition nextTick (t : Task) (s : State) : State :=
  mkState (childNodes s) (resourcesMap s) (selection s) (propsResources s)
          (nextEl s) (emitted s) (ticks s ++ [t]) (wrapped s).

Definition setWrapped (w : gset handle) (s : State) : State :=
  mkState (childNodes s) (resourcesMap s) (selection s) (propsResources s)
          (nextEl s) (emitted s) (ticks s) w.

(** The component right after mount, before any content or resource. *)
Definition mounted : State :=
  mkState [] ∅ NoRange [] 0 [] [] ∅.

(** The tags that keep their parent when whole children leave the div:
    the ones inside the elements that leave.  A tag that leaves as a
    child of the div itself has no parent any more. *)
Definition keepParent (removed : list Node) : gset handle :=
  list_to_set
    (concat (map (fun n => match n with
                           | Elem _ children => (querySelectorAllTags children).*1
                           | _ => []
                           end) removed)).

(** Removal of the marked nodes from the div, with the live selection. *)
Definition detach (p : Node -> bool) (s : State) : State :=
  setSelection (adjustSelection (map p (childNodes s)) (selection s))
    (setChildNodes (removeNodes p (childNodes s)) s).

(** [div.textContent = content]: every child leaves the div. *)
Definition setTextContent (content : jsstring) (s : State) : State :=
  setWrapped (wrapped s ∪ keepParent (childNodes s))
    (setSelection (resetSelection (selection s))
       (setChildNodes (match content with [] => [] | _ :: _ => [Text content] end) s)).

(** ** Keyboard events *)

Module KeyboardEvent.
Record t := mk {
  code : jsstring;
  ctrlKey : bool;
  metaKey : bool;
  isComposing : bool;
  keyCode : nat
}.
End KeyboardEvent.

(** ** The component *)

(** [getContent()] *)
Definition getContent (s : State) : jsstring :=
  extractTextFromNode (childNodes s).

(** The storage string of the document up to a boundary point, and from
    it on. *)
Definition contentBefore (nodes : list Node) (b : Boundary) : jsstring :=
  match b with
  | AtDiv k => extractTextFromNode (take k nodes)
  | InText i a =>
      extractTextFromNode (take i nodes)
      ++ match nodes !! i with
         | Some (Text data) => take a data
         | _ => []
         end
  end.

Definition contentAfter (nodes : list Node) (b : Boundary) : jsstring :=
  match b with
  | AtDiv k => extractTextFromNode (drop k nodes)
  | InText i a =>
      match nodes !! i with
      | Some (Text data) => drop a data
      | _ => []
      end
      ++ extractTextFromNode (drop (S i) nodes)
  end.

(** [syncValue()] *)
Definition syncValue (s : State) : State :=
  emit (UpdateModelValue (getContent s)) s.

(** *** [parseContentWithResources]

    One turn of the [while] loop appends to the div and registers the
    tag; [fuel] bounds the number of turns, and every turn consumes at
    least the two markers, so the length of the content is enough. *)
Fixpoint parseLoop (fuel : nat) (rest : jsstring) (s : State) : State :=
  match fuel with
  | 0 => s
  | S fuel' =>
      match exec rest with
      | Some (textBefore, resourceId, rest') =>
          let s1 :=
            match textBefore with
            | [] => s
            | _ :: _ => setChildNodes (childNodes s ++ [Text textBefore]) s
            end in
          let s2 :=
            match findById (propsResources s1) resourceId with
            | Some resource =>
                let tag := nextEl s1 in
                setResourcesMap (<[id resource := tag]> (resourcesMap s1))
                  (setNextEl (S tag)
                    (setChildNodes
                       (childNodes s1 ++ [Tag tag (id resource)]) s1))
            | None =>
                setChildNodes
                  (childNodes s1 ++ [Text (DELIM ++ resourceId ++ DELIM)]) s1
            end in
          parseLoop fuel' rest' s2
      | None =>
          match rest with
          | [] => s
          | _ :: _ => setChildNodes (childNodes s ++ [Text rest]) s
          end
      end
  end.

Definition parseContentWithResources (content : jsstring) (s : State)
  : State :=
  nextTick EnsureArea
    (parseLoop (S (length content)) content (setTextContent [] s)).

(** [setContent] *)
Definition setContent (content : jsstring) (s : State) : State :=
  if includes DELIM content then parseContentWithResources content s
  else setTextContent content s.

(** [tag.setAttribute('data-resource-id', resourceId)] on the element
    [el]. *)
Fixpoint setAttributeIn (el : handle) (resourceId : jsstring) (n : Node)
  : Node :=
  match n with
  | Text _ => n
  | Tag el' _ => if decide (el' = el) then Tag el' resourceId else n
  | Br => n
  | Elem tagName children =>
      Elem tagName (map (setAttributeIn el resourceId) children)
  end.

Definition setAttribute (el : handle) (resourceId : jsstring) (s : State)
  : State :=
  setChildNodes (map (setAttributeIn el resourceId) (childNodes s)) s.

(** *** [insertResourceTag]

    [updateResourceTagContent] rewrites the label and the icon inside an
    element, which the model does not represent: where the component
    only calls it, the state stays as it is. *)
Definition insertResourceTag (resource : Resource) (s : State) : State :=
  match resourcesMap s !! id resource with
  | Some existingTag => s
  | None =>
      let tag := nextEl s in
      let s1 :=
        match selection s with
        | Inside range =>
            let '(nodes1, point) := deleteContents (childNodes s) range in
            let '(nodes2, k) := insertNode nodes1 point (Tag tag (id resource)) in
            let nodes3 := take (S k) nodes2 ++ Text (js " ") :: drop (S k) nodes2 in
            setSelection (Inside (caret (AtDiv (S (S k)))))
              (setWrapped
                 (wrapped s ∪ keepParent (deletedNodes (childNodes s) range))
                 (setChildNodes nodes3 s))
        | _ =>
            setChildNodes
              (childNodes s ++ [Tag tag (id resource); Text (js " ")]) s
        end in
      syncValue
        (setResourcesMap (<[id resource := tag]> (resourcesMap s1))
           (nextTick EnsureArea (setNextEl (S tag) s1)))
  end.

(** *** The first loop of [updateResources] *)

(** The tags the loop removes. *)
Definition notListed (resources : list Resource) (n : Node) : bool :=
  match n with
  | Tag _ resourceId =>
      negb (bool_decide (is_Some (findById resources resourceId)))
  | _ => false
  end.

Definition prune (resources : list Resource) (s : State) : State :=
  let removed :=
    List.filter (fun t : handle * jsstring =>
                   negb (bool_decide (is_Some (findById resources t.2))))
                (querySelectorAllTags (childNodes s)) in
  setResourcesMap
    (foldl (fun m (t : handle * jsstring) => delete t.2 m) (resourcesMap s) removed)
    (detach (notListed resources) s).

(** *** [removeResource] *)

Definition isElement (el : handle) (n : Node) : bool :=
  match n with
  | Tag el' _ => bool_decide (el' = el)
  | _ => false
  end.

(** The element is in the tree of the div. *)
Definition attached (el : handle) (nodes : list Node) : bool :=
  bool_decide (el ∈ (querySelectorAllTags nodes).*1).

(** [tag.parentNode] is set: the element is in the tree of the div, or
    it left the div inside an element and is still a child there. *)
Definition hasParent (el : handle) (s : State) : bool :=
  attached el (childNodes s) || bool_decide (el ∈ wrapped s).

Definition removeResource (resourceId : jsstring) (s : State) : State :=
  match resourcesMap s !! resourceId with
  | Some tag =>
      if hasParent tag s then
        nextTick AfterRemove
          (emit (ResourceRemoved resourceId)
             (syncValue
                (setResourcesMap (delete resourceId (resourcesMap s))
                   (setWrapped (wrapped s ∖ {[tag]})
                      (detach (isElement tag) s)))))
      else s
  | None => s
  end.

(** *** The deferred clean-up *)

(** What [cleanupEmptyNodes] collects: text nodes of white space only and
    elements, other than tags, without element children and without
    text but white space. *)
Definition isTextNode (n : Node) : bool :=
  match n with
  | Text _ => true
  | _ => false
  end.

Definition emptyNode (n : Node) : bool :=
  match n with
  | Text data => trimIsEmpty data
  | Tag _ _ => false
  | Br => true
  | Elem _ children => trimIsEmpty (textOf children) && forallb isTextNode children
  end.

Definition cleanupEmptyNodes (s : State) : State := detach emptyNode s.

(** [!textContent && !hasTags] *)
Definition blank (s : State) : bool :=
  trimIsEmpty (textOf (childNodes s))
  && bool_decide (querySelectorAllTags (childNodes s) = []).

(** [tagName === 'BR'] *)
Definition isBR (n : Node) : bool :=
  match n with
  | Br => true
  | _ => false
  end.

(** The [while] loop of [ensureInputArea], on the children from the last
    one backwards: how many it removes. *)
Fixpoint trailingToRemove (reversed : list Node) : nat :=
  match reversed with
  | Text data :: previous =>
      if trimIsEmpty data then S (trailingToRemove previous) else 0
  | Br :: previous =>
      if match previous with
         | p :: _ => isBR p
         | [] => false
         end
      then S (trailingToRemove previous)
      else 0
  | _ => 0
  end.

Definition ensureInputArea (s : State) : State :=
  if bool_decide (querySelectorAllTags (childNodes s) = []) then s
  else
    let n := length (childNodes s) - trailingToRemove (rev (childNodes s)) in
    let flags := replicate n false ++ replicate (length (childNodes s) - n) true in
    let s1 := setSelection (adjustSelection flags (selection s))
                (setChildNodes (take n (childNodes s)) s) in
    match last (childNodes s1) with
    | Some (Tag _ _) => setChildNodes (childNodes s1 ++ [Br]) s1
    | Some (Text data) =>
        if trimIsEmpty data then setChildNodes (childNodes s1 ++ [Br]) s1 else s1
    | Some Br => s1
    | Some (Elem _ _) => s1
    | None => setChildNodes (childNodes s1 ++ [Br]) s1
    end.

(** One [nextTick] callback. *)
Definition runTask (s : State) (t : Task) : State :=
  match t with
  | EnsureArea => ensureInputArea s
  | AfterUpdate resources =>
      if blank s then setTextContent [] s
      else ensureInputArea (cleanupEmptyNodes s)
  | SyncValue => syncValue s
  | AfterRemove =>
      if blank s then setTextContent [] s
      else cleanupEmptyNodes s
  end.

(** The next tick: the queued callbacks run in order. *)
Definition flush (s : State) : State :=
  foldl runTask
    (mkState (childNodes s) (resourcesMap s) (selection s) (propsResources s)
             (nextEl s) (emitted s) [] (wrapped s))
    (ticks s).

(** *** Keyboard handling *)

(** [insertNewLine] *)
Definition insertNewLine (s : State) : State :=
  match selection s with
  | NoRange => s
  | Outside => syncValue s
  | Inside range =>
      let '(nodes1, point) := deleteContents (childNodes s) range in
      let '(nodes2, k) := insertNode nodes1 point Br in
      syncValue
        (setSelection (Inside (caret (AtDiv (S k))))
           (setWrapped
              (wrapped s ∪ keepParent (deletedNodes (childNodes s) range))
              (setChildNodes nodes2 s)))
  end.

(** [container.previousSibling] for the start container of a range. *)
Definition previousSibling (nodes : list Node) (b : Boundary) : option Node :=
  match b with
  | AtDiv _ => None
  | InText 0 _ => None
  | InText (S i) _ => nodes !! i
  end.

(** [handleBackspace]; the boolean tells whether [preventDefault] was
    called. *)
Definition handleBackspace (s : State) : State * bool :=
  match selection s with
  | Inside range =>
      if collapsed range && bool_decide (startOffset range = 0) then
        match previousSibling (childNodes s) (rangeStart range) with
        | Some (Tag _ resourceId) =>
            match resourceId with
            | [] => (s, true)
            | _ :: _ => (removeResource resourceId s, true)
            end
        | _ => (s, false)
        end
      else (s, false)
  | _ => (s, false)
  end.

(** [handleKeydown] *)
Definition handleKeydown (e : KeyboardEvent.t) (s : State) : State * bool :=
  if bool_decide (KeyboardEvent.code e = js "Enter")
     && negb (KeyboardEvent.isComposing e)
  then
    if KeyboardEvent.ctrlKey e || KeyboardEvent.metaKey e
    then (emit CtrlEnterEvent (insertNewLine s), true)
    else (emit EnterEvent s, true)
  else if bool_decide (KeyboardEvent.keyCode e = 38)
  then (emit ArrowUpEvent s, false)
  else if bool_decide (KeyboardEvent.code e = js "Backspace")
  then handleBackspace s
  else (s, false).

(** [handlePaste]: the text of the clipboard replaces the selection as
    one new text node; [preventDefault] is called in every case. *)
Definition handlePaste (text : jsstring) (s : State) : State :=
  match selection s with
  | NoRange => s
  | Outside => syncValue s
  | Inside range =>
      let '(nodes1, point) := deleteContents (childNodes s) range in
      let '(nodes2, k) := insertNode nodes1 point (Text text) in
      syncValue
        (setSelection (Inside (caret (AtDiv (S k))))
           (setWrapped
              (wrapped s ∪ keepParent (deletedNodes (childNodes s) range))
              (setChildNodes nodes2 s)))
  end.

(** [handleInput], after the browser has edited the div.  When the div
    is blank the handler defers a callback that is none of the [Task]s
    above: the flag of the result tells that it did, and [clearIfBlank]
    is that callback. *)
Definition clearIfBlank (s : State) : State :=
  if blank s then setTextContent [] s else s.

Definition handleInput (s : State) : State * bool :=
  let deferred := blank s in
  (emit InputEvent
     (syncValue (if deferred then s else nextTick EnsureArea s)),
   deferred).

(** The tick after an input event: the callbacks queued so far, the one
    of [handleInput] last. *)
Definition afterInput (result : State * bool) : State :=
  let s := flush result.1 in
  if result.2 then clearIfBlank s else s.

(** *** The watcher of [modelValue] *)

(** [Array.from(content.matchAll(resourcePattern)).map(m => m[1])]: the
    ids of the markers of a string, from left to right.  Every match
    takes at least the two markers, so the length of the string is fuel
    enough. *)
Fixpoint matchAllLoop (fuel : nat) (s : jsstring) : list jsstring :=
  match fuel with
  | 0 => []
  | S fuel' =>
      match exec s with
      | Some (_, resourceId, rest) => resourceId :: matchAllLoop fuel' rest
      | None => []
      end
  end.

Definition matchAll (content : jsstring) : list jsstring :=
  matchAllLoop (S (length content)) content.

(** The order of [Array.prototype.sort] without a comparator: strings by
    their code units. *)
Fixpoint codeUnitsLe (a b : jsstring) : bool :=
  match a, b with
  | [], _ => true
  | _ :: _, [] => false
  | x :: a', y :: b' => (x <? y)%N || ((x =? y)%N && codeUnitsLe a' b')
  end.

Definition codeUnitsOrder : relation jsstring :=
  fun a b => codeUnitsLe a b = true.

Global Instance codeUnitsOrder_dec (a b : jsstring) :
  Decision (codeUnitsOrder a b).
Proof. unfold codeUnitsOrder. apply _. Defined.

Definition sortIds (ids : list jsstring) : list jsstring :=
  merge_sort codeUnitsOrder ids.

(** The callback of [watch(() => props.modelValue, ...)].
    [JSON.stringify] is one-to-one on arrays of strings, so the
    comparison of the two serialisations is the comparison of the two
    sorted arrays. *)
Definition watchModelValue (newVal : jsstring) (s : State) : State :=
  let currentContent := getContent s in
  if decide (newVal = currentContent) then s
  else if truthy (Some newVal) && truthy (Some currentContent)
          && includes DELIM newVal && includes DELIM currentContent
          && bool_decide (sortIds (matchAll newVal)
                          = sortIds (matchAll currentContent))
  then s
  else setContent newVal s.

(** *** The caret by text position *)

(** [getTextNodeAtPosition(root, position)] on the text nodes the tree
    walker yields, in document order (the text nodes inside the tags
    included): the index of the node in that sequence and the offset.
    A position is a length, as the chat page passes it; [currentPos]
    never exceeds [position], so the subtraction is the one of the
    source. *)
Fixpoint getTextNodeAtPositionFrom (texts : list jsstring)
         (index currentPos position : nat) : option (nat * nat) :=
  match texts with
  | [] => None
  | textNode :: texts' =>
      let nodeLength := length textNode in
      if position <=? currentPos + nodeLength
      then Some (index, position - currentPos)
      else getTextNodeAtPositionFrom texts' (S index)
             (currentPos + nodeLength) position
  end.

Definition getTextNodeAtPosition (texts : list jsstring) (position : nat)
  : option (nat * nat) :=
  getTextNodeAtPositionFrom texts 0 0 position.

(** [setCursorPosition(position)]: the text node and the offset the
    range is collapsed at, if any; the offset is
    [Math.min(position, textNode.node.textContent.length)]. *)
Definition setCursorPosition (texts : list jsstring) (position : nat)
  : option (nat * nat) :=
  match getTextNodeAtPosition texts position with
  | Some (index, _) =>
      Some (index, position `min` length (texts !!! index))
  | None => None
  end.

(** *** Labels and icons of the tags *)

(** [a || b] on strings. *)
Definition orElse (a b : jsstring) : jsstring :=
  match a with
  | [] => b
  | _ :: _ => a
  end.

(** [s.split(separator)] for a separator that matches one code unit. *)
Fixpoint split (isSeparator : N → bool) (s : jsstring) : list jsstring :=
  match s with
  | [] => [[]]
  | c :: s' =>
      if isSeparator c then [] :: split isSeparator s'
      else
        match split isSeparator s' with
        | piece :: pieces => (c :: piece) :: pieces
        | [] => [[c]]
        end
  end.

(** [/[/\\]/] *)
Definition isPathSeparator (c : N) : bool :=
  bool_decide (c = 0x2F ∨ c = 0x5C)%N.

(** [filePath.split(/[/\\]/).pop() || filePath] *)
Definition fileNameOf (filePath : jsstring) : jsstring :=
  orElse (default [] (last (split isPathSeparator filePath))) filePath.

(** The prefixes of [getResourceDisplayText]. *)
Definition CODE_REF : jsstring :=
  [0x3010; 0x5F15; 0x7528; 0x4EE3; 0x7801; 0x7247; 0x6BB5; 0x3011]%N.

Definition FILE_REF : jsstring :=
  [0x3010; 0x5F15; 0x7528; 0x4EE3; 0x7801; 0x6587; 0x4EF6; 0x3011]%N.

Definition IMAGE_REF : jsstring :=
  [0x3010; 0x5F15; 0x7528; 0x56FE; 0x7247; 0x3011]%N.

Definition FOLDER_REF : jsstring :=
  [0x3010; 0x5F15; 0x7528; 0x6587; 0x4EF6; 0x5939; 0x3011]%N.

Definition RESOURCE_REF : jsstring :=
  [0x3010; 0x5F15; 0x7528; 0x8D44; 0x6E90; 0x3011]%N.

(** The table of [getLanguageIcon], in the order of the object literal,
    which is the order [Object.entries] yields. *)
Definition languageIconMap : list (jsstring * jsstring) :=
  [ (js "javascript", js "vs-icon-javascript");
    (js "typescript", js "vs-icon-typescript");
    (js "python", js "vs-icon-python");
    (js "java", js "vs-icon-java");
    (js "c", js "vs-icon-c");
    (js "cpp", js "vs-icon-cpp");
    (js "csharp", js "vs-icon-csharp");
    (js "cs", js "vs-icon-csharp");
    (js "go", js "vs-icon-go");
    (js "rust", js "vs-icon-rust");
    (js "php", js "vs-icon-php");
    (js "ruby", js "vs-icon-ruby");
    (js "swift", js "vs-icon-swift");
    (js "kotlin", js "vs-icon-kotlin");
    (js "dart", js "vs-icon-dart");
    (js "scala", js "vs-icon-scala");
    (js "clojure", js "vs-icon-clojure");
    (js "erlang", js "vs-icon-erlang");
    (js "elixir", js "vs-icon-elixir");
    (js "haskell", js "vs-icon-haskell");
    (js "lua", js "vs-icon-lua");
    (js "perl", js "vs-icon-perl");
    (js "r", js "vs-icon-r");
    (js "matlab", js "vs-icon-matlab");
    (js "julia", js "vs-icon-julia");
    (js "fsharp", js "vs-icon-fsharp");
    (js "ocaml", js "vs-icon-ocaml");
    (js "nim", js "vs-icon-nim");
    (js "zig", js "vs-icon-zig");
    (js "d", js "vs-icon-d");
    (js "fortran", js "vs-icon-fortran");
    (js "assembly", js "vs-icon-assembly");
    (js "cuda", js "vs-icon-cuda");
    (js "solidity", js "vs-icon-solidity");
    (js "qsharp", js "vs-icon-qsharp");
    (js "html", js "vs-icon-html");
    (js "css", js "vs-icon-css");
    (js "scss", js "vs-icon-sass");
    (js "sass", js "vs-icon-sass");
    (js "less", js "vs-icon-less");
    (js "stylus", js "vs-icon-stylus");
    (js "json", js "vs-icon-json");
    (js "xml", js "vs-icon-xml");
    (js "yaml", js "vs-icon-yaml");
    (js "yml", js "vs-icon-yaml");
    (js "toml", js "vs-icon-toml");
    (js "vue", js "vs-icon-vue");
    (js "react", js "vs-icon-react");
    (js "angular", js "vs-icon-angular");
    (js "svelte", js "vs-icon-svelte");
    (js "jsx", js "vs-icon-react");
    (js "tsx", js "vs-icon-react_ts");
    (js "markdown", js "vs-icon-markdown");
    (js "md", js "vs-icon-markdown");
    (js "mdx", js "vs-icon-mdx");
    (js "shellscript", js "vs-icon-bash");
    (js "bash", js "vs-icon-bash");
    (js "sh", js "vs-icon-bash");
    (js "zsh", js "vs-icon-bash");
    (js "powershell", js "vs-icon-powershell");
    (js "ps1", js "vs-icon-powershell");
    (js "sql", js "vs-icon-database");
    (js "mysql", js "vs-icon-database");
    (js "postgresql", js "vs-icon-database");
    (js "sqlite", js "vs-icon-database");
    (js "dockerfile", js "vs-icon-docker");
    (js "docker", js "vs-icon-docker");
    (js "git", js "vs-icon-git");
    (js "gitignore", js "vs-icon-git");
    (js "gitattributes", js "vs-icon-git");
    (js "makefile", js "vs-icon-makefile");
    (js "cmake", js "vs-icon-cmake");
    (js "gradle", js "vs-icon-gradle");
    (js "maven", js "vs-icon-maven");
    (js "npm", js "vs-icon-npm");
    (js "yarn", js "vs-icon-yarn");
    (js "package.json", js "vs-icon-json");
    (js "package-lock.json", js "icon-json");
    (js "yarn.lock", js "icon-yarn");
    (js "docker-compose", js "icon-docker");
    (js "nginx", js "icon-nginx");
    (js "apache", js "icon-apache");
    (js "vim", js "icon-vim");
    (js "vimrc", js "icon-vim");
    (js "editorconfig", js "icon-settings");
    (js "eslintrc", js "icon-eslint");
    (js "prettierrc", js "icon-prettier");
    (js "tsconfig", js "icon-typescript-def");
    (js "jsconfig", js "icon-javascript") ].

(** The properties an object literal inherits from [Object.prototype]:
    [languageIconMap[lang]] finds them too, and they are truthy. *)
Definition objectPrototypeKeys : list jsstring :=
  [ js "constructor"; js "__defineGetter__"; js "__defineSetter__";
    js "hasOwnProperty"; js "__lookupGetter__"; js "__lookupSetter__";
    js "isPrototypeOf"; js "propertyIsEnumerable"; js "toString";
    js "valueOf"; js "__proto__"; js "toLocaleString" ].

(** What [getLanguageIcon] returns: a class name of the table, or the
    inherited property it found under the name. *)
Inductive IconValue :=
| IconClass (className : jsstring)
| Inherited (key : jsstring).

(** [languageIconMap[lang]] on the own properties. *)
Definition lookupOwn (lang : jsstring) : option jsstring :=
  snd <$> List.find (fun p : jsstring * jsstring => bool_decide (p.1 = lang))
                    languageIconMap.

(** ** The chat page around the component

    What [ChatPage.vue] keeps for the component: the list it passes as
    [resources], the preview of the selected code, and the messages it
    posts to the extension. *)

Module SelectionData.
Record t := mk {
  selectCode : option jsstring;
  language : option jsstring;
  languageId : option jsstring;
  filePath : option jsstring;
  startLine : option Z;
  endLine : option Z
}.
End SelectionData.

Inductive Posted :=
| HICODE_CLEAR_SELECTION.

Module ChatPage.
Record t := mk {
  resources : list Resource;
  selectedCode : jsstring;
  selectedLanguage : jsstring;
  isShowCodeSelect : bool;
  posted : list Posted
}.
End ChatPage.

(** [handleResourceRemoved] *)
Definition handleResourceRemoved (resourceId : jsstring) (h : ChatPage.t)
  : ChatPage.t :=
  let kept :=
    List.filter (fun r => negb (bool_decide (id r = resourceId)))
                (ChatPage.resources h) in
  match findById (ChatPage.resources h) resourceId with
  | Some resource =>
      if bool_decide (type resource = Code)
      then ChatPage.mk kept [] [] false
             (ChatPage.posted h ++ [HICODE_CLEAR_SELECTION])
      else ChatPage.mk kept (ChatPage.selectedCode h)
             (ChatPage.selectedLanguage h) (ChatPage.isShowCodeSelect h)
             (ChatPage.posted h)
  | None =>
      ChatPage.mk kept (ChatPage.selectedCode h)
        (ChatPage.selectedLanguage h) (ChatPage.isShowCodeSelect h)
        (ChatPage.posted h)
  end.

(** ** Predicates of the statements *)

(** Every tag in the div is indexed by [resourcesMap] under its id. *)
Definition registered (s : State) : Prop :=
  ∀ el resourceId,
    (el, resourceId) ∈ querySelectorAllTags (childNodes s) →
    resourcesMap s !! resourceId = Some el.

(** The document read back with every tag as its marker, the empty id
    included: the storage string the document stands for. *)
Fixpoint literalOfNode (n : Node) : jsstring :=
  match n with
  | Text data => data
  | Tag _ resourceId => DELIM ++ resourceId ++ DELIM
  | Br => []
  | Elem _ children => concat (map literalOfNode children)
  end.

Definition literal (nodes : list Node) : jsstring :=
  concat (map literalOfNode nodes).

(** The id resolves in the resource list of the props. *)
Definition known (s : State) (resourceId : jsstring) : Prop :=
  is_Some (findById (propsResources s) resourceId).

(** The document as the sequence of its text nodes and tags, in document
    order, the nesting in other elements forgotten. *)
Inductive Item :=
| IText (data : jsstring)
| IToken (resourceId : jsstring).

Fixpoint itemsOfNode (n : Node) : list Item :=
  match n with
  | Text data => [IText data]
  | Tag _ resourceId => [IToken resourceId]
  | Br => []
  | Elem _ children => concat (map itemsOfNode children)
  end.

Definition items (nodes : list Node) : list Item :=
  concat (map itemsOfNode nodes).






Definition textOfItem (it : Item) : jsstring :=
  match it with
  | IText data => data
  | IToken _ => []
  end.

Definition tokenOfItem (it : Item) : list jsstring :=
  match it with
  | IText _ => []
  | IToken i => [i]
  end.

(** A key of [resourcesMap] points at no tag in the div that carries
    another id. *)
Definition exclusive (s : State) : Prop :=
  ∀ i el i',
    resourcesMap s !! i = Some el →
    (el, i') ∈ querySelectorAllTags (childNodes s) →
    i' = i.

(** [document.createElement] returns an element that is neither in the
    div nor in the index. *)
Definition freshHandles (s : State) : Prop :=
  (∀ el i, (el, i) ∈ querySelectorAllTags (childNodes s) → el < nextEl s)
  ∧ (∀ i el, resourcesMap s !! i = Some el → el < nextEl s).

Definition wellFormed (s : State) : Prop :=
  registered s ∧ exclusive s ∧ freshHandles s.

(** No entry of [resourcesMap] under an id of the list is stale: it
    points at a tag in the div that carries the key as its id.  Entries
    under other ids may point anywhere. *)
Definition noStaleAmong (resources : list Resource) (s : State) : Prop :=
  ∀ i el,
    is_Some (findById resources i) →
    resourcesMap s !! i = Some el →
    (el, i) ∈ querySelectorAllTags (childNodes s).

(** Every tag in the div that carries an id of the list is indexed by
    [resourcesMap] under that id. *)
Definition registeredAmong (resources : list Resource) (s : State) : Prop :=
  ∀ el i,
    (el, i) ∈ querySelectorAllTags (childNodes s) →
    is_Some (findById resources i) →
    resourcesMap s !! i = Some el.



(** The selection holds no content that [deleteContents] would remove. *)
Definition harmless (sel : Selection) : Prop :=
  match sel with
  | Inside r => rangeStart r = rangeEnd r
  | _ => True
  end.

(** A text node of white space only. *)
Definition white (it : Item) : bool :=
  match it with
  | IText data => trimIsEmpty data
  | IToken _ => false
  end.

(** The tokens and the text nodes that are not white space only, in
    document order. *)
Definition solid (nodes : list Node) : list Item :=
  List.filter (fun it => negb (white it)) (items nodes).

(** Whether a removal leaves a tag. *)
Definition keepsTag (p : Node → bool) (t : handle * jsstring) : bool :=
  negb (p (Tag t.1 t.2)).

(** No text node of white space only is left, at any depth. *)
Definition tidy (nodes : list Node) : Prop :=
  Forall (fun it => white it = false) (items nodes).

(** The number of [br] elements in a tree, at any depth. *)
Fixpoint brsOfNode (n : Node) : nat :=
  match n with
  | Br => 1
  | Elem _ children => list_sum (map brsOfNode children)
  | _ => 0
  end.

Definition brs (nodes : list Node) : nat := list_sum (map brsOfNode nodes).

(** The children that are left when [insertResourceTag] or
    [insertNewLine] has emptied the selected range. *)
Definition survivors (s : State) : list Node :=
  match selection s with
  | Inside range => (deleteContents (childNodes s) range).1
  | _ => childNodes s
  end.

(** Every tag in the div carries an id of the list. *)
Definition tagsListed (resources : list Resource) (s : State) : Prop :=
  ∀ t, t ∈ querySelectorAllTags (childNodes s) →
       is_Some (findById resources t.2).

(** The index points, for every id, at the last tag of that id in the
    div: what the parsing loop keeps while it appends. *)
Definition lastIndexed (s : State) : Prop :=
  ∀ pre el i post,
    querySelectorAllTags (childNodes s) = pre ++ (el, i) :: post →
    i ∉ post.*2 →
    resourcesMap s !! i = Some el.

(** The effect of [setAttribute] on a tag. *)
Definition rekeyed (el : handle) (i : jsstring) (t : handle * jsstring)
  : handle * jsstring :=
  if decide (t.1 = el) then (el, i) else t.

(** ** Sample data

    A lower-casing of the Basic Latin letters, to run the component on
    concrete inputs, and short-hands for resources. *)

Definition lowerUnit (c : N) : N :=
  if ((0x41 <=? c) && (c <=? 0x5A))%N then (c + 32)%N else c.

Definition asciiLower (s : jsstring) : jsstring := map lowerUnit s.

Definition codeResource (i path : string) : Resource :=
  mkResource (js i) Code None None (Some (js path)) None None None None.

Definition fileResource (i path : string) : Resource :=
  mkResource (js i) File None None (Some (js path)) None None None None.

Definition enterKey : KeyboardEvent.t :=
  KeyboardEvent.mk (js "Enter") false false false 13.

Definition arrowUpKey : KeyboardEvent.t :=
  KeyboardEvent.mk (js "ArrowUp") false false false 38.

Definition backspaceKey : KeyboardEvent.t :=
  KeyboardEvent.mk (js "Backspace") false false false 8.

(** A div that holds the text [hello]. *)
Definition helloState : State :=
  mkState [Text (js "hello")] ∅ (Inside (caret (InText 0 5))) [] 0 [] [] ∅.

(** The document of Example 1 of the specification. *)
Definition helloWorldState : State :=
  mkState [Text (js "hello "); Tag 0 (js "r1"); Text (js " world")]
          {[ js "r1" := 0 ]} NoRange [fileResource "r1" "a.ts"] 1 [] [] ∅.


(** The token of [r1] stays and a code resource comes new. *)
Definition twoResources : list Resource :=
  [fileResource "r1" "a.ts"; codeResource "r2" "b.ts"].



(** A div with the token of [g1], all of it selected. *)
Definition selectedTokenState : State :=
  mkState [Tag 0 (js "g1")] {[ js "g1" := 0 ]}
          (Inside (mkRange (AtDiv 0) (AtDiv 1)))
          [codeResource "g1" "a.ts"] 1 [] [] ∅.


(** A storage string with the marker of [r1] twice, set on a component
    whose list has [r1]; then the close button of the second tag. *)
Definition twiceMarked : jsstring :=
  DELIM ++ js "r1" ++ DELIM ++ DELIM ++ js "r1" ++ DELIM.

Definition orphanTagState : State :=
  flush (removeResource (js "r1")
           (setContent twiceMarked (setProps [fileResource "r1" "a.ts"] mounted))).


(** The document of Example 2 of the specification, with text on both
    sides of the token: [r1] was a code resource of [a.ts]. *)
Definition rekeyState : State :=
  mkState [Text (js "x"); Tag 0 (js "r1"); Text (js "y")]
          {[ js "r1" := 0 ]} NoRange [codeResource "r1" "a.ts"] 1 [] [] ∅.

(** A token between two words, the caret at the start of the second. *)
Definition betweenWordsState : State :=
  mkState [Text (js "a "); Tag 0 (js "r1"); Text (js " b")]
          {[ js "r1" := 0 ]} (Inside (caret (InText 2 0)))
          [fileResource "r1" "a.ts"] 1 [] [] ∅.

(** A token and the space [insertResourceTag] puts after it, the caret at
    the start of the space. *)
Definition spaceAfterTokenState : State :=
  mkState [Tag 0 (js "r1"); Text (js " ")]
          {[ js "r1" := 0 ]} (Inside (caret (InText 1 0)))
          [fileResource "r1" "a.ts"] 1 [] [] ∅.


(** The token of [r1] inside another element of the div. *)
Definition wrappedTokenState : State :=
  mkState [Elem (js "DIV") [Tag 0 (js "r1")]]
          {[ js "r1" := 0 ]} NoRange [fileResource "r1" "a.ts"] 1 [] [] ∅.

Definition helloWorldStorage : jsstring :=
  js "hello " ++ DELIM ++ js "r1" ++ DELIM ++ js " world".

(** The decimal digits of an integer, for the line numbers. *)
Definition decimal (z : Z) : jsstring := js (pretty z).


(** A div that holds a space only, as after the last letter is deleted. *)
Definition blankState : State :=
  mkState [Text (js " ")] ∅ (Inside (caret (InText 0 1))) [] 0 [] [] ∅.

(** A selection of lines 3 to 4 in [B.ts]. *)
Definition selectionInB : SelectionData.t :=
  SelectionData.mk (Some (js "x = 1")) None (Some (js "typescript"))
    (Some (js "B.ts")) (Some 3%Z) (Some 4%Z).

(** The chat page with the list of [helloWorldState] and with
    [twoResources]. *)
Definition helloWorldPage : ChatPage.t :=
  ChatPage.mk [fileResource "r1" "a.ts"] [] [] false [].

Definition twoResourcesPage : ChatPage.t :=
  ChatPage.mk twoResources [] [] false [].

(** ** Path matching and [updateResources] *)

Section Component.

(** [String.prototype.toLowerCase], the full Unicode mapping, is left
    open: nothing below depends on what it does to a string. *)
Variable toLowerCase : jsstring -> jsstring.

(** [normalizePath] *)
Definition normalizePath (path : jsstring) : jsstring :=
  match path with
  | [] => []
  | _ :: _ =>
      toLowerCase
        (map (fun c => if decide (c = 0x5C%N) then 0x2F%N else c) path)
  end.

(** [findTagByFilePath]: the first tag, in document order, whose id
    resolves in [props.resources] to a code resource with the same
    normalized path; the element comes with its current id. *)
Definition sameFile (resource : Resource) (s : State)
           (tag : handle * jsstring) : bool :=
  match findById (propsResources s) tag.2 with
  | Some existingResource =>
      bool_decide (type existingResource = Code)
      && bool_decide (normalizePath (orEmpty (filePath existingResource))
                      = normalizePath (orEmpty (filePath resource)))
  | None => false
  end.

Definition findTagByFilePath (resource : Resource) (s : State)
  : option (handle * jsstring) :=
  if negb (bool_decide (type resource = Code)) || negb (truthy (filePath resource))
  then None
  else List.find (sameFile resource s) (querySelectorAllTags (childNodes s)).

(** The body of [resources.forEach]. *)
Definition updateOne (s : State) (resource : Resource) : State :=
  match resourcesMap s !! id resource with
  | Some existingTag => s
  | None =>
      if bool_decide (type resource = Code) && truthy (filePath resource)
      then
        match findTagByFilePath resource s with
        | Some (sameFileTag, oldResourceId) =>
            if decide (oldResourceId = id resource) then s
            else
              setResourcesMap
                (<[id resource := sameFileTag]>
                   (delete oldResourceId (resourcesMap s)))
                (setAttribute sameFileTag (id resource) s)
        | None => insertResourceTag resource s
        end
      else insertResourceTag resource s
  end.

Definition updateResources (resources : list Resource) (s : State) : State :=
  nextTick SyncValue
    (nextTick (AfterUpdate resources)
       (foldl updateOne (prune resources s) resources)).

(** The watcher of [props.resources]: the props hold the new list when
    the callback runs. *)
Definition reconcile (resources : list Resource) (s : State) : State :=
  flush (updateResources resources (setProps resources s)).


(** The operations on a mounted component. *)
Inductive Op :=
| OpInsert (resource : Resource)
| OpRemove (resourceId : jsstring)
| OpUpdate (resources : list Resource)
| OpSetContent (content : jsstring)
| OpKey (e : KeyboardEvent.t)
| OpTick.

Definition step (op : Op) (s : State) : State :=
  match op with
  | OpInsert resource => insertResourceTag resource s
  | OpRemove resourceId => removeResource resourceId s
  | OpUpdate resources => updateResources resources (setProps resources s)
  | OpSetContent content => setContent content s
  | OpKey e => (handleKeydown e s).1
  | OpTick => flush s
  end.

(** The mount hook: [props.modelValue] is set first, then the watcher
    body runs on [props.resources]. *)
Definition onMounted (modelValue : jsstring) (s : State) : State :=
  updateResources (propsResources s)
    (if truthy (Some modelValue) then setContent modelValue s else s).

(** [Number.prototype.toString], as the template literals apply it to
    the line numbers, is left open as well. *)
Variable numberToString : Z → jsstring.

(** [getResourceLabel] *)
Definition getResourceLabel (resource : Resource) : jsstring :=
  match type resource with
  | Code =>
      let fileName :=
        fileNameOf (orElse (orEmpty (filePath resource)) (js "code")) in
      match startLine resource, endLine resource with
      | Some a, Some b =>
          fileName ++ js "(" ++ numberToString a ++ js "-"
                   ++ numberToString b ++ js ")"
      | Some a, None => fileName ++ js "(" ++ numberToString a ++ js ")"
      | None, _ => fileName
      end
  | File =>
      fileNameOf
        (orElse (orElse (orEmpty (filePath resource)) (orEmpty (name resource)))
                (js "file"))
  | Image => orElse (orEmpty (name resource)) (js "image")
  | Folder =>
      orElse (orElse (orEmpty (name resource)) (id resource)) (js "resource")
  end.

(** [getResourceDisplayText] *)
Definition getResourceDisplayText (resource : Resource) : jsstring :=
  match type resource with
  | Code =>
      let path := orEmpty (filePath resource) in
      match startLine resource, endLine resource with
      | Some a, Some b =>
          CODE_REF ++ path ++ js "(" ++ numberToString a ++ js "-"
                   ++ numberToString b ++ js "),"
      | Some a, None =>
          CODE_REF ++ path ++ js "(" ++ numberToString a ++ js "),"
      | None, _ => CODE_REF ++ path ++ js ","
      end
  | File =>
      FILE_REF
        ++ orElse (orElse (orEmpty (filePath resource)) (orEmpty (name resource))) []
        ++ js ","
  | Image => IMAGE_REF ++ js ","
  | Folder =>
      FOLDER_REF
        ++ orElse (orElse (orEmpty (filePath resource)) (orEmpty (name resource))) []
        ++ js ","
  end.

(** The contribution of one child to [extractTextFromNode(node, true)]. *)
Fixpoint extractChildDisplay (resources : list Resource) (child : Node)
  : jsstring :=
  match child with
  | Text data => data
  | Tag _ resourceId =>
      match resourceId with
      | [] => []
      | _ :: _ =>
          match findById resources resourceId with
          | Some resource => getResourceDisplayText resource
          | None => RESOURCE_REF ++ resourceId
          end
      end
  | Br => []
  | Elem _ children => concat (map (extractChildDisplay resources) children)
  end.

(** [getDisplayContent()] *)
Definition getDisplayContent (s : State) : jsstring :=
  concat (map (extractChildDisplay (propsResources s)) (childNodes s)).

(** [getLanguageIcon] *)
Definition getLanguageIcon (languageId : option jsstring) : IconValue :=
  if negb (truthy languageId) then IconClass (js "vs-icon-file")
  else
    let lang := toLowerCase (orEmpty languageId) in
    match lookupOwn lang with
    | Some icon => IconClass icon
    | None =>
        if bool_decide (lang ∈ objectPrototypeKeys) then Inherited lang
        else
          match List.find (fun p : jsstring * jsstring => includes p.1 lang)
                          languageIconMap with
          | Some p => IconClass p.2
          | None => IconClass (js "vs-icon-file")
          end
    end.

(** [handleSelectionChange] of the chat page; [resourceId] is the id the
    page makes from the clock and a random number.  The test of
    [findIndex]: *)
Definition sameSelectedFile (path : jsstring) (r : Resource) : bool :=
  bool_decide (type r = Code)
  && bool_decide (normalizePath (orEmpty (filePath r)) = normalizePath path)
  && negb (bool_decide (path = [])).

Definition handleSelectionChange (data : SelectionData.t)
           (resourceId : jsstring) (h : ChatPage.t) : ChatPage.t :=
  if truthy (SelectionData.selectCode data) then
    let lang :=
      orElse (orElse (orEmpty (SelectionData.languageId data))
                     (orEmpty (SelectionData.language data))) [] in
    let path := orEmpty (SelectionData.filePath data) in
    let resources' :=
      match list_find (fun r => sameSelectedFile path r = true)
                      (ChatPage.resources h) with
      | Some (existingIndex, _) =>
          alter (fun existingResource =>
                   mkResource (id existingResource) (type existingResource)
                     (Some lang) (Some lang) (filePath existingResource)
                     (SelectionData.selectCode data)
                     (SelectionData.startLine data)
                     (SelectionData.endLine data)
                     (name existingResource))
                existingIndex (ChatPage.resources h)
      | None =>
          ChatPage.resources h
          ++ [mkResource resourceId Code (Some lang) (Some lang) (Some path)
                (SelectionData.selectCode data)
                (SelectionData.startLine data)
                (SelectionData.endLine data) None]
      end in
    ChatPage.mk resources' (orEmpty (SelectionData.selectCode data)) lang
      true (ChatPage.posted h)
  else
    ChatPage.mk
      (List.filter (fun r => negb (bool_decide (type r = Code)))
                   (ChatPage.resources h))
      [] [] false (ChatPage.posted h).

(** * Properties *)

(** Projections of updated states. *)
Ltac simpl_state :=
  cbn [childNodes resourcesMap selection propsResources nextEl emitted ticks
       wrapped setChildNodes setResourcesMap setSelection setProps setNextEl
       setWrapped emit nextTick setTextContent detach resetSelection] in *.

(** ** Induction on nodes *)

Lemma Node_ind (P : Node → Prop) :
  (∀ data, P (Text data)) →
  (∀ el resourceId, P (Tag el resourceId)) →
  P Br →
  (∀ tagName children, Forall P children → P (Elem tagName children)) →
  ∀ n, P n.
Proof.
  intros HText HTag HBr HElem. fix IH 1.
  intros [data|el resourceId| |tagName children].
  - apply HText.
  - apply HTag.
  - apply HBr.
  - apply HElem. induction children as [|c children IHc]; constructor.
    + apply IH.
    + apply IHc.
Qed.

(** ** Strings and the marker pattern *)


Lemma startsWith_true (p s : jsstring) :
  startsWith p s = true → s = p ++ drop (length p) s.
Proof.
  revert s. induction p as [|a p IH]; intros [|b s] H; simpl in *;
    try reflexivity; try discriminate.
  destruct (decide (a = b)) as [->|]; [|discriminate].
  f_equal. apply IH. exact H.
Qed.

Lemma lazyGroup_sound (s cap rest : jsstring) :
  lazyGroup s = Some (cap, rest) → s = cap ++ DELIM ++ rest.
Proof.
  revert cap rest. induction s as [|c s IH]; intros cap rest H.
  - simpl in H. discriminate.
  - cbn [lazyGroup] in H.
    destruct (startsWith DELIM (c :: s)) eqn:Hs.
    + injection H as <- <-. apply (startsWith_true DELIM) in Hs. exact Hs.
    + destruct (isLineTerminator c); [discriminate|].
      destruct (lazyGroup s) as [[cap' rest']|] eqn:Hl; [|discriminate].
      injection H as <- <-. simpl. f_equal. apply IH. reflexivity.
Qed.

Lemma matchHere_sound (s cap rest : jsstring) :
  matchHere s = Some (cap, rest) → s = DELIM ++ cap ++ DELIM ++ rest.
Proof.
  unfold matchHere. destruct (startsWith DELIM s) eqn:Hs; [|discriminate].
  intros H. apply lazyGroup_sound in H. apply (startsWith_true DELIM) in Hs.
  rewrite Hs at 1. f_equal. exact H.
Qed.

Lemma exec_sound (s before cap rest : jsstring) :
  exec s = Some (before, cap, rest) →
  s = before ++ DELIM ++ cap ++ DELIM ++ rest.
Proof.
  revert before cap rest. induction s as [|c s IH]; intros before cap rest H.
  - vm_compute in H. discriminate.
  - cbn [exec] in H.
    destruct (matchHere (c :: s)) as [[cap' rest']|] eqn:Hm.
    + injection H as <- <- <-. apply matchHere_sound in Hm. exact Hm.
    + destruct (exec s) as [[[before' cap'] rest']|] eqn:He; [|discriminate].
      injection H as <- <- <-. simpl. f_equal. apply IH. reflexivity.
Qed.

Lemma exec_shorter (s before cap rest : jsstring) :
  exec s = Some (before, cap, rest) → length rest < length s.
Proof.
  intros H. apply exec_sound in H. subst s.
  rewrite !length_app. simpl. lia.
Qed.

Lemma findById_Some (resources : list Resource) (i : jsstring) (r : Resource) :
  findById resources i = Some r → id r = i ∧ r ∈ resources.
Proof.
  unfold findById. intros H. apply find_some in H as [Hin Hid].
  apply bool_decide_eq_true_1 in Hid. split; [exact Hid|].
  apply list_elem_of_In. exact Hin.
Qed.

(** ** Parsing keeps the storage string *)

Lemma literal_app (a b : list Node) : literal (a ++ b) = literal a ++ literal b.
Proof. unfold literal. rewrite map_app, concat_app. reflexivity. Qed.

Lemma tokenIds_app (a b : list Node) : tokenIds (a ++ b) = tokenIds a ++ tokenIds b.
Proof.
  unfold tokenIds, querySelectorAllTags.
  rewrite map_app, concat_app, fmap_app. reflexivity.
Qed.

Lemma literal_text (data : jsstring) : literal [Text data] = data.
Proof. unfold literal. simpl. apply app_nil_r. Qed.

Lemma literal_tag (el : handle) (i : jsstring) :
  literal [Tag el i] = DELIM ++ i ++ DELIM.
Proof. unfold literal. simpl map. simpl concat. rewrite app_nil_r. reflexivity. Qed.

Lemma tokenIds_text (data : jsstring) : tokenIds [Text data] = [].
Proof. reflexivity. Qed.

Lemma tokenIds_tag (el : handle) (i : jsstring) : tokenIds [Tag el i] = [i].
Proof. reflexivity. Qed.

Lemma parseLoop_props (fuel : nat) (rest : jsstring) (s : State) :
  propsResources (parseLoop fuel rest s) = propsResources s.
Proof.
  revert rest s. induction fuel as [|fuel IH]; intros rest s; [reflexivity|].
  cbn [parseLoop]. destruct (exec rest) as [[[before cap] rest']|].
  - rewrite IH. destruct before, (findById _ cap); reflexivity.
  - destruct rest; reflexivity.
Qed.

Lemma parseLoop_literal (fuel : nat) (rest : jsstring) (s : State) :
  length rest < fuel →
  literal (childNodes (parseLoop fuel rest s)) = literal (childNodes s) ++ rest.
Proof.
  revert rest s. induction fuel as [|fuel IH]; intros rest s Hfuel; [lia|].
  cbn [parseLoop]. destruct (exec rest) as [[[before cap] rest']|] eqn:He.
  - pose proof (exec_shorter _ _ _ _ He) as Hlen.
    pose proof (exec_sound _ _ _ _ He) as Hrest.
    rewrite IH by lia. clear He. subst rest.
    destruct before as [|b before];
      (destruct (findById _ cap) as [r|] eqn:Hf;
       [apply findById_Some in Hf as [Hid _]|]);
      simpl_state;
      rewrite ?literal_app, ?literal_text, ?literal_tag, ?Hid, <- ?app_assoc;
      reflexivity.
  - destruct rest as [|c rest]; simpl_state.
    + rewrite app_nil_r. reflexivity.
    + rewrite literal_app, literal_text. reflexivity.
Qed.

Lemma parseLoop_known (fuel : nat) (rest : jsstring) (s : State) :
  Forall (known s) (tokenIds (childNodes s)) →
  Forall (known s) (tokenIds (childNodes (parseLoop fuel rest s))).
Proof.
  assert (Hgen : ∀ fuel rest s0 s1, propsResources s1 = propsResources s0 →
            Forall (known s0) (tokenIds (childNodes s1)) →
            Forall (known s0) (tokenIds (childNodes (parseLoop fuel rest s1)))).
  { clear. intros fuel. induction fuel as [|fuel IH]; intros rest s0 s1 Hp H1;
      [exact H1|].
    cbn [parseLoop]. destruct (exec rest) as [[[before cap] rest']|] eqn:He.
    - set (s2 := match before with
                 | [] => s1
                 | _ :: _ => setChildNodes (childNodes s1 ++ [Text before]) s1
                 end).
      assert (Hp2 : propsResources s2 = propsResources s0)
        by (subst s2; destruct before; simpl_state; exact Hp).
      assert (H2 : Forall (known s0) (tokenIds (childNodes s2))).
      { subst s2. destruct before; simpl_state; [exact H1|].
        rewrite tokenIds_app, tokenIds_text, app_nil_r. exact H1. }
      clearbody s2. destruct (findById (propsResources s2) cap) as [r|] eqn:Hf.
      + apply IH; [exact Hp2|]. simpl_state.
        rewrite tokenIds_app, tokenIds_tag. apply Forall_app. split; [exact H2|].
        constructor; [|constructor]. unfold known. rewrite <- Hp2.
        pose proof (findById_Some _ _ _ Hf) as [Hid _]. rewrite Hid, Hf. eauto.
      + apply IH; [exact Hp2|]. simpl_state.
        rewrite tokenIds_app, tokenIds_text, app_nil_r. exact H2.
    - destruct rest as [|c rest]; [exact H1|]. simpl_state.
      rewrite tokenIds_app, tokenIds_text, app_nil_r. exact H1. }
  intros H. apply Hgen; [reflexivity|exact H].
Qed.

Lemma setContent_literal (content : jsstring) (s : State) :
  literal (childNodes (setContent content s)) = content.
Proof.
  unfold setContent. destruct (includes DELIM content).
  - unfold parseContentWithResources. simpl_state.
    rewrite parseLoop_literal by lia. reflexivity.
  - destruct content; simpl_state; [reflexivity|apply literal_text].
Qed.

Lemma setContent_known (content : jsstring) (s : State) :
  Forall (known s) (tokenIds (childNodes (setContent content s))).
Proof.
  unfold setContent. destruct (includes DELIM content).
  - unfold parseContentWithResources. simpl_state.
    apply (parseLoop_known _ _ (setTextContent [] s)). constructor.
  - destruct content; simpl_state; constructor.
Qed.


(** ** The round trip through the storage string *)

Lemma includes_cons_false (p : jsstring) (c : N) (s : jsstring) :
  includes p (c :: s) = false →
  startsWith p (c :: s) = false ∧ includes p s = false.
Proof. cbn [includes]. intros H. apply orb_false_iff in H. exact H. Qed.

Lemma includes_startsWith_false (p s : jsstring) :
  includes p s = false → startsWith p s = false.
Proof.
  destruct s; cbn [includes]; intros H; apply orb_false_iff in H as [H _];
    exact H.
Qed.






Lemma exec_none (t : jsstring) : includes DELIM t = false → exec t = None.
Proof.
  induction t as [|c t IH]; intros Hinc.
  - reflexivity.
  - cbn [exec]. unfold matchHere at 1.
    rewrite (includes_startsWith_false _ _ Hinc).
    apply includes_cons_false in Hinc as [_ Hinc]. rewrite IH by assumption.
    reflexivity.
Qed.

Lemma flatten_items {A} (f : Node → list A) (g : Item → list A)
      (children : list Node) :
  Forall (fun c => f c = concat (map g (itemsOfNode c))) children →
  concat (map f children) = concat (map g (concat (map itemsOfNode children))).
Proof.
  induction 1 as [|c children Hc _ IH]; [reflexivity|].
  cbn [map concat]. rewrite map_app, concat_app, Hc, IH. reflexivity.
Qed.



Lemma textOfNode_items (n : Node) :
  textOfNode n = concat (map textOfItem (itemsOfNode n)).
Proof.
  induction n as [data|el i| |tagName children IH] using Node_ind.
  - cbn. rewrite app_nil_r. reflexivity.
  - reflexivity.
  - reflexivity.
  - cbn [textOfNode itemsOfNode]. apply flatten_items. exact IH.
Qed.

Lemma textOf_items (nodes : list Node) :
  textOf nodes = concat (map textOfItem (items nodes)).
Proof.
  apply flatten_items. apply Forall_forall. intros n _. apply textOfNode_items.
Qed.

Lemma tokenIds_concat (nodes : list Node) :
  tokenIds nodes = concat (map (fun n => (tagsOfNode n).*2) nodes).
Proof.
  unfold tokenIds, querySelectorAllTags.
  induction nodes as [|n nodes IH]; [reflexivity|].
  cbn [map concat]. rewrite fmap_app, IH. reflexivity.
Qed.

Lemma tokensOfNode_items (n : Node) :
  (tagsOfNode n).*2 = concat (map tokenOfItem (itemsOfNode n)).
Proof.
  induction n as [data|el i| |tagName children IH] using Node_ind.
  - reflexivity.
  - reflexivity.
  - reflexivity.
  - cbn [tagsOfNode itemsOfNode].
    rewrite <- (flatten_items (fun n => (tagsOfNode n).*2)) by exact IH.
    exact (tokenIds_concat children).
Qed.

Lemma tokenIds_items (nodes : list Node) :
  tokenIds nodes = concat (map tokenOfItem (items nodes)).
Proof.
  rewrite tokenIds_concat. apply flatten_items.
  apply Forall_forall. intros n _. apply tokensOfNode_items.
Qed.










(** ** Keyboard *)

(** C5. Enter without Ctrl or Cmd, outside a composition, emits the
    [enter] event, asks for no default handling and changes nothing
    else: the children of the div, the index, the selection and the
    queue of deferred callbacks are the ones before the key. *)
Theorem enter_emits_and_keeps_document (e : KeyboardEvent.t) (s : State) :
  KeyboardEvent.code e = js "Enter" →
  KeyboardEvent.isComposing e = false →
  KeyboardEvent.ctrlKey e = false →
  KeyboardEvent.metaKey e = false →
  let '(s', prevented) := handleKeydown e s in
  emitted s' = emitted s ++ [EnterEvent]
  ∧ prevented = true
  ∧ childNodes s' = childNodes s
  ∧ getContent s' = getContent s
  ∧ resourcesMap s' = resourcesMap s
  ∧ selection s' = selection s
  ∧ ticks s' = ticks s.
Proof.
  intros Hcode Hcomp Hctrl Hmeta. unfold handleKeydown.
  rewrite Hcode, Hcomp, Hctrl, Hmeta.
  rewrite bool_decide_eq_true_2 by reflexivity. cbn.
  repeat split; reflexivity.
Qed.

(** C8, as the code has it. A key with [keyCode] 38 that is not taken
    by the Enter branch emits [arrow-up] whatever the content is; the
    handler does not look at the document. *)
Theorem arrow_up_always_emits (e : KeyboardEvent.t) (s : State) :
  KeyboardEvent.keyCode e = 38 →
  ¬ (KeyboardEvent.code e = js "Enter" ∧ KeyboardEvent.isComposing e = false) →
  handleKeydown e s = (emit ArrowUpEvent s, false).
Proof.
  intros Hkey Hnot. unfold handleKeydown.
  destruct (bool_decide (KeyboardEvent.code e = js "Enter")
            && negb (KeyboardEvent.isComposing e)) eqn:Henter.
  - apply andb_true_iff in Henter as [Hc Hi].
    apply bool_decide_eq_true_1 in Hc. apply negb_true_iff in Hi.
    exfalso. apply Hnot. split; assumption.
  - rewrite Hkey. rewrite bool_decide_eq_true_2 by reflexivity. reflexivity.
Qed.

(** ** Tags, items and the removal of nodes *)

Lemma tags_app (a b : list Node) :
  querySelectorAllTags (a ++ b)
  = querySelectorAllTags a ++ querySelectorAllTags b.
Proof. unfold querySelectorAllTags. rewrite map_app, concat_app. reflexivity. Qed.

Lemma tags_cons (n : Node) (l : list Node) :
  querySelectorAllTags (n :: l) = tagsOfNode n ++ querySelectorAllTags l.
Proof. reflexivity. Qed.

Lemma items_app (a b : list Node) : items (a ++ b) = items a ++ items b.
Proof. unfold items. rewrite map_app, concat_app. reflexivity. Qed.

Lemma items_cons (n : Node) (l : list Node) :
  items (n :: l) = itemsOfNode n ++ items l.
Proof. reflexivity. Qed.

Lemma concat_map_concat {A B C} (F : B → list C) (g : A → list B) (l : list A) :
  concat (map F (concat (map g l)))
  = concat (map (fun a => concat (map F (g a))) l).
Proof.
  induction l as [|a l IH]; [reflexivity|].
  cbn [map concat]. rewrite map_app, concat_app, IH. reflexivity.
Qed.

Lemma concat_map_ext_Forall {A B} (f g : A → list B) (l : list A) :
  Forall (fun a => f a = g a) l → concat (map f l) = concat (map g l).
Proof.
  induction 1 as [|a l Ha _ IH]; [reflexivity|].
  cbn [map concat]. rewrite Ha, IH. reflexivity.
Qed.

Lemma filter_concat {A} (f : A → bool) (l : list (list A)) :
  List.filter f (concat l) = concat (map (List.filter f) l).
Proof.
  induction l as [|a l IH]; [reflexivity|].
  cbn [map concat]. rewrite List.filter_app, IH. reflexivity.
Qed.

Lemma tags_removeNodes (p : Node → bool) (nodes : list Node) :
  (∀ tagName children,
      p (Elem tagName children) = true → querySelectorAllTags children = []) →
  querySelectorAllTags (removeNodes p nodes)
  = List.filter (keepsTag p) (querySelectorAllTags nodes).
Proof.
  intros Hp.
  assert (Hnode : ∀ n,
            querySelectorAllTags (if p n then [] else [removeIn p n])
            = List.filter (keepsTag p) (tagsOfNode n)).
  { intros n. induction n as [data|el i| |tagName children IH] using Node_ind.
    - destruct (p (Text data)); reflexivity.
    - unfold keepsTag. cbn. destruct (p (Tag el i)); reflexivity.
    - destruct (p Br); reflexivity.
    - destruct (p (Elem tagName children)) eqn:Hmark.
      + cbn [tagsOfNode]. change (concat (map tagsOfNode children))
          with (querySelectorAllTags children). rewrite (Hp _ _ Hmark). reflexivity.
      + cbn [removeIn]. unfold querySelectorAllTags at 1. cbn [map concat tagsOfNode].
        rewrite app_nil_r, concat_map_concat, filter_concat, map_map.
        apply concat_map_ext_Forall. exact IH. }
  unfold removeNodes, querySelectorAllTags at 1.
  rewrite concat_map_concat. unfold querySelectorAllTags at 1.
  rewrite filter_concat, map_map. apply concat_map_ext_Forall.
  apply Forall_forall. intros n _. apply Hnode.
Qed.

Lemma filter_all {A} (f : A → bool) (l : list A) :
  (∀ a, f a = true) → List.filter f l = l.
Proof.
  intros Hf. induction l as [|a l IH]; [reflexivity|].
  cbn [List.filter]. rewrite Hf, IH. reflexivity.
Qed.

Lemma filter_twice {A} (f : A → bool) (l : list A) :
  List.filter f (List.filter f l) = List.filter f l.
Proof.
  induction l as [|a l IH]; [reflexivity|].
  cbn [List.filter]. destruct (f a) eqn:Ha; [|exact IH].
  cbn [List.filter]. rewrite Ha, IH. reflexivity.
Qed.

Lemma trimIsEmpty_app (a b : jsstring) :
  trimIsEmpty (a ++ b) = trimIsEmpty a && trimIsEmpty b.
Proof. apply forallb_app. Qed.

Lemma solid_app (a b : list Node) : solid (a ++ b) = solid a ++ solid b.
Proof. unfold solid. rewrite items_app, List.filter_app. reflexivity. Qed.

Lemma textNodes_no_tags (children : list Node) :
  forallb isTextNode children = true → querySelectorAllTags children = [].
Proof.
  induction children as [|c children IH]; [reflexivity|].
  cbn [forallb]. intros H. apply andb_true_iff in H as [Hc H].
  destruct c; try discriminate. rewrite tags_cons, IH by exact H. reflexivity.
Qed.

Lemma textNodes_no_solid (children : list Node) :
  forallb isTextNode children = true →
  trimIsEmpty (textOf children) = true →
  solid children = [].
Proof.
  induction children as [|c children IH]; [reflexivity|].
  cbn [forallb]. intros H Ht. apply andb_true_iff in H as [Hc H].
  destruct c as [data| | |]; try discriminate.
  change (textOf (Text data :: children)) with (data ++ textOf children) in Ht.
  rewrite trimIsEmpty_app in Ht. apply andb_true_iff in Ht as [Hd Ht].
  change (Text data :: children) with ([Text data] ++ children).
  rewrite solid_app, IH by assumption. unfold solid, items.
  cbn [map concat itemsOfNode app List.filter white]. rewrite Hd. reflexivity.
Qed.

Lemma tags_cleanup (nodes : list Node) :
  querySelectorAllTags (removeNodes emptyNode nodes) = querySelectorAllTags nodes.
Proof.
  rewrite tags_removeNodes.
  - apply filter_all. intros t. reflexivity.
  - intros tagName children H. cbn in H. apply andb_true_iff in H as [_ H].
    apply textNodes_no_tags. exact H.
Qed.

(** The clean-up leaves the tokens and the text nodes that are not white
    space only, and nothing else of the text. *)
Lemma items_cleanup (nodes : list Node) :
  items (removeNodes emptyNode nodes) = solid nodes.
Proof.
  assert (Hnode : ∀ n,
            items (if emptyNode n then [] else [removeIn emptyNode n])
            = List.filter (fun it => negb (white it)) (itemsOfNode n)).
  { intros n. induction n as [data|el i| |tagName children IH] using Node_ind.
    - cbn [emptyNode]. destruct (trimIsEmpty data) eqn:Hd; unfold items;
        cbn [map concat itemsOfNode removeIn app List.filter white]; rewrite Hd;
        reflexivity.
    - reflexivity.
    - reflexivity.
    - destruct (emptyNode (Elem tagName children)) eqn:Hmark.
      + cbn [emptyNode] in Hmark. apply andb_true_iff in Hmark as [Ht Hc].
        symmetry. exact (textNodes_no_solid children Hc Ht).
      + cbn [removeIn]. unfold items at 1. cbn [map concat itemsOfNode].
        rewrite app_nil_r, concat_map_concat, filter_concat, map_map.
        apply concat_map_ext_Forall. exact IH. }
  unfold removeNodes, solid, items.
  rewrite concat_map_concat, filter_concat, map_map. apply concat_map_ext_Forall.
  apply Forall_forall. intros n _. apply Hnode.
Qed.

Lemma solid_cleanup (nodes : list Node) :
  solid (removeNodes emptyNode nodes) = solid nodes.
Proof.
  unfold solid at 1. rewrite items_cleanup. unfold solid. apply filter_twice.
Qed.

(** A blank div holds no token and no text but white space. *)
Lemma blank_solid (s : State) : blank s = true → solid (childNodes s) = [].
Proof.
  unfold blank. intros H. apply andb_true_iff in H as [Ht Htags].
  apply bool_decide_eq_true_1 in Htags.
  assert (Hgen : ∀ nodes, trimIsEmpty (textOf nodes) = true →
            querySelectorAllTags nodes = [] → solid nodes = []).
  { clear. intros nodes. induction nodes as [|n nodes IHn]; [reflexivity|].
    change (textOf (n :: nodes)) with (textOfNode n ++ textOf nodes).
    rewrite tags_cons, trimIsEmpty_app. intros Ht Htags.
    apply andb_true_iff in Ht as [Hn Ht]. apply app_eq_nil in Htags as [Hgn Htags].
    change (n :: nodes) with ([n] ++ nodes). rewrite solid_app, IHn by assumption.
    rewrite app_nil_r. clear IHn Ht Htags.
    induction n as [data|el i| |tagName children IH] using Node_ind.
    - unfold solid, items. cbn [textOfNode] in Hn.
      cbn [map concat itemsOfNode app List.filter white]. rewrite Hn. reflexivity.
    - discriminate.
    - reflexivity.
    - unfold solid, items in *. cbn [map concat itemsOfNode tagsOfNode textOfNode] in *.
      rewrite app_nil_r.
      induction IH as [|c children Hc _ IHc]; [reflexivity|].
      cbn [map concat] in *. rewrite trimIsEmpty_app in Hn.
      apply andb_true_iff in Hn as [Hn1 Hn2]. apply app_eq_nil in Hgn as [Hg1 Hg2].
      rewrite List.filter_app, IHc by assumption.
      specialize (Hc Hn1 Hg1). rewrite app_nil_r in Hc. rewrite Hc. reflexivity. }
  apply Hgen; assumption.
Qed.

(** *** [ensureInputArea] *)

Lemma trailing_droppable (reversed : list Node) :
  Forall (fun n => tagsOfNode n = []
                   ∧ List.filter (fun it => negb (white it)) (itemsOfNode n) = [])
         (take (trailingToRemove reversed) reversed).
Proof.
  induction reversed as [|n previous IH]; [constructor|].
  destruct n as [data|el i| |tagName children]; cbn [trailingToRemove];
    try constructor.
  - destruct (trimIsEmpty data) eqn:Hd; [|constructor].
    cbn [take]. constructor; [|exact IH].
    cbn [tagsOfNode itemsOfNode List.filter white]. rewrite Hd. done.
  - destruct (match previous with p :: _ => isBR p | [] => false end);
      [|constructor].
    cbn [take]. constructor; [done|exact IH].
Qed.

Lemma trailing_split (nodes : list Node) :
  let n := length nodes - trailingToRemove (rev nodes) in
  querySelectorAllTags (take n nodes) = querySelectorAllTags nodes
  ∧ solid (take n nodes) = solid nodes.
Proof.
  intros n.
  assert (Hdrop : Forall (fun n => tagsOfNode n = []
                   ∧ List.filter (fun it => negb (white it)) (itemsOfNode n) = [])
                  (drop n nodes)).
  { pose proof (trailing_droppable (rev nodes)) as H.
    rewrite firstn_rev in H. apply Forall_forall. intros x Hx.
    rewrite Forall_forall in H. apply H. apply list_elem_of_In, in_rev.
    rewrite rev_involutive. apply list_elem_of_In. exact Hx. }
  rewrite <- (take_drop n nodes) at 2 4. rewrite tags_app, solid_app.
  assert (Hnil : querySelectorAllTags (drop n nodes) = [] ∧ solid (drop n nodes) = []).
  { induction Hdrop as [|x l [Hx1 Hx2] _ [IH1 IH2]]; [done|].
    rewrite tags_cons, Hx1, IH1. change (x :: l) with ([x] ++ l).
    rewrite solid_app, IH2. unfold solid, items. cbn [map concat].
    rewrite !app_nil_r, Hx2. done. }
  destruct Hnil as [-> ->]. rewrite !app_nil_r. done.
Qed.

Lemma ensureInputArea_spec (s : State) :
  querySelectorAllTags (childNodes (ensureInputArea s))
  = querySelectorAllTags (childNodes s)
  ∧ solid (childNodes (ensureInputArea s)) = solid (childNodes s)
  ∧ resourcesMap (ensureInputArea s) = resourcesMap s
  ∧ propsResources (ensureInputArea s) = propsResources s
  ∧ nextEl (ensureInputArea s) = nextEl s
  ∧ emitted (ensureInputArea s) = emitted s
  ∧ ticks (ensureInputArea s) = ticks s.
Proof.
  unfold ensureInputArea.
  destruct (bool_decide (querySelectorAllTags (childNodes s) = [])); [done|].
  destruct (trailing_split (childNodes s)) as [Htags Hsolid]. cbn zeta in *.
  set (n := length (childNodes s) - trailingToRemove (rev (childNodes s))) in *.
  simpl_state.
  assert (Hbr : ∀ l, querySelectorAllTags (l ++ [Br]) = querySelectorAllTags l
                     ∧ solid (l ++ [Br]) = solid l).
  { intros l. rewrite tags_app, solid_app. cbn. rewrite !app_nil_r. done. }
  destruct (last (take n (childNodes s))) as [[data|el i| |tagName children]|];
    try destruct (trimIsEmpty data); simpl_state;
    rewrite ?(proj1 (Hbr _)), ?(proj2 (Hbr _)); done.
Qed.

(** *** The deferred callbacks *)

Lemma runTask_spec (s : State) (t : Task) :
  querySelectorAllTags (childNodes (runTask s t))
  = querySelectorAllTags (childNodes s)
  ∧ solid (childNodes (runTask s t)) = solid (childNodes s)
  ∧ resourcesMap (runTask s t) = resourcesMap s
  ∧ propsResources (runTask s t) = propsResources s
  ∧ nextEl (runTask s t) = nextEl s
  ∧ ticks (runTask s t) = ticks s.
Proof.
  assert (Hblank : blank s = true →
            querySelectorAllTags (childNodes s) = [] ∧ solid (childNodes s) = []).
  { intros Hb. split; [|apply blank_solid; exact Hb].
    unfold blank in Hb. apply andb_true_iff in Hb as [_ Hb].
    apply bool_decide_eq_true_1 in Hb. exact Hb. }
  destruct t as [|resources| |]; cbn [runTask].
  - pose proof (ensureInputArea_spec s). tauto.
  - destruct (blank s) eqn:Hb.
    + destruct (Hblank eq_refl) as [-> ->]. simpl_state. done.
    + pose proof (ensureInputArea_spec (cleanupEmptyNodes s)) as H.
      unfold cleanupEmptyNodes in *. simpl_state.
      rewrite tags_cleanup, solid_cleanup in H. tauto.
  - unfold syncValue. simpl_state. done.
  - destruct (blank s) eqn:Hb.
    + destruct (Hblank eq_refl) as [-> ->]. simpl_state. done.
    + unfold cleanupEmptyNodes. simpl_state.
      rewrite tags_cleanup, solid_cleanup. done.
Qed.

Lemma foldl_runTask_spec (tasks : list Task) (s : State) :
  querySelectorAllTags (childNodes (foldl runTask s tasks))
  = querySelectorAllTags (childNodes s)
  ∧ solid (childNodes (foldl runTask s tasks)) = solid (childNodes s)
  ∧ resourcesMap (foldl runTask s tasks) = resourcesMap s
  ∧ propsResources (foldl runTask s tasks) = propsResources s
  ∧ nextEl (foldl runTask s tasks) = nextEl s
  ∧ ticks (foldl runTask s tasks) = ticks s.
Proof.
  revert s. induction tasks as [|t tasks IH]; intros s; [done|].
  cbn [foldl]. destruct (IH (runTask s t)) as (-> & -> & -> & -> & -> & ->).
  apply runTask_spec.
Qed.

Lemma flush_spec (s : State) :
  querySelectorAllTags (childNodes (flush s))
  = querySelectorAllTags (childNodes s)
  ∧ solid (childNodes (flush s)) = solid (childNodes s)
  ∧ resourcesMap (flush s) = resourcesMap s
  ∧ propsResources (flush s) = propsResources s
  ∧ nextEl (flush s) = nextEl s
  ∧ ticks (flush s) = [].
Proof.
  unfold flush.
  match goal with |- context [foldl runTask ?s0 _] =>
    pose proof (foldl_runTask_spec (ticks s) s0) as H end.
  simpl_state. exact H.
Qed.

Lemma tokenIds_solid (nodes : list Node) :
  tokenIds nodes = concat (map tokenOfItem (solid nodes)).
Proof.
  rewrite tokenIds_items. unfold solid.
  induction (items nodes) as [|[data|i] l IH]; [reflexivity|..];
    cbn [map concat List.filter white negb tokenOfItem].
  - destruct (trimIsEmpty data); exact IH.
  - rewrite IH. reflexivity.
Qed.



Lemma tidy_cleanup (nodes : list Node) : tidy (removeNodes emptyNode nodes).
Proof.
  unfold tidy. rewrite items_cleanup. unfold solid. apply Forall_forall.
  intros it Hit. apply list_elem_of_In, filter_In in Hit as [_ Hit].
  apply negb_true_iff in Hit. exact Hit.
Qed.




(** *** Ranges *)

Lemma elem_of_tags (nodes : list Node) (t : handle * jsstring) :
  t ∈ querySelectorAllTags nodes ↔ ∃ n, n ∈ nodes ∧ t ∈ tagsOfNode n.
Proof.
  induction nodes as [|n nodes IH].
  - split; [intros H; inversion H|intros (n & H & _); inversion H].
  - rewrite tags_cons, elem_of_app, IH. split.
    + intros [H|(n' & Hn' & H)].
      * exists n. split; [left|exact H].
      * exists n'. split; [right; exact Hn'|exact H].
    + intros (n' & Hn' & H). apply elem_of_cons in Hn' as [->|Hn'].
      * left. exact H.
      * right. exists n'. split; assumption.
Qed.

Lemma tags_subset (a b : list Node) :
  (∀ n, n ∈ a → ∃ n', n' ∈ b ∧ tagsOfNode n = tagsOfNode n') →
  ∀ t, t ∈ querySelectorAllTags a → t ∈ querySelectorAllTags b.
Proof.
  intros H t Ht. apply elem_of_tags in Ht as (n & Hn & Ht).
  destruct (H n Hn) as (n' & Hn' & Heq). apply elem_of_tags.
  exists n'. split; [exact Hn'|]. rewrite <- Heq. exact Ht.
Qed.

Lemma elem_of_lookup_piece (f : Node → Node) (nodes : list Node) (i : nat) (n : Node) :
  (∀ x, tagsOfNode (f x) = tagsOfNode x) →
  n ∈ from_option (fun x => [f x]) [] (nodes !! i) →
  ∃ n', n' ∈ nodes ∧ tagsOfNode n = tagsOfNode n'.
Proof.
  intros Hf Hn. destruct (nodes !! i) as [x|] eqn:Hx; cbn in Hn.
  - apply list_elem_of_singleton in Hn as ->. exists x.
    split; [eapply list_elem_of_lookup_2; exact Hx|apply Hf].
  - inversion Hn.
Qed.

Lemma deleteContents_tags (nodes : list Node) (r : Range) (t : handle * jsstring) :
  t ∈ querySelectorAllTags (deleteContents nodes r).1 →
  t ∈ querySelectorAllTags nodes.
Proof.
  apply tags_subset. intros n Hn.
  assert (Htake : ∀ k x, x ∈ take k nodes → ∃ n', n' ∈ nodes ∧ tagsOfNode x = tagsOfNode n').
  { intros k x Hx. exists x. split; [|reflexivity].
    exact (subseteq_take k nodes x Hx). }
  assert (Hdrop : ∀ k x, x ∈ drop k nodes → ∃ n', n' ∈ nodes ∧ tagsOfNode x = tagsOfNode n').
  { intros k x Hx. exists x. split; [|reflexivity].
    exact (subseteq_drop k nodes x Hx). }
  assert (Htail : ∀ a x, tagsOfNode (truncateTail a x) = tagsOfNode x)
    by (intros a []; reflexivity).
  assert (Hhead : ∀ a x, tagsOfNode (truncateHead a x) = tagsOfNode x)
    by (intros a []; reflexivity).
  assert (Hmid : ∀ a b x, tagsOfNode (cutMiddle a b x) = tagsOfNode x)
    by (intros a b []; reflexivity).
  unfold deleteContents in Hn.
  destruct (collapsed r || negb (boundaryLe (rangeStart r) (rangeEnd r))).
  { exists n. split; [exact Hn|reflexivity]. }
  destruct (rangeStart r) as [k|i a], (rangeEnd r) as [m|j b];
    try destruct (decide (i = j)); cbn [fst] in Hn;
    repeat (apply elem_of_app in Hn as [Hn|Hn]);
    eauto using elem_of_lookup_piece.
Qed.

Lemma deleteContents_collapsed (nodes : list Node) (r : Range) :
  rangeStart r = rangeEnd r → deleteContents nodes r = (nodes, rangeStart r).
Proof.
  intros H. unfold deleteContents, collapsed.
  rewrite bool_decide_eq_true_2 by exact H. reflexivity.
Qed.

Lemma survivors_tags (s : State) (t : handle * jsstring) :
  t ∈ querySelectorAllTags (survivors s) →
  t ∈ querySelectorAllTags (childNodes s).
Proof.
  unfold survivors. destruct (selection s); try done. apply deleteContents_tags.
Qed.

Lemma survivors_harmless (s : State) :
  harmless (selection s) → survivors s = childNodes s.
Proof.
  unfold survivors, harmless. destruct (selection s) as [| |r]; try done.
  intros H. rewrite deleteContents_collapsed by exact H. reflexivity.
Qed.

Lemma insertNode_tags (nodes : list Node) (b : Boundary) (n : Node) :
  querySelectorAllTags (insertNode nodes b n).1
  ≡ₚ tagsOfNode n ++ querySelectorAllTags nodes.
Proof.
  assert (Hat : ∀ k, querySelectorAllTags (take k nodes ++ n :: drop k nodes)
                     ≡ₚ tagsOfNode n ++ querySelectorAllTags nodes).
  { intros k. rewrite <- (take_drop k nodes) at 3.
    rewrite !tags_app, tags_cons. apply Permutation_app_swap_app. }
  destruct b as [k|i a]; cbn [insertNode fst]; [apply Hat|].
  destruct (nodes !! i) as [[data| | |]|] eqn:Hi; cbn [fst]; try apply Hat.
  rewrite <- (take_drop_middle nodes i (Text data)) at 3 by exact Hi.
  rewrite !tags_app, !tags_cons. cbn [tagsOfNode app].
  apply Permutation_app_swap_app.
Qed.

Lemma tags_insert_text (k : nat) (data : jsstring) (nodes : list Node) :
  querySelectorAllTags (take k nodes ++ Text data :: drop k nodes)
  = querySelectorAllTags nodes.
Proof.
  rewrite tags_app, tags_cons. cbn [tagsOfNode app].
  rewrite <- tags_app, take_drop. reflexivity.
Qed.

(** *** [insertResourceTag] *)

Lemma insertResourceTag_known (resource : Resource) (s : State) (el : handle) :
  resourcesMap s !! id resource = Some el → insertResourceTag resource s = s.
Proof. intros H. unfold insertResourceTag. rewrite H. reflexivity. Qed.

Lemma insertResourceTag_new (resource : Resource) (s : State) :
  resourcesMap s !! id resource = None →
  let s' := insertResourceTag resource s in
  resourcesMap s' = <[id resource := nextEl s]> (resourcesMap s)
  ∧ propsResources s' = propsResources s
  ∧ nextEl s' = S (nextEl s)
  ∧ ticks s' = ticks s ++ [EnsureArea]
  ∧ harmless (selection s')
  ∧ querySelectorAllTags (childNodes s')
    ≡ₚ (nextEl s, id resource) :: querySelectorAllTags (survivors s).
Proof.
  intros Hnone. unfold insertResourceTag, survivors. rewrite Hnone. cbn zeta.
  destruct (selection s) as [| |range] eqn:Hsel.
  - unfold syncValue. simpl_state. rewrite Hsel. repeat split; try done.
    rewrite tags_app. symmetry. apply Permutation_cons_append.
  - unfold syncValue. simpl_state. rewrite Hsel. repeat split; try done.
    rewrite tags_app. symmetry. apply Permutation_cons_append.
  - destruct (deleteContents (childNodes s) range) as [nodes1 point] eqn:Hdel.
    pose proof (insertNode_tags nodes1 point (Tag (nextEl s) (id resource))) as Hins.
    destruct (insertNode nodes1 point (Tag (nextEl s) (id resource))) as [nodes2 k].
    unfold syncValue. simpl_state. repeat split; try done.
    rewrite tags_insert_text. exact Hins.
Qed.

(** *** [updateResources] *)

Lemma findById_elem (resources : list Resource) (r : Resource) :
  r ∈ resources → is_Some (findById resources (id r)).
Proof.
  intros Hr. unfold findById.
  destruct (List.find _ resources) as [r'|] eqn:Hfind; [eauto|].
  apply list_elem_of_In in Hr. eapply find_none in Hfind; [|exact Hr].
  cbn in Hfind. rewrite bool_decide_eq_true_2 in Hfind by reflexivity.
  discriminate.
Qed.

Lemma lookup_foldl_delete (l : list (handle * jsstring))
      (m : gmap (list N) handle) (i : jsstring) :
  foldl (fun m (t : handle * jsstring) => delete t.2 m) m l !! i
  = if decide (i ∈ l.*2) then None else m !! i.
Proof.
  revert m. induction l as [|[el j] l IH]; intros m.
  - cbn. rewrite decide_False by (intros H; inversion H). reflexivity.
  - cbn [foldl fmap list_fmap snd]. rewrite IH.
    destruct (decide (i ∈ l.*2)) as [Hin|Hnin].
    + rewrite decide_True by (right; exact Hin). reflexivity.
    + destruct (decide (i = j)) as [->|Hne].
      * rewrite decide_True by left. apply lookup_delete_eq.
      * rewrite decide_False by (intros H; apply elem_of_cons in H as [?|?]; done).
        apply lookup_delete_ne. congruence.
Qed.

Lemma notListed_elem (resources : list Resource) (tagName : jsstring)
      (children : list Node) :
  notListed resources (Elem tagName children) = true →
  querySelectorAllTags children = [].
Proof. discriminate. Qed.

Lemma harmless_adjust (flags : list bool) (sel : Selection) :
  harmless sel → harmless (adjustSelection flags sel).
Proof.
  destruct sel as [| |r]; try done. cbn. intros ->. reflexivity.
Qed.

(** *** The selection under a removal *)

Lemma removeNodes_app (p : Node → bool) (a b : list Node) :
  removeNodes p (a ++ b) = removeNodes p a ++ removeNodes p b.
Proof. unfold removeNodes. rewrite map_app, concat_app. reflexivity. Qed.

















Lemma prune_spec (resources : list Resource) (s : State) :
  let s' := prune resources s in
  querySelectorAllTags (childNodes s')
  = List.filter (keepsTag (notListed resources))
                (querySelectorAllTags (childNodes s))
  ∧ (∀ i, resourcesMap s' !! i
          = if decide (i ∈ (List.filter
                              (fun t : handle * jsstring =>
                                 negb (bool_decide (is_Some (findById resources t.2))))
                              (querySelectorAllTags (childNodes s))).*2)
            then None else resourcesMap s !! i)
  ∧ propsResources s' = propsResources s
  ∧ nextEl s' = nextEl s
  ∧ ticks s' = ticks s
  ∧ emitted s' = emitted s
  ∧ (harmless (selection s) → harmless (selection s')).
Proof.
  unfold prune. simpl_state. split; [|split].
  - apply tags_removeNodes. apply notListed_elem.
  - intros i. apply lookup_foldl_delete.
  - repeat split; try done. apply harmless_adjust.
Qed.

Lemma keepsTag_notListed (resources : list Resource) (t : handle * jsstring) :
  keepsTag (notListed resources) t = true ↔ is_Some (findById resources t.2).
Proof.
  unfold keepsTag, notListed. rewrite negb_involutive.
  apply bool_decide_eq_true.
Qed.

Lemma registered_among (resources : list Resource) (s : State) :
  registered s → registeredAmong resources s.
Proof. intros H el i Ht _. apply H. exact Ht. Qed.

Lemma prune_invariants (resources : list Resource) (s : State) :
  registeredAmong resources s →
  let s' := prune resources s in
  registered s' ∧ tagsListed resources s'
  ∧ (noStaleAmong resources s → noStaleAmong resources s')
  ∧ (NoDup (querySelectorAllTags (childNodes s)) →
     NoDup (querySelectorAllTags (childNodes s'))).
Proof.
  intros Hreg s'. destruct (prune_spec resources s) as (Htags & Hmap & _).
  fold s' in Htags, Hmap.
  assert (Hkept : ∀ t, t ∈ querySelectorAllTags (childNodes s') ↔
            t ∈ querySelectorAllTags (childNodes s)
            ∧ is_Some (findById resources t.2)).
  { intros t. rewrite Htags, <- keepsTag_notListed, !list_elem_of_In.
    apply filter_In. }
  assert (Hlisted : ∀ i, is_Some (findById resources i) →
            resourcesMap s' !! i = resourcesMap s !! i).
  { intros i Hi. rewrite Hmap. apply decide_False. intros Hin.
    apply list_elem_of_fmap in Hin as ([el j] & -> & Hin).
    apply list_elem_of_In, filter_In in Hin as [_ Hin]. cbn [snd] in *.
    apply negb_true_iff, bool_decide_eq_false in Hin. done. }
  split; [|split; [|split]].
  - intros el i Ht. apply Hkept in Ht as [Ht Hi]. cbn [snd] in Hi.
    rewrite Hlisted by exact Hi. apply Hreg; assumption.
  - intros t Ht. apply Hkept in Ht as [_ Hi]. exact Hi.
  - intros Hstale i el Hlist Hi. rewrite (Hlisted i Hlist) in Hi.
    apply Hkept. split; [apply Hstale; assumption|exact Hlist].
  - intros Hnd. rewrite Htags.
    apply NoDup_ListNoDup, List.NoDup_filter, NoDup_ListNoDup. exact Hnd.
Qed.










Lemma fold_updateOne_indexed (todo : list Resource) (s : State) :
  (∀ r, r ∈ todo → is_Some (resourcesMap s !! id r)) →
  foldl updateOne s todo = s.
Proof.
  induction todo as [|r todo IH]; intros Hall; [reflexivity|].
  cbn [foldl]. assert (Hr : updateOne s r = s).
  { unfold updateOne. destruct (Hall r) as [el ->]; [left|reflexivity]. }
  rewrite Hr. apply IH. intros r' Hr'. apply Hall. right. exact Hr'.
Qed.




Lemma removeNodes_unmarked (p : Node → bool) (nodes : list Node) :
  (∀ n, isTag n = false → p n = false) →
  (∀ t, t ∈ querySelectorAllTags nodes → keepsTag p t = true) →
  removeNodes p nodes = nodes.
Proof.
  intros Hother.
  assert (Hnode : ∀ n, (∀ t, t ∈ tagsOfNode n → keepsTag p t = true) →
            (if p n then [] else [removeIn p n]) = [n]).
  { intros n. induction n as [data|el i| |tagName children IH] using Node_ind;
      intros Hkeep.
    - rewrite Hother by reflexivity. reflexivity.
    - specialize (Hkeep (el, i) ltac:(left)). unfold keepsTag in Hkeep.
      cbn [fst snd] in Hkeep. apply negb_true_iff in Hkeep. rewrite Hkeep.
      reflexivity.
    - rewrite Hother by reflexivity. reflexivity.
    - rewrite Hother by reflexivity. cbn [removeIn]. do 2 f_equal.
      cbn [tagsOfNode] in Hkeep.
      induction IH as [|c children Hc _ IHc]; [reflexivity|].
      cbn [map concat] in *. rewrite Hc, IHc; [reflexivity|..];
        intros t Ht; apply Hkeep, elem_of_app; [right|left]; exact Ht. }
  intros Hkeep. unfold removeNodes.
  induction nodes as [|n nodes IH]; [reflexivity|].
  cbn [map concat]. rewrite tags_cons in Hkeep.
  rewrite Hnode, IH; [reflexivity|..];
    intros t Ht; apply Hkeep, elem_of_app; [right|left]; exact Ht.
Qed.

Lemma prune_listed (resources : list Resource) (s : State) :
  tagsListed resources s →
  childNodes (prune resources s) = childNodes s
  ∧ resourcesMap (prune resources s) = resourcesMap s.
Proof.
  intros Hlisted. unfold prune. simpl_state. split.
  - apply removeNodes_unmarked.
    + intros [] H; done.
    + intros t Ht. apply keepsTag_notListed, Hlisted. exact Ht.
  - assert (Hnone : ∀ l : list (handle * jsstring),
              (∀ t, t ∈ l → is_Some (findById resources t.2)) →
              List.filter
                (fun t : handle * jsstring =>
                   negb (bool_decide (is_Some (findById resources t.2)))) l = []).
    { clear. intros l. induction l as [|t l IH]; intros Hl; [reflexivity|].
      cbn [List.filter].
      pose proof (Hl t ltac:(left)) as Ht.
      rewrite bool_decide_eq_true_2 by exact Ht. cbn [negb].
      apply IH. intros t' Ht'. apply Hl. right. exact Ht'. }
    rewrite Hnone by exact Hlisted. reflexivity.
Qed.


(** *** [removeResource] *)

Lemma attached_spec (el : handle) (nodes : list Node) :
  attached el nodes = true ↔ ∃ i, (el, i) ∈ querySelectorAllTags nodes.
Proof.
  unfold attached. rewrite bool_decide_eq_true, list_elem_of_fmap. split.
  - intros ([el' i] & -> & H). eauto.
  - intros [i H]. exists (el, i). done.
Qed.

Lemma removeNodes_other_element (el : handle) (nodes : list Node) :
  el ∉ (querySelectorAllTags nodes).*1 →
  removeNodes (isElement el) nodes = nodes.
Proof.
  intros Hnot. apply removeNodes_unmarked.
  - intros [] H; done.
  - intros [el' i] Ht. unfold keepsTag. cbn. apply negb_true_iff.
    apply bool_decide_eq_false. intros ->. apply Hnot.
    apply list_elem_of_fmap. exists (el, i). done.
Qed.

Lemma hasParent_attached (el : handle) (i : jsstring) (s : State) :
  (el, i) ∈ querySelectorAllTags (childNodes s) → hasParent el s = true.
Proof.
  intros H. unfold hasParent.
  rewrite (proj2 (attached_spec el (childNodes s))) by eauto. reflexivity.
Qed.

Lemma removeResource_idle (resourceId : jsstring) (s : State) :
  (∀ el, resourcesMap s !! resourceId = Some el → hasParent el s = false) →
  removeResource resourceId s = s.
Proof.
  intros H. unfold removeResource.
  destruct (resourcesMap s !! resourceId) as [el|]; [|reflexivity].
  rewrite (H el eq_refl). reflexivity.
Qed.

Lemma removeResource_acts (resourceId : jsstring) (s : State) (el : handle) (i : jsstring) :
  resourcesMap s !! resourceId = Some el →
  (el, i) ∈ querySelectorAllTags (childNodes s) →
  let s' := removeResource resourceId s in
  childNodes s' = removeNodes (isElement el) (childNodes s)
  ∧ querySelectorAllTags (childNodes s')
    = List.filter (keepsTag (isElement el)) (querySelectorAllTags (childNodes s))
  ∧ resourcesMap s' = delete resourceId (resourcesMap s)
  ∧ propsResources s' = propsResources s
  ∧ nextEl s' = nextEl s
  ∧ emitted s'
    = emitted s ++ [UpdateModelValue (getContent s'); ResourceRemoved resourceId]
  ∧ ticks s' = ticks s ++ [AfterRemove].
Proof.
  intros Hmap Htag. unfold removeResource. rewrite Hmap.
  rewrite (hasParent_attached el i s Htag).
  unfold syncValue, getContent. simpl_state. rewrite <- app_assoc.
  repeat split; try done. apply tags_removeNodes. discriminate.
Qed.

(** The tag left the div inside an element and is still a child there:
    the entry goes and both events are emitted, the div stays as it is. *)
Lemma removeResource_wrapped (resourceId : jsstring) (s : State) (el : handle) :
  resourcesMap s !! resourceId = Some el →
  attached el (childNodes s) = false →
  el ∈ wrapped s →
  let s' := removeResource resourceId s in
  childNodes s' = childNodes s
  ∧ resourcesMap s' = delete resourceId (resourcesMap s)
  ∧ propsResources s' = propsResources s
  ∧ nextEl s' = nextEl s
  ∧ wrapped s' = wrapped s ∖ {[el]}
  ∧ emitted s'
    = emitted s ++ [UpdateModelValue (getContent s); ResourceRemoved resourceId]
  ∧ ticks s' = ticks s ++ [AfterRemove].
Proof.
  intros Hmap Hatt Hw. unfold removeResource, hasParent. rewrite Hmap, Hatt.
  rewrite bool_decide_eq_true_2 by exact Hw. cbn [orb].
  assert (Hsame : removeNodes (isElement el) (childNodes s) = childNodes s).
  { apply removeNodes_other_element.
    unfold attached in Hatt. apply bool_decide_eq_false in Hatt. exact Hatt. }
  unfold syncValue, getContent. simpl_state. rewrite <- app_assoc, Hsame.
  repeat split; done.
Qed.

(** The element of a tag occurs once in the tree, so its removal takes
    out that child and nothing else. *)
Lemma removeNodes_element (el : handle) (resourceId : jsstring)
      (nodes : list Node) (i : nat) :
  nodes !! i = Some (Tag el resourceId) →
  NoDup (querySelectorAllTags nodes).*1 →
  removeNodes (isElement el) nodes = delete i nodes.
Proof.
  intros Hi Hnd. rewrite delete_take_drop.
  rewrite <- (take_drop_middle nodes i (Tag el resourceId)) in Hnd |- * at 1
    by exact Hi.
  rewrite tags_app, tags_cons, !fmap_app in Hnd. cbn [tagsOfNode fmap list_fmap app fst] in Hnd.
  apply NoDup_app in Hnd as (_ & Hpre & Hnd).
  apply NoDup_cons in Hnd as [Hpost _].
  rewrite removeNodes_app.
  change (Tag el resourceId :: drop (S i) nodes)
    with ([Tag el resourceId] ++ drop (S i) nodes).
  rewrite removeNodes_app.
  rewrite (removeNodes_other_element el (take i nodes))
    by (intros Hin; apply (Hpre el Hin); left).
  rewrite (removeNodes_other_element el (drop (S i) nodes)) by exact Hpost.
  unfold removeNodes. cbn [map concat isElement app].
  rewrite bool_decide_eq_true_2 by reflexivity. reflexivity.
Qed.

Lemma brs_concat (ls : list (list Node)) :
  brs (concat ls) = list_sum (map brs ls).
Proof.
  unfold brs. induction ls as [|l ls IH]; [reflexivity|].
  cbn [concat map]. rewrite map_app, list_sum_app, IH. reflexivity.
Qed.

(** The clean-up leaves no [br], at any depth. *)
Lemma brs_cleanup (nodes : list Node) : brs (removeNodes emptyNode nodes) = 0.
Proof.
  assert (Hzero : ∀ (f : Node → list Node) (l : list Node),
            Forall (fun c => brs (f c) = 0) l → brs (concat (map f l)) = 0).
  { intros f l H. rewrite brs_concat, map_map.
    induction H as [|c l Hc _ IH]; [reflexivity|].
    change (brs (f c) + list_sum (map (fun x => brs (f x)) l) = 0).
    rewrite Hc, IH. reflexivity. }
  assert (Hnode : ∀ n, brs (if emptyNode n then [] else [removeIn emptyNode n]) = 0).
  { intros n. induction n as [data|el i| |tagName children IH] using Node_ind.
    - cbn [emptyNode]. destruct (trimIsEmpty data); reflexivity.
    - reflexivity.
    - reflexivity.
    - destruct (emptyNode (Elem tagName children)); [reflexivity|].
      cbn [removeIn]. unfold brs. cbn [map brsOfNode].
      change (list_sum [?x]) with (x + 0).
      rewrite Nat.add_0_r. apply (Hzero _ _ IH). }
  unfold removeNodes. apply Hzero. apply Forall_forall. intros n _. apply Hnode.
Qed.

(** A div without a token and without a text node that is not white
    space only is blank. *)
Lemma solid_nil_blank (s : State) : solid (childNodes s) = [] → blank s = true.
Proof.
  intros H. unfold blank.
  assert (Hgen : ∀ l : list Item,
            List.filter (fun it => negb (white it)) l = [] →
            trimIsEmpty (concat (map textOfItem l)) = true
            ∧ concat (map tokenOfItem l) = []).
  { clear. induction l as [|[data|i] l IH]; [done|..];
      cbn [List.filter white map concat textOfItem tokenOfItem negb].
    - destruct (trimIsEmpty data) eqn:Hd; cbn [negb]; [|discriminate].
      intros Hl. destruct (IH Hl) as [Ht Hk].
      rewrite trimIsEmpty_app, Hd, Ht. done.
    - discriminate. }
  destruct (Hgen _ H) as [Ht Hk].
  rewrite <- textOf_items in Ht. rewrite <- tokenIds_items in Hk.
  rewrite Ht. cbn [andb]. apply bool_decide_eq_true_2.
  unfold tokenIds in Hk. apply fmap_nil_inv in Hk. exact Hk.
Qed.

(** The callback of [removeResource] runs last in the next tick. *)
Lemma flush_last (s : State) (tasks : list Task) (t : Task) :
  ticks s = tasks ++ [t] →
  ∃ s0, flush s = runTask s0 t
        ∧ solid (childNodes s0) = solid (childNodes s)
        ∧ (tasks = [] → childNodes s0 = childNodes s).
Proof.
  intros Hticks. unfold flush. rewrite Hticks, foldl_app. cbn [foldl].
  match goal with |- context [foldl runTask ?s1 tasks] =>
    exists (foldl runTask s1 tasks);
    pose proof (foldl_runTask_spec tasks s1) as (_ & Hsolid & _) end.
  split; [reflexivity|]. split; [exact Hsolid|]. intros ->. reflexivity.
Qed.

(** C4, as the code has it. Backspace with the caret at offset 0 of the
    text node right of a tag, when the tag has a non-empty id, is indexed
    under it and its element occurs once in the div: the default is
    suppressed, exactly that child is removed at once, the index entry is
    deleted, and the storage string without the token and
    [resource-removed] are emitted.  The deferred clean-up then keeps
    every token and every text node that is not white space only, and it
    removes the rest of the text: the text nodes and tokens of the div
    are then exactly those of the other children that are not white
    space only, no [br] is left at any depth, and the div has no child
    at all when the other children held nothing but white space.  When
    no other callback is pending, the children after the clean-up are
    the other children without the nodes [cleanupEmptyNodes] collects,
    or none when the div is blank. *)
Theorem backspace_removes_token (e : KeyboardEvent.t) (s : State)
        (i : nat) (el : handle) (resourceId : jsstring) :
  KeyboardEvent.code e = js "Backspace" →
  KeyboardEvent.keyCode e ≠ 38 →
  selection s = Inside (caret (InText (S i) 0)) →
  childNodes s !! i = Some (Tag el resourceId) →
  resourceId ≠ [] →
  resourcesMap s !! resourceId = Some el →
  NoDup (querySelectorAllTags (childNodes s)).*1 →
  let '(s', prevented) := handleKeydown e s in
  prevented = true
  ∧ childNodes s' = delete i (childNodes s)
  ∧ resourcesMap s' = delete resourceId (resourcesMap s)
  ∧ emitted s'
    = emitted s ++ [UpdateModelValue (extractTextFromNode (delete i (childNodes s)));
                    ResourceRemoved resourceId]
  ∧ solid (childNodes (flush s')) = solid (delete i (childNodes s))
  ∧ tokenIds (childNodes (flush s')) = tokenIds (delete i (childNodes s))
  ∧ items (childNodes (flush s')) = solid (delete i (childNodes s))
  ∧ brs (childNodes (flush s')) = 0
  ∧ (solid (delete i (childNodes s)) = [] → childNodes (flush s') = [])
  ∧ (ticks s = [] →
     childNodes (flush s')
     = if blank s' then []
       else removeNodes emptyNode (delete i (childNodes s))).
Proof.
  intros Hcode Hkey Hsel Hi Hne Hmap Hnd.
  unfold handleKeydown. rewrite Hcode.
  rewrite (bool_decide_eq_false_2 (js "Backspace" = js "Enter")) by discriminate.
  rewrite (bool_decide_eq_false_2 _ Hkey).
  rewrite bool_decide_eq_true_2 by reflexivity. cbn [andb].
  unfold handleBackspace. rewrite Hsel.
  unfold collapsed. rewrite !bool_decide_eq_true_2 by reflexivity.
  cbn [andb caret rangeStart previousSibling]. rewrite Hi.
  destruct resourceId as [|c resourceId]; [done|].
  assert (Htag : (el, c :: resourceId) ∈ querySelectorAllTags (childNodes s)).
  { apply elem_of_tags. exists (Tag el (c :: resourceId)).
    split; [eapply list_elem_of_lookup_2; exact Hi|left]. }
  destruct (removeResource_acts (c :: resourceId) s el _ Hmap Htag)
    as (Hnodes & _ & Hmap' & _ & _ & Hemit & Hticks). cbn zeta in *.
  rewrite (removeNodes_element el (c :: resourceId) _ i Hi Hnd) in Hnodes.
  destruct (flush_spec (removeResource (c :: resourceId) s))
    as (Htags & Hsolid & _).
  destruct (flush_last _ _ _ Hticks) as (s0 & Hflush & Hsolid0 & Hnodes0).
  assert (Hlast : childNodes (runTask s0 AfterRemove)
                  = if blank s0 then [] else removeNodes emptyNode (childNodes s0)).
  { cbn [runTask]. destruct (blank s0); reflexivity. }
  rewrite Hnodes in Hsolid0.
  split; [reflexivity|]. split; [exact Hnodes|]. split; [exact Hmap'|].
  split; [rewrite Hemit; unfold getContent; rewrite Hnodes; reflexivity|].
  split; [rewrite Hsolid, Hnodes; reflexivity|].
  split; [unfold tokenIds; rewrite Htags, Hnodes; reflexivity|].
  rewrite Hflush, Hlast. split; [|split; [|split]].
  - rewrite <- Hsolid0. destruct (blank s0) eqn:Hb.
    + rewrite (blank_solid s0 Hb). reflexivity.
    + apply items_cleanup.
  - destruct (blank s0); [reflexivity|apply brs_cleanup].
  - intros Hnil. rewrite <- Hsolid0 in Hnil.
    rewrite (solid_nil_blank s0 Hnil). reflexivity.
  - intros Hnone. specialize (Hnodes0 Hnone).
    unfold blank. rewrite Hnodes0, Hnodes. reflexivity.
Qed.

(** ** The index and the tags *)

Lemma core_transfer (s s' : State) :
  querySelectorAllTags (childNodes s') = querySelectorAllTags (childNodes s) →
  resourcesMap s' = resourcesMap s →
  nextEl s' = nextEl s →
  (registered s → registered s')
  ∧ (exclusive s → exclusive s')
  ∧ (freshHandles s → freshHandles s')
  ∧ (lastIndexed s → lastIndexed s').
Proof.
  unfold registered, exclusive, freshHandles, lastIndexed.
  intros -> -> ->. done.
Qed.

Lemma wellFormed_transfer (s s' : State) :
  querySelectorAllTags (childNodes s') = querySelectorAllTags (childNodes s) →
  resourcesMap s' = resourcesMap s →
  nextEl s' = nextEl s →
  wellFormed s → wellFormed s'.
Proof.
  intros Ht Hm Hn (Hreg & Hex & Hfresh).
  destruct (core_transfer s s' Ht Hm Hn) as (H1 & H2 & H3 & _).
  split; [|split]; auto.
Qed.

Lemma wellFormed_sub (s s' : State) :
  (∀ t, t ∈ querySelectorAllTags (childNodes s') →
        t ∈ querySelectorAllTags (childNodes s)) →
  (∀ i el, resourcesMap s' !! i = Some el → resourcesMap s !! i = Some el) →
  nextEl s' = nextEl s →
  registered s' →
  wellFormed s → wellFormed s'.
Proof.
  intros Htags Hmap Hnext Hreg' (Hreg & Hex & Hfresh1 & Hfresh2).
  split; [exact Hreg'|]. split; [|split].
  - intros i el i' Hi Ht. eapply Hex; [apply Hmap; exact Hi|apply Htags; exact Ht].
  - intros el i Ht. rewrite Hnext. eapply Hfresh1. apply Htags. exact Ht.
  - intros i el Hi. rewrite Hnext. eapply Hfresh2. apply Hmap. exact Hi.
Qed.

Lemma insertResourceTag_wellFormed (resource : Resource) (s : State) :
  wellFormed s → wellFormed (insertResourceTag resource s).
Proof.
  intros (Hreg & Hex & Hfresh1 & Hfresh2).
  destruct (resourcesMap s !! id resource) as [el|] eqn:Hmap.
  { rewrite (insertResourceTag_known _ _ _ Hmap). done. }
  destruct (insertResourceTag_new resource s Hmap)
    as (Hmap' & _ & Hnext & _ & _ & Hperm). cbn zeta in *.
  assert (Hin : ∀ t, t ∈ querySelectorAllTags (childNodes (insertResourceTag resource s)) →
            t = (nextEl s, id resource) ∨ t ∈ querySelectorAllTags (childNodes s)).
  { intros t Ht. rewrite Hperm in Ht. apply elem_of_cons in Ht as [->|Ht];
      [left; reflexivity|right; apply survivors_tags; exact Ht]. }
  split; [|split; [|split]].
  - intros el i Ht. rewrite Hmap'. apply Hin in Ht as [[= -> ->]|Ht].
    + apply lookup_insert_eq.
    + pose proof (Hreg el i Ht) as Hi. rewrite lookup_insert_ne by congruence.
      exact Hi.
  - intros i el i' Hi Ht. rewrite Hmap' in Hi.
    destruct (decide (i = id resource)) as [->|Hne].
    + rewrite lookup_insert_eq in Hi. injection Hi as <-.
      apply Hin in Ht as [[= ->]|Ht]; [reflexivity|].
      apply Hfresh1 in Ht. lia.
    + rewrite lookup_insert_ne in Hi by congruence.
      apply Hin in Ht as [[= -> ->]|Ht]; [apply Hfresh2 in Hi; lia|].
      eapply Hex; eassumption.
  - intros el i Ht. rewrite Hnext. apply Hin in Ht as [[= -> ->]|Ht]; [lia|].
    apply Hfresh1 in Ht. lia.
  - intros i el Hi. rewrite Hnext. rewrite Hmap' in Hi.
    destruct (decide (i = id resource)) as [->|Hne].
    + rewrite lookup_insert_eq in Hi. injection Hi as <-. lia.
    + rewrite lookup_insert_ne in Hi by congruence. apply Hfresh2 in Hi. lia.
Qed.

Lemma keepsTag_isElement (el : handle) (t : handle * jsstring) :
  keepsTag (isElement el) t = true ↔ t.1 ≠ el.
Proof.
  unfold keepsTag. cbn. rewrite negb_true_iff. apply bool_decide_eq_false.
Qed.

Lemma removeResource_wellFormed (resourceId : jsstring) (s : State) :
  wellFormed s → wellFormed (removeResource resourceId s).
Proof.
  intros Hwf.
  destruct (resourcesMap s !! resourceId) as [el|] eqn:Hmap.
  2: { rewrite removeResource_idle; [exact Hwf|]. intros el Hel. congruence. }
  destruct (attached el (childNodes s)) eqn:Hatt.
  2: { destruct (decide (el ∈ wrapped s)) as [Hw|Hw].
       - destruct (removeResource_wrapped resourceId s el Hmap Hatt Hw)
           as (Hnodes & Hmap' & _ & Hnext & _). cbn zeta in *.
         apply (wellFormed_sub s); try assumption.
         + intros t Ht. rewrite Hnodes in Ht. exact Ht.
         + intros j x Hj. rewrite Hmap' in Hj.
           apply lookup_delete_Some in Hj as [_ Hj]. exact Hj.
         + destruct Hwf as (Hreg & _). intros x j Ht. rewrite Hnodes in Ht.
           rewrite Hmap'. pose proof (Hreg x j Ht) as Hj.
           rewrite lookup_delete_ne; [exact Hj|]. intros ->.
           assert (x = el) as -> by congruence.
           assert (attached el (childNodes s) = true)
             by (apply attached_spec; eauto). congruence.
       - rewrite removeResource_idle; [exact Hwf|]. intros el' Hel.
         assert (el' = el) as -> by congruence. unfold hasParent.
         rewrite Hatt, bool_decide_eq_false_2 by exact Hw. reflexivity. }
  apply attached_spec in Hatt as [i Htag].
  destruct (removeResource_acts resourceId s el i Hmap Htag)
    as (_ & Htags & Hmap' & _ & Hnext & _). cbn zeta in *.
  assert (Hkept : ∀ t, t ∈ querySelectorAllTags (childNodes (removeResource resourceId s)) ↔
            t ∈ querySelectorAllTags (childNodes s) ∧ t.1 ≠ el).
  { intros t. rewrite Htags, <- keepsTag_isElement, !list_elem_of_In.
    apply filter_In. }
  apply (wellFormed_sub s); try assumption.
  - intros t Ht. apply Hkept in Ht as [Ht _]. exact Ht.
  - intros j x Hj. rewrite Hmap' in Hj. apply lookup_delete_Some in Hj as [_ Hj].
    exact Hj.
  - destruct Hwf as (Hreg & _). intros x j Ht. apply Hkept in Ht as [Ht Hne].
    cbn [fst] in Hne. rewrite Hmap'. pose proof (Hreg x j Ht) as Hj.
    rewrite lookup_delete_ne; [exact Hj|]. intros ->. congruence.
Qed.

Lemma prune_wellFormed (resources : list Resource) (s : State) :
  wellFormed s → wellFormed (prune resources s).
Proof.
  intros Hwf. destruct (prune_spec resources s) as (Htags & Hmap & _ & Hnext & _).
  destruct (prune_invariants resources s (registered_among _ _ (proj1 Hwf)))
    as (Hreg' & _).
  cbn zeta in *. apply (wellFormed_sub s); try assumption.
  - intros t Ht. rewrite Htags in Ht.
    apply list_elem_of_In, filter_In in Ht as [Ht _]. apply list_elem_of_In, Ht.
  - intros i el Hi. rewrite Hmap in Hi. destruct (decide _); [discriminate|exact Hi].
Qed.

Lemma tags_setAttribute (el : handle) (i : jsstring) (nodes : list Node) :
  querySelectorAllTags (map (setAttributeIn el i) nodes)
  = map (rekeyed el i) (querySelectorAllTags nodes).
Proof.
  assert (Hnode : ∀ n, tagsOfNode (setAttributeIn el i n)
                       = map (rekeyed el i) (tagsOfNode n)).
  { intros n. induction n as [data|el' i'| |tagName children IH] using Node_ind.
    - reflexivity.
    - unfold rekeyed. cbn. destruct (decide (el' = el)) as [->|]; reflexivity.
    - reflexivity.
    - cbn [setAttributeIn tagsOfNode]. rewrite map_map, concat_map, map_map.
      apply concat_map_ext_Forall. exact IH. }
  unfold querySelectorAllTags. rewrite map_map, concat_map, map_map.
  apply concat_map_ext_Forall, Forall_forall. intros n _. apply Hnode.
Qed.

Lemma findTagByFilePath_elem (resource : Resource) (s : State)
      (t : handle * jsstring) :
  findTagByFilePath resource s = Some t →
  t ∈ querySelectorAllTags (childNodes s).
Proof.
  unfold findTagByFilePath. destruct (_ || _); [discriminate|].
  intros H. apply find_some in H as [H _]. apply list_elem_of_In. exact H.
Qed.

Lemma rekey_wellFormed (s : State) (el : handle) (old new : jsstring) :
  wellFormed s →
  (el, old) ∈ querySelectorAllTags (childNodes s) →
  resourcesMap s !! new = None →
  wellFormed
    (setResourcesMap (<[new := el]> (delete old (resourcesMap s)))
       (setAttribute el new s)).
Proof.
  intros (Hreg & Hex & Hfresh1 & Hfresh2) Hold Hnew.
  assert (Hin : ∀ x j, (x, j) ∈ map (rekeyed el new) (querySelectorAllTags (childNodes s)) →
            (x = el ∧ j = new)
            ∨ (x ≠ el ∧ (x, j) ∈ querySelectorAllTags (childNodes s))).
  { intros x j Ht. apply list_elem_of_In, in_map_iff in Ht as ([x0 j0] & Heq & Ht).
    apply list_elem_of_In in Ht. unfold rekeyed in Heq. cbn [fst] in Heq.
    destruct (decide (x0 = el)) as [->|Hne]; injection Heq as <- <-;
      [left|right]; done. }
  pose proof (Hreg _ _ Hold) as Hel.
  unfold wellFormed, registered, exclusive, freshHandles, setAttribute.
  simpl_state. rewrite tags_setAttribute.
  split; [|split; [|split]].
  - intros x j Ht. apply Hin in Ht as [[-> ->]|[Hne Ht]].
    + apply lookup_insert_eq.
    + pose proof (Hreg _ _ Ht) as Hj.
      assert (j ≠ new) by (intros ->; rewrite Hnew in Hj; discriminate).
      assert (j ≠ old) by (intros ->; rewrite Hel in Hj; injection Hj as ->; done).
      rewrite lookup_insert_ne, lookup_delete_ne by done. exact Hj.
  - intros j x j' Hj Ht. destruct (decide (j = new)) as [->|Hjn].
    + rewrite lookup_insert_eq in Hj. injection Hj as <-.
      apply Hin in Ht as [[_ ->]|[Hne _]]; done.
    + rewrite lookup_insert_ne in Hj by done.
      apply lookup_delete_Some in Hj as [Hjo Hj].
      apply Hin in Ht as [[-> ->]|[Hne Ht]].
      * exfalso. apply Hjo. exact (Hex _ _ _ Hj Hold).
      * exact (Hex _ _ _ Hj Ht).
  - intros x j Ht. apply Hin in Ht as [[-> ->]|[Hne Ht]].
    + exact (Hfresh1 _ _ Hold).
    + exact (Hfresh1 _ _ Ht).
  - intros j x Hj. destruct (decide (j = new)) as [->|Hjn].
    + rewrite lookup_insert_eq in Hj. injection Hj as <-.
      exact (Hfresh1 _ _ Hold).
    + rewrite lookup_insert_ne in Hj by done.
      apply lookup_delete_Some in Hj as [_ Hj]. exact (Hfresh2 _ _ Hj).
Qed.

Lemma updateOne_wellFormed (s : State) (r : Resource) :
  wellFormed s → wellFormed (updateOne s r).
Proof.
  intros Hwf. unfold updateOne.
  destruct (resourcesMap s !! id r) as [el|] eqn:Hmap; [exact Hwf|].
  assert (Hins : wellFormed (insertResourceTag r s))
    by (apply insertResourceTag_wellFormed; exact Hwf).
  destruct (bool_decide (type r = Code) && truthy (filePath r)); [|exact Hins].
  destruct (findTagByFilePath r s) as [[el old]|] eqn:Hfind; [|exact Hins].
  destruct (decide (old = id r)); [exact Hwf|].
  apply rekey_wellFormed; [exact Hwf| |exact Hmap].
  eapply findTagByFilePath_elem. exact Hfind.
Qed.

Lemma updateResources_wellFormed (resources : list Resource) (s : State) :
  wellFormed s → wellFormed (updateResources resources s).
Proof.
  intros Hwf. unfold updateResources.
  assert (Hfold : ∀ todo s0, wellFormed s0 → wellFormed (foldl updateOne s0 todo)).
  { induction todo as [|r todo IH]; intros s0 H0; [exact H0|].
    cbn [foldl]. apply IH, updateOne_wellFormed. exact H0. }
  eapply wellFormed_transfer; [..|apply Hfold, prune_wellFormed; exact Hwf];
    reflexivity.
Qed.

Lemma flush_wellFormed (s : State) : wellFormed s → wellFormed (flush s).
Proof.
  destruct (flush_spec s) as (Htags & _ & Hmap & _ & Hnext & _).
  apply wellFormed_transfer; assumption.
Qed.

Lemma insertNewLine_wellFormed (s : State) :
  wellFormed s → wellFormed (insertNewLine s).
Proof.
  intros Hwf. unfold insertNewLine.
  destruct (selection s) as [| |range]; [exact Hwf|exact Hwf|].
  destruct (deleteContents (childNodes s) range) as [nodes1 point] eqn:Hdel.
  pose proof (insertNode_tags nodes1 point Br) as Hins.
  destruct (insertNode nodes1 point Br) as [nodes2 k].
  cbn [fst tagsOfNode app] in Hins.
  apply (wellFormed_sub s); try done.
  - intros t Ht. unfold syncValue in Ht. simpl_state. rewrite Hins in Ht.
    apply (deleteContents_tags (childNodes s) range). rewrite Hdel. exact Ht.
  - destruct Hwf as (Hreg & _). intros el i Ht.
    unfold syncValue in *. simpl_state. rewrite Hins in Ht. apply Hreg.
    apply (deleteContents_tags (childNodes s) range). rewrite Hdel. exact Ht.
Qed.

Lemma handleKeydown_wellFormed (e : KeyboardEvent.t) (s : State) :
  wellFormed s → wellFormed (handleKeydown e s).1.
Proof.
  intros Hwf. unfold handleKeydown.
  destruct (_ && _).
  { destruct (_ || _); cbn [fst]; [|exact Hwf].
    eapply wellFormed_transfer; [..|apply insertNewLine_wellFormed; exact Hwf];
      reflexivity. }
  destruct (bool_decide (KeyboardEvent.keyCode e = 38)); [exact Hwf|].
  destruct (bool_decide _); [|exact Hwf].
  unfold handleBackspace. destruct (selection s) as [| |range]; try exact Hwf.
  destruct (_ && _); [|exact Hwf].
  destruct (previousSibling _ _) as [[data|el [|c i]| |tagName children]|];
    try exact Hwf.
  cbn [fst]. apply removeResource_wellFormed. exact Hwf.
Qed.

(** *** Parsing *)

Lemma append_text_core (data : jsstring) (s : State) :
  querySelectorAllTags (childNodes (setChildNodes (childNodes s ++ [Text data]) s))
  = querySelectorAllTags (childNodes s).
Proof. simpl_state. rewrite tags_app. apply app_nil_r. Qed.

Lemma append_tag_invariants (i : jsstring) (s : State) :
  exclusive s → freshHandles s → lastIndexed s →
  let s' := setResourcesMap (<[i := nextEl s]> (resourcesMap s))
              (setNextEl (S (nextEl s))
                 (setChildNodes (childNodes s ++ [Tag (nextEl s) i]) s)) in
  exclusive s' ∧ freshHandles s' ∧ lastIndexed s'.
Proof.
  intros Hex [Hfresh1 Hfresh2] Hlast.
  unfold exclusive, freshHandles, lastIndexed. simpl_state.
  rewrite tags_app.
  change (querySelectorAllTags [Tag (nextEl s) i]) with [(nextEl s, i)].
  split; [|split; [split|]].
  - intros j el j' Hj Ht. apply elem_of_app in Ht as [Ht|Ht].
    + destruct (decide (j = i)) as [->|Hne].
      * rewrite lookup_insert_eq in Hj. injection Hj as <-.
        apply Hfresh1 in Ht. lia.
      * rewrite lookup_insert_ne in Hj by congruence. eapply Hex; eassumption.
    + apply list_elem_of_singleton in Ht as [= -> ->].
      destruct (decide (j = i)) as [->|Hne]; [reflexivity|].
      rewrite lookup_insert_ne in Hj by congruence. apply Hfresh2 in Hj. lia.
  - intros el j Ht. apply elem_of_app in Ht as [Ht|Ht].
    + apply Hfresh1 in Ht. lia.
    + apply list_elem_of_singleton in Ht as [= -> ->]. lia.
  - intros j el Hj. destruct (decide (j = i)) as [->|Hne].
    + rewrite lookup_insert_eq in Hj. injection Hj as <-. lia.
    + rewrite lookup_insert_ne in Hj by congruence. apply Hfresh2 in Hj. lia.
  - intros pre el j post Heq Hnot.
    destruct post as [|t post _] using rev_ind.
    + apply app_inj_tail in Heq as [_ [= <- <-]]. apply lookup_insert_eq.
    + rewrite app_comm_cons, app_assoc in Heq.
      apply app_inj_tail in Heq as [Heq <-].
      rewrite fmap_app in Hnot. cbn in Hnot.
      rewrite lookup_insert_ne.
      * eapply Hlast; [exact Heq|]. intros Hin. apply Hnot.
        apply elem_of_app. left. exact Hin.
      * intros ->. apply Hnot. apply elem_of_app. right. left.
Qed.

Lemma parseLoop_invariants (fuel : nat) (rest : jsstring) (s : State) :
  exclusive s → freshHandles s → lastIndexed s →
  exclusive (parseLoop fuel rest s)
  ∧ freshHandles (parseLoop fuel rest s)
  ∧ lastIndexed (parseLoop fuel rest s).
Proof.
  revert rest s. induction fuel as [|fuel IH]; intros rest s Hex Hfresh Hlast;
    [done|].
  assert (Htext : ∀ data, exclusive (setChildNodes (childNodes s ++ [Text data]) s)
                          ∧ freshHandles (setChildNodes (childNodes s ++ [Text data]) s)
                          ∧ lastIndexed (setChildNodes (childNodes s ++ [Text data]) s)).
  { intros data.
    destruct (core_transfer s (setChildNodes (childNodes s ++ [Text data]) s))
      as (_ & H2 & H3 & H4); [apply append_text_core|reflexivity|reflexivity|].
    auto. }
  cbn [parseLoop]. destruct (exec rest) as [[[before cap] rest']|].
  - set (s1 := match before with
               | [] => s
               | _ :: _ => setChildNodes (childNodes s ++ [Text before]) s
               end).
    assert (H1 : exclusive s1 ∧ freshHandles s1 ∧ lastIndexed s1)
      by (subst s1; destruct before; [done|apply Htext]).
    clearbody s1. destruct H1 as (Hex1 & Hfresh1 & Hlast1).
    destruct (findById (propsResources s1) cap) as [r|].
    + destruct (append_tag_invariants (id r) s1) as (? & ? & ?); try assumption.
      apply IH; assumption.
    + destruct (core_transfer s1
                  (setChildNodes (childNodes s1 ++ [Text (DELIM ++ cap ++ DELIM)]) s1))
        as (_ & H2 & H3 & H4); [apply append_text_core|reflexivity|reflexivity|].
      apply IH; auto.
  - destruct rest; [done|apply Htext].
Qed.

Lemma lastIndexed_registered (s : State) :
  lastIndexed s → NoDup (tokenIds (childNodes s)) → registered s.
Proof.
  intros Hlast Hnd el i Ht. apply list_elem_of_split in Ht as (pre & post & Heq).
  eapply Hlast; [exact Heq|]. unfold tokenIds in Hnd. rewrite Heq in Hnd.
  rewrite fmap_app in Hnd. apply NoDup_app in Hnd as (_ & _ & Hnd).
  cbn in Hnd. apply NoDup_cons in Hnd as [Hnot _]. exact Hnot.
Qed.

Lemma setContent_wellFormed (content : jsstring) (s : State) :
  wellFormed s →
  NoDup (tokenIds (childNodes (setContent content s))) →
  wellFormed (setContent content s).
Proof.
  intros (Hreg & Hex & Hfresh1 & Hfresh2). unfold setContent.
  assert (Hclear : ∀ data s0, s0 = setTextContent data s →
            querySelectorAllTags (childNodes s0) = [] →
            exclusive s0 ∧ freshHandles s0 ∧ lastIndexed s0).
  { intros data s0 -> Hnone. unfold exclusive, freshHandles, lastIndexed.
    rewrite Hnone. simpl_state. split; [|split; [split|]].
    - intros i el i' _ H. inversion H.
    - intros el i H. inversion H.
    - exact Hfresh2.
    - intros [|? ?] el i post H; discriminate. }
  destruct (includes DELIM content).
  - intros Hnd. unfold parseContentWithResources in *.
    destruct (Hclear [] _ eq_refl eq_refl) as (H1 & H2 & H3).
    destruct (parseLoop_invariants (S (length content)) content
                (setTextContent [] s) H1 H2 H3) as (H4 & H5 & H6).
    eapply wellFormed_transfer;
      [reflexivity|reflexivity|reflexivity|].
    split; [|split; assumption]. apply lastIndexed_registered; assumption.
  - intros _.
    destruct (Hclear content _ eq_refl) as (H1 & H2 & _);
      [destruct content; reflexivity|].
    split; [|split; assumption].
    intros el i Ht. destruct content; inversion Ht.
Qed.

(** On a state in which every tag in the div is indexed by
    [resourcesMap] under its id, no key points at a tag of another id and
    [createElement] is fresh, every operation (insertion, removal, the
    watcher of the resources, a key, the next tick, and [setContent] of a
    string that does not parse into two tokens of one id) leaves such a
    state. *)
Lemma step_wellFormed (op : Op) (s : State) :
  wellFormed s →
  (∀ content, op = OpSetContent content →
              NoDup (tokenIds (childNodes (setContent content s)))) →
  wellFormed (step op s).
Proof.
  intros Hwf Hdup.
  destruct op as [resource|resourceId|resources|content|e|]; cbn [step].
  - apply insertResourceTag_wellFormed. exact Hwf.
  - apply removeResource_wellFormed. exact Hwf.
  - apply updateResources_wellFormed.
    eapply wellFormed_transfer; [..|exact Hwf]; reflexivity.
  - apply setContent_wellFormed; [exact Hwf|]. apply Hdup. reflexivity.
  - apply handleKeydown_wellFormed. exact Hwf.
  - apply flush_wellFormed. exact Hwf.
Qed.

(** * More of the component

    Properties of the code beside the stated ones. *)

(** ** From a storage string to the document and back *)

Lemma extract_literal (nodes : list Node) :
  Forall (fun i => i ≠ []) (tokenIds nodes) →
  extractTextFromNode nodes = literal nodes.
Proof.
  unfold extractTextFromNode, literal, tokenIds, querySelectorAllTags.
  induction nodes as [|n nodes IHn]; [reflexivity|].
  cbn [map concat]. rewrite fmap_app, Forall_app. intros [Hn Hrest].
  rewrite IHn by exact Hrest. f_equal. clear IHn Hrest.
  induction n as [data|el i| |tagName children IH] using Node_ind.
  - reflexivity.
  - cbn in Hn. apply Forall_cons in Hn as [Hi _]. destruct i; done.
  - reflexivity.
  - cbn [extractChild literalOfNode tagsOfNode] in *.
    induction IH as [|c children Hc _ IHc]; [reflexivity|].
    cbn [map concat] in *. rewrite fmap_app, Forall_app in Hn.
    destruct Hn as [Hn1 Hn2]. rewrite Hc, IHc by assumption. reflexivity.
Qed.

(** X1. When the resource list has no resource with the empty id, the
    document [setContent] builds from a string is read back by
    [getContent] as that very string, markers of unknown ids and text
    that only looks like a marker included. *)
Theorem setContent_then_getContent (content : jsstring) (s : State) :
  findById (propsResources s) [] = None →
  getContent (setContent content s) = content.
Proof.
  intros Hempty. unfold getContent.
  rewrite extract_literal; [apply setContent_literal|].
  eapply Forall_impl; [apply setContent_known|].
  intros i [r Hr] ->. cbn beta in Hr. rewrite Hempty in Hr. discriminate.
Qed.

Lemma parseLoop_tokens (fuel : nat) (rest : jsstring) (s : State) :
  tokenIds (childNodes (parseLoop fuel rest s))
  = tokenIds (childNodes s)
    ++ List.filter (fun i => bool_decide (is_Some (findById (propsResources s) i)))
                   (matchAllLoop fuel rest).
Proof.
  revert rest s. induction fuel as [|fuel IH]; intros rest s.
  - cbn [parseLoop matchAllLoop List.filter]. rewrite app_nil_r. reflexivity.
  - cbn [parseLoop matchAllLoop].
    destruct (exec rest) as [[[before cap] rest']|] eqn:He.
    + set (s1 := match before with
                 | [] => s
                 | _ :: _ => setChildNodes (childNodes s ++ [Text before]) s
                 end).
      assert (Hs1 : tokenIds (childNodes s1) = tokenIds (childNodes s)
                    ∧ propsResources s1 = propsResources s).
      { subst s1. destruct before; [done|]. simpl_state.
        rewrite tokenIds_app, tokenIds_text, app_nil_r. done. }
      destruct Hs1 as [Htok Hprops]. rewrite IH. cbn [List.filter].
      rewrite <- Hprops.
      destruct (findById (propsResources s1) cap) as [r|] eqn:Hf.
      * apply findById_Some in Hf as Hid. destruct Hid as [Hid _].
        rewrite (bool_decide_eq_true_2 (is_Some (Some r))) by eauto.
        simpl_state. rewrite tokenIds_app, tokenIds_tag, Hid, Htok.
        rewrite <- app_assoc. reflexivity.
      * rewrite (bool_decide_eq_false_2 (is_Some None))
          by (intros [? ?]; discriminate).
        simpl_state. rewrite tokenIds_app, tokenIds_text, app_nil_r, Htok.
        reflexivity.
    + cbn [List.filter]. rewrite app_nil_r.
      destruct rest; [reflexivity|]. simpl_state.
      rewrite tokenIds_app, tokenIds_text, app_nil_r. reflexivity.
Qed.

Lemma setContent_tokenIds (content : jsstring) (s : State) :
  tokenIds (childNodes (setContent content s))
  = List.filter (fun i => bool_decide (is_Some (findById (propsResources s) i)))
                (matchAll content).
Proof.
  unfold setContent. destruct (includes DELIM content) eqn:Hinc.
  - unfold parseContentWithResources, matchAll. simpl_state.
    rewrite parseLoop_tokens. reflexivity.
  - unfold matchAll. cbn [matchAllLoop]. rewrite exec_none by exact Hinc.
    destruct content; reflexivity.
Qed.

Lemma startsWith_prefix (p a b : jsstring) :
  startsWith p a = true → startsWith p (a ++ b) = true.
Proof.
  revert a. induction p as [|x p IH]; intros [|y a] H; cbn [startsWith app] in *;
    try done.
  destruct (decide (x = y)); [apply IH; exact H|discriminate].
Qed.

Lemma lazyGroup_clean (s cap rest : jsstring) :
  lazyGroup s = Some (cap, rest) →
  includes DELIM cap = false
  ∧ forallb (fun c => negb (isLineTerminator c)) cap = true.
Proof.
  revert cap rest. induction s as [|c s IH]; intros cap rest H.
  - cbn in H. discriminate.
  - pose proof (lazyGroup_sound _ _ _ H) as Hsound. cbn [lazyGroup] in H.
    destruct (startsWith DELIM (c :: s)) eqn:Hstart.
    + injection H as <- _. done.
    + destruct (isLineTerminator c) eqn:Hc; [discriminate|].
      destruct (lazyGroup s) as [[cap' rest']|] eqn:Hs; [|discriminate].
      injection H as <- <-. destruct (IH _ _ eq_refl) as [Hinc Hline].
      split.
      * cbn [includes]. rewrite Hinc, orb_false_r.
        destruct (startsWith DELIM (c :: cap')) eqn:Hp; [|reflexivity].
        rewrite Hsound in Hstart.
        rewrite (startsWith_prefix _ _ _ Hp) in Hstart. discriminate.
      * cbn [forallb]. rewrite Hc, Hline. reflexivity.
Qed.

Lemma exec_clean (s before cap rest : jsstring) :
  exec s = Some (before, cap, rest) →
  includes DELIM cap = false
  ∧ forallb (fun c => negb (isLineTerminator c)) cap = true.
Proof.
  revert before cap rest. induction s as [|c s IH]; intros before cap rest H.
  - vm_compute in H. discriminate.
  - cbn [exec] in H. destruct (matchHere (c :: s)) as [[cap' rest']|] eqn:Hm.
    + injection H as _ <- _. unfold matchHere in Hm.
      destruct (startsWith DELIM (c :: s)); [|discriminate].
      eapply lazyGroup_clean. exact Hm.
    + destruct (exec s) as [[[before' cap'] rest']|] eqn:He; [|discriminate].
      injection H as _ <- _. eapply IH. reflexivity.
Qed.

Lemma matchAllLoop_clean (fuel : nat) (s : jsstring) :
  Forall (fun i => includes DELIM i = false
                   ∧ forallb (fun c => negb (isLineTerminator c)) i = true)
         (matchAllLoop fuel s).
Proof.
  revert s. induction fuel as [|fuel IH]; intros s; [constructor|].
  cbn [matchAllLoop]. destruct (exec s) as [[[before cap] rest]|] eqn:He;
    [|constructor].
  constructor; [eapply exec_clean; exact He|apply IH].
Qed.

(** X2. The tokens [setContent] creates are the marker ids of the string
    that the resource list has, in the order of the markers; markers of
    other ids give no token.  No such id holds the marker or a line
    terminator. *)
Theorem setContent_tokens (content : jsstring) (s : State) :
  tokenIds (childNodes (setContent content s))
  = List.filter (fun i => bool_decide (is_Some (findById (propsResources s) i)))
                (matchAll content)
  ∧ Forall (fun i => includes DELIM i = false
                     ∧ forallb (fun c => negb (isLineTerminator c)) i = true)
           (tokenIds (childNodes (setContent content s))).
Proof.
  split; [apply setContent_tokenIds|]. rewrite setContent_tokenIds.
  apply Forall_forall. intros i Hi.
  apply list_elem_of_In, filter_In in Hi as [Hi _]. apply list_elem_of_In in Hi.
  pose proof (matchAllLoop_clean (S (length content)) content) as Hclean.
  rewrite Forall_forall in Hclean. apply Hclean. exact Hi.
Qed.

(** ** The watcher of [modelValue] *)

Lemma codeUnitsLe_total (a b : jsstring) :
  codeUnitsLe a b = true ∨ codeUnitsLe b a = true.
Proof.
  revert b. induction a as [|x a IH]; intros [|y b]; cbn [codeUnitsLe]; auto.
  destruct (N.ltb_spec x y); [left; reflexivity|].
  destruct (N.ltb_spec y x); [right; reflexivity|].
  assert (x = y) as -> by lia. rewrite N.eqb_refl. cbn [orb andb]. apply IH.
Qed.

Lemma codeUnitsLe_trans (a b c : jsstring) :
  codeUnitsLe a b = true → codeUnitsLe b c = true → codeUnitsLe a c = true.
Proof.
  revert b c. induction a as [|x a IH]; intros [|y b] [|z c];
    cbn [codeUnitsLe]; try done.
  intros Hab Hbc.
  apply orb_true_iff in Hab as [Hab|Hab]; apply orb_true_iff in Hbc as [Hbc|Hbc].
  - apply N.ltb_lt in Hab, Hbc. apply orb_true_iff. left. apply N.ltb_lt. lia.
  - apply andb_true_iff in Hbc as [Hyz _]. apply N.eqb_eq in Hyz as <-.
    rewrite Hab. reflexivity.
  - apply andb_true_iff in Hab as [Hxy _]. apply N.eqb_eq in Hxy as ->.
    rewrite Hbc. reflexivity.
  - apply andb_true_iff in Hab as [Hxy Hab]. apply andb_true_iff in Hbc as [Hyz Hbc].
    apply N.eqb_eq in Hxy as ->. apply N.eqb_eq in Hyz as ->.
    rewrite N.eqb_refl, (IH _ _ Hab Hbc). apply orb_true_r.
Qed.

Lemma codeUnitsLe_antisym (a b : jsstring) :
  codeUnitsLe a b = true → codeUnitsLe b a = true → a = b.
Proof.
  revert b. induction a as [|x a IH]; intros [|y b]; cbn [codeUnitsLe]; try done.
  intros Hab Hba.
  apply orb_true_iff in Hab as [Hab|Hab]; apply orb_true_iff in Hba as [Hba|Hba].
  - apply N.ltb_lt in Hab, Hba. lia.
  - apply andb_true_iff in Hba as [Hyx _]. apply N.eqb_eq in Hyx as ->.
    apply N.ltb_lt in Hab. lia.
  - apply andb_true_iff in Hab as [Hxy _]. apply N.eqb_eq in Hxy as ->.
    apply N.ltb_lt in Hba. lia.
  - apply andb_true_iff in Hab as [Hxy Hab]. apply andb_true_iff in Hba as [_ Hba].
    apply N.eqb_eq in Hxy as ->. f_equal. apply IH; assumption.
Qed.

(** Sorting makes two arrays of ids equal exactly when they hold the
    same ids the same number of times. *)
Lemma sortIds_eq (a b : list jsstring) : sortIds a = sortIds b ↔ a ≡ₚ b.
Proof.
  assert (Htotal : Total codeUnitsOrder) by (intros x y; apply codeUnitsLe_total).
  assert (Htrans : Transitive codeUnitsOrder)
    by (intros x y z; apply codeUnitsLe_trans).
  assert (Hanti : AntiSymm (=) codeUnitsOrder)
    by (intros x y; apply codeUnitsLe_antisym).
  unfold sortIds. split.
  - intros Heq. rewrite <- (merge_sort_Permutation codeUnitsOrder a), Heq.
    apply merge_sort_Permutation.
  - intros Hperm. apply (Sorted_unique codeUnitsOrder).
    + apply Sorted_merge_sort, Htotal.
    + apply Sorted_merge_sort, Htotal.
    + rewrite !merge_sort_Permutation. exact Hperm.
Qed.

(** X3. The watcher of [modelValue] has two outcomes.  It leaves the
    component as it is when the new value is the storage string of the
    document, and also when both hold a marker and the marker ids of
    the two are the same up to their order, whatever the text of the
    new value is.  In every other case it sets the new value with
    [setContent]. *)
Theorem watchModelValue_cases (newVal : jsstring) (s : State) :
  (watchModelValue newVal s = s
   ∧ (newVal = getContent s
      ∨ (includes DELIM newVal = true ∧ includes DELIM (getContent s) = true
         ∧ matchAll newVal ≡ₚ matchAll (getContent s))))
  ∨ (watchModelValue newVal s = setContent newVal s
     ∧ newVal ≠ getContent s
     ∧ ¬ (includes DELIM newVal = true ∧ includes DELIM (getContent s) = true
          ∧ matchAll newVal ≡ₚ matchAll (getContent s))).
Proof.
  unfold watchModelValue. cbn zeta.
  destruct (decide (newVal = getContent s)) as [Heq|Hne]; [left; auto|].
  destruct (includes DELIM newVal) eqn:Hn.
  - destruct (includes DELIM (getContent s)) eqn:Hc.
    + assert (Ht : ∀ x, includes DELIM x = true → truthy (Some x) = true).
      { intros [|c x]; [discriminate|reflexivity]. }
      rewrite (Ht _ Hn), (Ht _ Hc). cbn [andb].
      destruct (decide (sortIds (matchAll newVal)
                        = sortIds (matchAll (getContent s)))) as [Hs|Hs].
      * rewrite bool_decide_eq_true_2 by exact Hs. left. split; [reflexivity|].
        right. split; [reflexivity|]. split; [reflexivity|].
        apply sortIds_eq. exact Hs.
      * rewrite bool_decide_eq_false_2 by exact Hs. right.
        split; [reflexivity|]. split; [exact Hne|].
        intros (_ & _ & Hperm). apply Hs, sortIds_eq. exact Hperm.
    + rewrite !andb_false_r. cbn [andb]. right.
      split; [reflexivity|]. split; [exact Hne|].
      intros (_ & Hc' & _). discriminate.
  - rewrite !andb_false_r. cbn [andb]. right.
    split; [reflexivity|]. split; [exact Hne|].
    intros (Hn' & _ & _). discriminate.
Qed.

(** ** Paste and Ctrl+Enter *)

(** [insertNode] puts the node at one place of the child list; a text
    node it splits keeps its text. *)
Lemma insertNode_concat {A} (f : Node → list A)
      (nodes : list Node) (b : Boundary) (n : Node) :
  (∀ data a, f (Text data) = f (Text (take a data)) ++ f (Text (drop a data))) →
  ∃ before after,
    concat (map f nodes) = before ++ after
    ∧ concat (map f (insertNode nodes b n).1) = before ++ f n ++ after.
Proof.
  intros Hsplit.
  assert (Hat : ∀ k,
    ∃ before after,
      concat (map f nodes) = before ++ after
      ∧ concat (map f (take k nodes ++ n :: drop k nodes)) = before ++ f n ++ after).
  { intros k. exists (concat (map f (take k nodes))), (concat (map f (drop k nodes))).
    split.
    - rewrite <- concat_app, <- map_app, take_drop. reflexivity.
    - rewrite map_app, concat_app. reflexivity. }
  destruct b as [k|i a]; cbn [insertNode].
  - cbn [fst]. apply Hat.
  - destruct (nodes !! i) as [[data| | |]|] eqn:Hi; cbn [fst]; try apply Hat.
    exists (concat (map f (take i nodes)) ++ f (Text (take a data))),
           (f (Text (drop a data)) ++ concat (map f (drop (S i) nodes))).
    split.
    + rewrite <- (take_drop_middle nodes i (Text data) Hi) at 1.
      rewrite map_app, concat_app. cbn [map concat].
      rewrite (Hsplit data a), <- !app_assoc. reflexivity.
    + rewrite map_app, concat_app. cbn [map concat].
      rewrite <- !app_assoc. reflexivity.
Qed.

Lemma extract_app (a b : list Node) :
  extractTextFromNode (a ++ b) = extractTextFromNode a ++ extractTextFromNode b.
Proof. unfold extractTextFromNode. rewrite map_app, concat_app. reflexivity. Qed.

(** X4. Paste, with the caret at a boundary between children of the div or
    in a text node that is a child of the div, puts the clipboard text,
    as it is, into the storage string at the place of the caret and
    emits the new string; the tokens and the index stay as they are.
    Carets inside a tag or a nested element are not covered. *)
Theorem paste_at_caret (text : jsstring) (s : State) (b : Boundary) :
  selection s = Inside (caret b) →
  representable (childNodes s) b = true →
  let s' := handlePaste text s in
  let before := contentBefore (childNodes s) b in
  let after := contentAfter (childNodes s) b in
  getContent s = before ++ after
  ∧ getContent s' = before ++ text ++ after
  ∧ emitted s' = emitted s ++ [UpdateModelValue (before ++ text ++ after)]
  ∧ querySelectorAllTags (childNodes s') = querySelectorAllTags (childNodes s)
  ∧ resourcesMap s' = resourcesMap s.
Proof.
  intros Hsel Hrep. cbn zeta. unfold handlePaste. rewrite Hsel.
  rewrite deleteContents_collapsed by reflexivity. cbn [caret rangeStart].
  destruct (insertNode_concat tagsOfNode (childNodes s) b (Text text))
    as (l1 & l2 & Hold' & Hnew'); [reflexivity|].
  assert (Hplace :
    extractTextFromNode (childNodes s)
    = contentBefore (childNodes s) b ++ contentAfter (childNodes s) b
    ∧ extractTextFromNode (insertNode (childNodes s) b (Text text)).1
      = contentBefore (childNodes s) b ++ text ++ contentAfter (childNodes s) b).
  { destruct b as [k|i a]; cbn [representable] in Hrep;
      cbn [insertNode contentBefore contentAfter].
    - apply Nat.leb_le in Hrep. rewrite Nat.min_l by exact Hrep. cbn [fst].
      rewrite <- extract_app, take_drop. split; [reflexivity|].
      rewrite extract_app. reflexivity.
    - destruct (childNodes s !! i) as [[data| | |]|] eqn:Hi; try discriminate.
      cbn [fst]. split.
      + rewrite <- (take_drop_middle (childNodes s) i (Text data) Hi) at 1.
        rewrite extract_app. unfold extractTextFromNode at 2.
        cbn [map concat extractChild]. fold (extractTextFromNode (drop (S i) (childNodes s))).
        rewrite <- (take_drop a data) at 1. rewrite <- !app_assoc. reflexivity.
      + rewrite extract_app. unfold extractTextFromNode at 2.
        cbn [map concat extractChild]. fold (extractTextFromNode (drop (S i) (childNodes s))).
        rewrite <- !app_assoc. reflexivity. }
  destruct Hplace as [Hold Hnew].
  destruct (insertNode (childNodes s) b (Text text)) as [nodes2 k].
  cbn [fst tagsOfNode app] in *.
  unfold syncValue, getContent, querySelectorAllTags.
  simpl_state. rewrite Hnew, Hnew', Hold'. done.
Qed.

(** X5. Paste over a selection adds no token and leaves the index alone:
    every token of the result was in the document, and a state whose
    tags are all indexed stays so. *)
Theorem paste_keeps_index (text : jsstring) (s : State) :
  wellFormed s →
  let s' := handlePaste text s in
  wellFormed s'
  ∧ (∀ t, t ∈ querySelectorAllTags (childNodes s') →
          t ∈ querySelectorAllTags (childNodes s))
  ∧ resourcesMap s' = resourcesMap s
  ∧ nextEl s' = nextEl s.
Proof.
  intros Hwf. cbn zeta. unfold handlePaste.
  destruct (selection s) as [| |range]; [done|done|].
  destruct (deleteContents (childNodes s) range) as [nodes1 point] eqn:Hdel.
  pose proof (insertNode_tags nodes1 point (Text text)) as Hins.
  destruct (insertNode nodes1 point (Text text)) as [nodes2 k].
  cbn [fst tagsOfNode app] in Hins.
  assert (Hsub : ∀ t, t ∈ querySelectorAllTags nodes2 →
                      t ∈ querySelectorAllTags (childNodes s)).
  { intros t Ht. rewrite Hins in Ht.
    apply (deleteContents_tags (childNodes s) range). rewrite Hdel. exact Ht. }
  unfold syncValue. simpl_state. split; [|done].
  apply (wellFormed_sub s); try done.
  destruct Hwf as (Hreg & _). intros el i Ht. simpl_state. apply Hreg, Hsub, Ht.
Qed.


(** ** The clickable area after the tags *)

Lemma trailing_rest (reversed : list Node) :
  trailingToRemove (drop (trailingToRemove reversed) reversed) = 0.
Proof.
  induction reversed as [|n previous IH]; [reflexivity|].
  destruct n as [data|el i| |tagName children]; cbn [trailingToRemove].
  - destruct (trimIsEmpty data) eqn:Hd.
    + cbn [drop]. exact IH.
    + cbn [drop trailingToRemove]. rewrite Hd. reflexivity.
  - reflexivity.
  - destruct (match previous with p :: _ => isBR p | [] => false end) eqn:Hp.
    + cbn [drop]. exact IH.
    + cbn [drop trailingToRemove]. rewrite Hp. reflexivity.
  - reflexivity.
Qed.

Lemma adjustSelection_none (n : nat) (sel : Selection) :
  adjustSelection (replicate n false ++ replicate (n - n) true) sel = sel.
Proof.
  rewrite Nat.sub_diag. cbn [replicate]. rewrite app_nil_r.
  assert (Hb : ∀ k, removedBefore (replicate n false) k = 0).
  { intros k. unfold removedBefore. rewrite take_replicate.
    induction (k `min` n) as [|m IH]; [reflexivity|exact IH]. }
  assert (Hn : ∀ i, nth i (replicate n false) false = false).
  { clear Hb. intros i. revert i.
    induction n as [|n IH]; intros [|i]; cbn [replicate nth]; auto. }
  assert (Ha : ∀ b, adjustBoundary (replicate n false) b = b).
  { intros [k|i a]; cbn [adjustBoundary]; rewrite ?Hn, Hb, Nat.sub_0_r; reflexivity. }
  destruct sel as [| |[a b]]; cbn [adjustSelection rangeStart rangeEnd];
    rewrite ?Ha; reflexivity.
Qed.

(** A child list that [ensureInputArea] leaves alone. *)
Lemma ensureInputArea_settled (s : State) :
  trailingToRemove (rev (childNodes s)) = 0 →
  match last (childNodes s) with
  | Some (Tag _ _) | None => False
  | Some (Text data) => trimIsEmpty data = false
  | _ => True
  end →
  ensureInputArea s = s.
Proof.
  intros Htrail Hlast. unfold ensureInputArea.
  destruct (bool_decide (querySelectorAllTags (childNodes s) = [])); [reflexivity|].
  cbn zeta. rewrite Htrail, Nat.sub_0_r, firstn_all, adjustSelection_none.
  assert (Hs : setSelection (selection s) (setChildNodes (childNodes s) s) = s)
    by (destruct s; reflexivity).
  rewrite Hs.
  destruct (last (childNodes s)) as [[data|el i| |tagName children]|];
    try done. rewrite Hlast. reflexivity.
Qed.

(** X7. [ensureInputArea] is idempotent: once it has run, a second run
    changes nothing, neither the children nor the selection. *)
Theorem ensureInputArea_idempotent (s : State) :
  ensureInputArea (ensureInputArea s) = ensureInputArea s.
Proof.
  destruct (bool_decide (querySelectorAllTags (childNodes s) = [])) eqn:Hnone.
  { assert (He : ensureInputArea s = s)
      by (unfold ensureInputArea; rewrite Hnone; reflexivity).
    rewrite !He. reflexivity. }
  apply bool_decide_eq_false_1 in Hnone.
  destruct (trailing_split (childNodes s)) as [Htags _]. cbn zeta in Htags.
  pose proof (trailing_rest (rev (childNodes s))) as Hrest.
  rewrite skipn_rev in Hrest.
  enough (Hfix : ∀ e, e = ensureInputArea s → ensureInputArea e = e)
    by (apply Hfix; reflexivity).
  intros e He. unfold ensureInputArea in He.
  rewrite bool_decide_eq_false_2 in He by exact Hnone. cbn zeta in He.
  set (n := length (childNodes s) - trailingToRemove (rev (childNodes s))) in *.
  set (flags := replicate n false ++ replicate (length (childNodes s) - n) true)
    in *.
  simpl_state.
  destruct (last (take n (childNodes s)))
    as [[data|el i| |tagName children]|] eqn:Hlast.
  - apply last_Some in Hlast as [l' Hl']. rewrite Hl', rev_app_distr in Hrest.
    cbn [rev app trailingToRemove] in Hrest.
    destruct (trimIsEmpty data) eqn:Hd; [discriminate|]. subst e.
    apply ensureInputArea_settled; simpl_state.
    + rewrite Hl', rev_app_distr. cbn [rev app trailingToRemove].
      rewrite Hd. reflexivity.
    + rewrite Hl', last_snoc. exact Hd.
  - apply last_Some in Hlast as [l' Hl']. subst e.
    apply ensureInputArea_settled; simpl_state.
    + rewrite Hl', !rev_app_distr. reflexivity.
    + rewrite last_snoc. exact I.
  - subst e. apply ensureInputArea_settled; simpl_state; [exact Hrest|].
    rewrite Hlast. exact I.
  - subst e. apply ensureInputArea_settled; simpl_state; [exact Hrest|].
    rewrite Hlast. exact I.
  - apply last_None in Hlast. rewrite Hlast in Htags. exfalso. apply Hnone.
    symmetry. exact Htags.
Qed.

(** ** Clean-up, clearing the list, insertion undone *)

(** X8. [cleanupEmptyNodes] removes no tag and no text node that holds more
    than white space, and it leaves no text node of white space only:
    the text nodes and tokens after it are the tokens and the non-blank
    text nodes before it, in their order. *)
Theorem cleanup_keeps_tokens_and_text (s : State) :
  let s' := cleanupEmptyNodes s in
  querySelectorAllTags (childNodes s') = querySelectorAllTags (childNodes s)
  ∧ items (childNodes s') = solid (childNodes s)
  ∧ tidy (childNodes s')
  ∧ resourcesMap s' = resourcesMap s
  ∧ emitted s' = emitted s.
Proof.
  cbn zeta. unfold cleanupEmptyNodes. simpl_state.
  split; [apply tags_cleanup|]. split; [apply items_cleanup|].
  split; [apply tidy_cleanup|]. done.
Qed.

(** The items that are left when only tags are removed, by their id. *)
Lemma items_removeNodes (p : Node → bool) (q : Item → bool) (nodes : list Node) :
  (∀ data, p (Text data) = false ∧ q (IText data) = true) →
  p Br = false →
  (∀ tagName children, p (Elem tagName children) = false) →
  (∀ el i, p (Tag el i) = negb (q (IToken i))) →
  items (removeNodes p nodes) = List.filter q (items nodes).
Proof.
  intros HText HBr HElem HTag.
  assert (Hnode : ∀ n,
            items (if p n then [] else [removeIn p n])
            = List.filter q (itemsOfNode n)).
  { intros n. induction n as [data|el i| |tagName children IH] using Node_ind.
    - destruct (HText data) as [-> Hq]. cbn. rewrite Hq. reflexivity.
    - rewrite HTag. cbn. destruct (q (IToken i)); reflexivity.
    - rewrite HBr. reflexivity.
    - rewrite HElem. cbn [removeIn]. unfold items at 1.
      cbn [map concat itemsOfNode].
      rewrite app_nil_r, concat_map_concat, filter_concat, map_map.
      apply concat_map_ext_Forall. exact IH. }
  unfold removeNodes, items at 1.
  rewrite concat_map_concat. unfold items at 1.
  rewrite filter_concat, map_map. apply concat_map_ext_Forall.
  apply Forall_forall. intros n _. apply Hnode.
Qed.

Lemma filter_comm {A} (f g : A → bool) (l : list A) :
  List.filter f (List.filter g l) = List.filter g (List.filter f l).
Proof.
  induction l as [|a l IH]; [reflexivity|].
  cbn [List.filter]. destruct (f a) eqn:Hf, (g a) eqn:Hg; cbn [List.filter];
    rewrite ?Hf, ?Hg, IH; reflexivity.
Qed.

Lemma afterUpdate_emitted (s : State) (resources : list Resource) :
  emitted (runTask s (AfterUpdate resources)) = emitted s.
Proof.
  cbn [runTask]. destruct (blank s); [reflexivity|].
  destruct (ensureInputArea_spec (cleanupEmptyNodes s))
    as (_ & _ & _ & _ & _ & -> & _).
  reflexivity.
Qed.

(** X9. When the resource list becomes empty, the watcher removes every
    token, whatever the state was, and keeps every text node that holds
    more than white space; with no callback pending it reports the
    storage string that is left. *)
Theorem reconcile_empty_list (s : State) :
  ticks s = [] →
  let s' := reconcile [] s in
  querySelectorAllTags (childNodes s') = []
  ∧ solid (childNodes s')
    = List.filter (fun it => match it with IText _ => true | IToken _ => false end)
                  (solid (childNodes s))
  ∧ emitted s' = emitted s ++ [UpdateModelValue (getContent s')].
Proof.
  intros Hticks. cbn zeta. unfold reconcile, updateResources. cbn [foldl].
  set (s0 := setProps [] s).
  destruct (prune_spec [] s0) as (Htags & _ & _ & _ & Hpt & Hpe & _).
  cbn zeta in *.
  assert (Hnotags : querySelectorAllTags (childNodes (prune [] s0)) = []).
  { rewrite Htags. clear.
    induction (querySelectorAllTags (childNodes s0)) as [|t l IH];
      [reflexivity|exact IH]. }
  assert (Hsolid : solid (childNodes (prune [] s0))
    = List.filter (fun it => match it with IText _ => true | IToken _ => false end)
                  (solid (childNodes s))).
  { unfold prune. simpl_state. unfold solid.
    rewrite (items_removeNodes (notListed [])
               (fun it => match it with IText _ => true | IToken _ => false end));
      try done.
    apply filter_comm. }
  set (s1 := prune [] s0) in *.
  set (s2 := nextTick SyncValue (nextTick (AfterUpdate []) s1)).
  destruct (flush_spec s2) as (Hft & Hfs & _).
  split; [rewrite Hft; exact Hnotags|]. split; [rewrite Hfs; exact Hsolid|].
  unfold flush. subst s2. simpl_state. rewrite Hpt. subst s0. simpl_state.
  rewrite Hticks. cbn [app foldl].
  match goal with
  | |- context [runTask ?st (AfterUpdate [])] =>
      set (a := runTask st (AfterUpdate []));
      assert (Ha : emitted a = emitted s)
        by (subst a; rewrite afterUpdate_emitted; simpl_state; exact Hpe)
  end.
  change (runTask a SyncValue) with (syncValue a).
  unfold syncValue, getContent. simpl_state. rewrite Ha. reflexivity.
Qed.

Lemma filter_all_elem {A} (f : A → bool) (l : list A) :
  (∀ a, a ∈ l → f a = true) → List.filter f l = l.
Proof.
  induction l as [|a l IH]; intros Hf; [reflexivity|].
  cbn [List.filter]. rewrite (Hf a) by left. f_equal. apply IH.
  intros a' Ha'. apply Hf. right. exact Ha'.
Qed.

Lemma insertResourceTag_tags (resource : Resource) (s : State) :
  resourcesMap s !! id resource = None →
  let s' := insertResourceTag resource s in
  (∃ l1 l2,
     querySelectorAllTags (survivors s) = l1 ++ l2
     ∧ querySelectorAllTags (childNodes s') = l1 ++ (nextEl s, id resource) :: l2)
  ∧ emitted s' = emitted s ++ [UpdateModelValue (getContent s')].
Proof.
  intros Hnone. unfold insertResourceTag, survivors. rewrite Hnone. cbn zeta.
  destruct (selection s) as [| |range] eqn:Hsel.
  - unfold syncValue. simpl_state. split; [|done].
    exists (querySelectorAllTags (childNodes s)), [].
    rewrite tags_app, app_nil_r. done.
  - unfold syncValue. simpl_state. split; [|done].
    exists (querySelectorAllTags (childNodes s)), [].
    rewrite tags_app, app_nil_r. done.
  - destruct (deleteContents (childNodes s) range) as [nodes1 point] eqn:Hdel.
    destruct (insertNode_concat tagsOfNode nodes1 point
                (Tag (nextEl s) (id resource)))
      as (l1 & l2 & Hold & Hnew); [reflexivity|].
    destruct (insertNode nodes1 point (Tag (nextEl s) (id resource)))
      as [nodes2 k].
    unfold syncValue. simpl_state. split; [|done].
    exists l1, l2. rewrite tags_insert_text. cbn [fst tagsOfNode app] in *.
    split; [exact Hold|exact Hnew].
Qed.

(** X10. Inserting the tag of a new resource and removing the resource again
    leaves the tokens and the index as they were (a selected range stays
    deleted); three events are emitted: the two storage strings and
    [resource-removed]. *)
Theorem insert_then_remove (resource : Resource) (s : State) :
  wellFormed s →
  resourcesMap s !! id resource = None →
  let s1 := insertResourceTag resource s in
  let s2 := removeResource (id resource) s1 in
  querySelectorAllTags (childNodes s2) = querySelectorAllTags (survivors s)
  ∧ querySelectorAllTags (childNodes (flush s2))
    = querySelectorAllTags (survivors s)
  ∧ resourcesMap s2 = resourcesMap s
  ∧ emitted s2
    = emitted s ++ [UpdateModelValue (getContent s1);
                    UpdateModelValue (getContent s2);
                    ResourceRemoved (id resource)].
Proof.
  intros (_ & _ & Hfresh & _) Hnone. cbn zeta.
  destruct (insertResourceTag_new resource s Hnone) as (Hmap & _).
  destruct (insertResourceTag_tags resource s Hnone)
    as ((l1 & l2 & Hold & Hnew) & Hemit).
  cbn zeta in *.
  set (s1 := insertResourceTag resource s) in *.
  destruct (removeResource_acts (id resource) s1 (nextEl s) (id resource))
    as (_ & Htags & Hmap2 & _ & _ & Hemit2 & _).
  { rewrite Hmap. apply lookup_insert_eq. }
  { rewrite Hnew. apply elem_of_app. right. left. }
  cbn zeta in *.
  assert (Hback : querySelectorAllTags (childNodes (removeResource (id resource) s1))
                  = querySelectorAllTags (survivors s)).
  { rewrite Htags, Hnew, Hold, List.filter_app. cbn [List.filter].
    unfold keepsTag at 2. cbn [fst snd isElement].
    rewrite bool_decide_eq_true_2 by reflexivity. cbn [negb].
    rewrite <- List.filter_app. apply filter_all_elem.
    intros [el i] Ht. unfold keepsTag. cbn [fst snd isElement].
    rewrite bool_decide_eq_false_2; [reflexivity|].
    intros ->. rewrite <- Hold in Ht. apply survivors_tags, Hfresh in Ht. lia. }
  split; [exact Hback|].
  split; [rewrite (proj1 (flush_spec _)); exact Hback|].
  split.
  - rewrite Hmap2, Hmap. apply delete_insert_id. exact Hnone.
  - rewrite Hemit2, Hemit, <- app_assoc. reflexivity.
Qed.

(** ** Mounting with a saved value *)

Lemma last_occurrence (l : list (handle * jsstring)) (i : jsstring) :
  i ∈ l.*2 → ∃ pre el post, l = pre ++ (el, i) :: post ∧ i ∉ post.*2.
Proof.
  induction l as [|[el' i'] l IH]; intros Hi; [inversion Hi|].
  destruct (decide (i ∈ l.*2)) as [Hin|Hnot].
  - destruct (IH Hin) as (pre & el & post & -> & Hpost).
    exists ((el', i') :: pre), el, post. done.
  - cbn [fmap list_fmap snd] in Hi. apply elem_of_cons in Hi as [->|Hi]; [|done].
    exists [], el', l. done.
Qed.

Lemma matchAll_none (content : jsstring) :
  includes DELIM content = false → matchAll content = [].
Proof.
  intros Hinc. unfold matchAll. cbn [matchAllLoop].
  rewrite exec_none by exact Hinc. reflexivity.
Qed.

(** X11. When the component is mounted with a saved value whose markers name
    every resource of the list, the tokens after the mount are the
    markers of the value that the list has, in the order of the value:
    every token stands where its marker was and none is appended. *)
Theorem mount_restores_tokens (modelValue : jsstring)
        (resources : list Resource) :
  (∀ r, r ∈ resources → id r ∈ matchAll modelValue) →
  let s := flush (onMounted modelValue (setProps resources mounted)) in
  tokenIds (childNodes s)
  = List.filter (fun i => bool_decide (is_Some (findById resources i)))
                (matchAll modelValue).
Proof.
  intros Hall. cbn zeta. unfold onMounted.
  set (s0 := setProps resources mounted).
  set (s1 := if truthy (Some modelValue) then setContent modelValue s0 else s0).
  change (propsResources s0) with resources.
  assert (Htok : tokenIds (childNodes s1)
                 = List.filter (fun i => bool_decide (is_Some (findById resources i)))
                               (matchAll modelValue)).
  { subst s1. destruct modelValue as [|c v]; [reflexivity|].
    cbn [truthy]. apply setContent_tokenIds. }
  assert (Hlisted : tagsListed resources s1).
  { intros [el i] Ht. cbn [snd].
    assert (Hi : i ∈ tokenIds (childNodes s1)).
    { apply list_elem_of_fmap. exists (el, i). done. }
    rewrite Htok in Hi. apply list_elem_of_In, filter_In in Hi as [_ Hi].
    apply bool_decide_eq_true_1 in Hi. exact Hi. }
  assert (Hmap : ∀ r, r ∈ resources → is_Some (resourcesMap s1 !! id r)).
  { intros r Hr. pose proof (Hall r Hr) as Hi.
    destruct (includes DELIM modelValue) eqn:Hinc;
      [|rewrite matchAll_none in Hi by exact Hinc; inversion Hi].
    assert (Hin : id r ∈ tokenIds (childNodes s1)).
    { rewrite Htok. apply list_elem_of_In, filter_In.
      split; [apply list_elem_of_In; exact Hi|].
      apply bool_decide_eq_true_2.
      apply findById_elem. exact Hr. }
    assert (Hlast : lastIndexed s1).
    { subst s1. destruct modelValue as [|c v]; [discriminate|].
      cbn [truthy]. unfold setContent. rewrite Hinc.
      unfold parseContentWithResources.
      destruct (parseLoop_invariants (S (length (c :: v))) (c :: v)
                  (setTextContent [] s0)) as (_ & _ & H3).
      - intros i el i' _ H. inversion H.
      - split; [intros el i H; inversion H|].
        intros i el H. subst s0. unfold mounted in H. simpl_state.
        rewrite lookup_empty in H. discriminate.
      - intros [|? ?] el i post H; discriminate.
      - exact H3. }
    apply last_occurrence in Hin as (pre & el & post & Heq & Hpost).
    exists el. eapply Hlast; [exact Heq|exact Hpost]. }
  unfold updateResources.
  destruct (prune_listed resources s1 Hlisted) as [Hnodes Hmap'].
  rewrite fold_updateOne_indexed
    by (intros r Hr; rewrite Hmap'; apply Hmap; exact Hr).
  unfold tokenIds at 1. rewrite (proj1 (flush_spec _)). simpl_state.
  rewrite Hnodes. exact Htok.
Qed.

(** ** Labels *)

Lemma orElse_nonempty (a b : jsstring) : b ≠ [] → orElse a b ≠ [].
Proof. intros Hb. destruct a; [exact Hb|discriminate]. Qed.

(** The pieces of [split]: the last piece holds no separator, and what
    comes before it is empty or ends with a separator. *)
Lemma split_last (isSeparator : N → bool) (s : jsstring) :
  ∃ pieces piece dir,
    split isSeparator s = pieces ++ [piece]
    ∧ s = dir ++ piece
    ∧ Forall (fun c => isSeparator c = false) piece
    ∧ (pieces = [] → dir = [])
    ∧ (pieces ≠ [] → ∃ d c, dir = d ++ [c] ∧ isSeparator c = true).
Proof.
  induction s as [|c s (pieces & piece & dir & Hs & Hdir & Hpiece & Hnil & Hcons)].
  - exists [], [], []. repeat split; done.
  - cbn [split]. destruct (isSeparator c) eqn:Hc.
    + exists ([] :: pieces), piece, (c :: dir). rewrite Hs, Hdir.
      repeat split; try done. intros _.
      destruct pieces as [|p ps].
      * rewrite Hnil by reflexivity. exists [], c. done.
      * destruct Hcons as (d & c' & -> & Hc'); [done|].
        exists (c :: d), c'. done.
    + rewrite Hs. destruct pieces as [|p ps]; cbn [app].
      * exists [], (c :: piece), []. rewrite Hdir, Hnil by reflexivity.
        repeat split; try done. constructor; assumption.
      * exists ((c :: p) :: ps), piece, (c :: dir). rewrite Hdir.
        repeat split; try done. intros _.
        destruct Hcons as (d & c' & -> & Hc'); [done|].
        exists (c :: d), c'. done.
Qed.

Lemma fileNameOf_spec (path : jsstring) (c : N) :
  last path = Some c → isPathSeparator c = false →
  ∃ dir,
    path = dir ++ fileNameOf path
    ∧ fileNameOf path ≠ []
    ∧ Forall (fun u => isPathSeparator u = false) (fileNameOf path)
    ∧ (dir = [] ∨ ∃ d u, dir = d ++ [u] ∧ isPathSeparator u = true).
Proof.
  intros Hlast Hc. unfold fileNameOf.
  destruct (split_last isPathSeparator path)
    as (pieces & piece & dir & Hs & Hdir & Hpiece & Hnil & Hcons).
  rewrite Hs, last_snoc. cbn [default].
  assert (Hne : piece ≠ []).
  { intros ->. rewrite app_nil_r in Hdir. subst dir.
    destruct pieces as [|p ps].
    - rewrite Hnil in Hlast by reflexivity. discriminate.
    - destruct Hcons as (d & u & -> & Hu); [done|].
      rewrite last_snoc in Hlast. injection Hlast as ->. congruence. }
  destruct piece as [|u piece]; [done|]. cbn [orElse].
  exists dir. split; [exact Hdir|]. split; [done|]. split; [exact Hpiece|].
  destruct pieces as [|p ps]; [left; apply Hnil; reflexivity|right].
  apply Hcons. done.
Qed.

(** X12. Every tag has a label: [getResourceLabel] never returns the empty
    string, whatever fields the resource lacks. *)
Theorem getResourceLabel_nonempty (resource : Resource) :
  getResourceLabel resource ≠ [].
Proof.
  assert (Hfile : ∀ p, p ≠ [] → fileNameOf p ≠ []).
  { intros p Hp. unfold fileNameOf. apply orElse_nonempty. exact Hp. }
  assert (Happ : ∀ a b : jsstring, a ≠ [] → a ++ b ≠ []).
  { intros [|x a] b Ha; [done|discriminate]. }
  unfold getResourceLabel. destruct (type resource).
  - assert (Hname : fileNameOf (orElse (orEmpty (filePath resource)) (js "code")) ≠ [])
      by (apply Hfile, orElse_nonempty; discriminate).
    destruct (startLine resource), (endLine resource);
      try apply Happ; exact Hname.
  - apply Hfile, orElse_nonempty. discriminate.
  - apply orElse_nonempty. discriminate.
  - apply orElse_nonempty. discriminate.
Qed.

(** X13. The label of a code or file resource starts with the file name: for
    a path that does not end with a separator, the text after the last
    [/] or [\], and for a file resource or a code resource without line
    numbers the label is that name. *)
Theorem label_is_file_name (resource : Resource) (path : jsstring) (c : N) :
  type resource = Code ∨ type resource = File →
  filePath resource = Some path →
  last path = Some c → isPathSeparator c = false →
  ∃ dir fileName lines,
    path = dir ++ fileName
    ∧ getResourceLabel resource = fileName ++ lines
    ∧ fileName ≠ []
    ∧ Forall (fun u => isPathSeparator u = false) fileName
    ∧ (dir = [] ∨ ∃ d u, dir = d ++ [u] ∧ isPathSeparator u = true)
    ∧ (type resource = File ∨ startLine resource = None → lines = []).
Proof.
  intros Htype Hpath Hlast Hc.
  destruct (fileNameOf_spec path c Hlast Hc) as (dir & Hdir & Hne & Hsep & Hd).
  assert (Hp : path ≠ []) by (intros ->; discriminate).
  assert (Hor : ∀ b, orElse path b = path) by (destruct path; done).
  unfold getResourceLabel. rewrite Hpath. cbn [orEmpty].
  destruct Htype as [->| ->].
  - rewrite Hor.
    destruct (startLine resource) as [a|] eqn:Ha;
      [destruct (endLine resource) as [b|]|].
    + exists dir, (fileNameOf path),
        (js "(" ++ numberToString a ++ js "-" ++ numberToString b ++ js ")").
      repeat split; try done. intros [H|H]; discriminate.
    + exists dir, (fileNameOf path), (js "(" ++ numberToString a ++ js ")").
      repeat split; try done. intros [H|H]; discriminate.
    + exists dir, (fileNameOf path), []. rewrite app_nil_r.
      repeat split; done.
  - rewrite !Hor. exists dir, (fileNameOf path), [].
    rewrite app_nil_r. done.
Qed.

(** ** Icons *)

Lemma find_first {A} (f : A → bool) (l : list A) (n : nat) (x : A) :
  x ∈ take n l → f x = true → ∃ y, List.find f l = Some y ∧ y ∈ take n l.
Proof.
  revert n. induction l as [|a l IH]; intros [|n] Hx Hf;
    cbn [take] in Hx; try (inversion Hx; fail).
  cbn [List.find take]. destruct (f a) eqn:Ha.
  - exists a. split; [reflexivity|left].
  - apply elem_of_cons in Hx as [->|Hx]; [congruence|].
    destruct (IH n Hx Hf) as (y & Hy & Hin). exists y. split; [exact Hy|].
    right. exact Hin.
Qed.

Lemma startsWith_refl (s : jsstring) : startsWith s s = true.
Proof.
  induction s as [|c s IH]; [reflexivity|].
  cbn [startsWith]. rewrite decide_True by reflexivity. exact IH.
Qed.

Lemma includes_refl (s : jsstring) : includes s s = true.
Proof. destruct s; cbn [includes]; rewrite startsWith_refl; reflexivity. Qed.

Lemma lookupOwn_None (lang : jsstring) :
  lang ∉ languageIconMap.*1 → lookupOwn lang = None.
Proof.
  intros Hnot. unfold lookupOwn.
  destruct (List.find _ languageIconMap) as [p|] eqn:Hfind; [|reflexivity].
  apply find_some in Hfind as [Hin Hp]. apply bool_decide_eq_true_1 in Hp.
  exfalso. apply Hnot. apply list_elem_of_fmap. exists p.
  split; [symmetry; exact Hp|]. apply list_elem_of_In. exact Hin.
Qed.

Lemma table_no_default :
  Forall (fun p : jsstring * jsstring => p.2 ≠ js "vs-icon-file") languageIconMap.
Proof. apply (bool_decide_unpack _). vm_compute. exact I. Qed.

(** X14. The partial match takes the first key of the table that occurs in
    the lower-cased id, and the one-letter key [c] is the fifth: an id
    with a [c] in it that is no key itself gets the icon of
    [javascript], [typescript], [python], [java] or [c], and never the
    icon of a later key such as [cpp], [css] or [docker]. *)
Theorem icon_of_id_holding_c (languageId : jsstring) :
  languageId ≠ [] →
  includes (js "c") (toLowerCase languageId) = true →
  toLowerCase languageId ∉ languageIconMap.*1 →
  toLowerCase languageId ∉ objectPrototypeKeys →
  getLanguageIcon (Some languageId)
  ∈ IconClass <$> [js "vs-icon-javascript"; js "vs-icon-typescript";
                   js "vs-icon-python"; js "vs-icon-java"; js "vs-icon-c"].
Proof.
  intros Hne Hc Hkey Hproto. unfold getLanguageIcon.
  destruct languageId as [|u languageId]; [done|]. cbn [truthy negb orEmpty].
  rewrite lookupOwn_None by exact Hkey.
  rewrite bool_decide_eq_false_2 by exact Hproto.
  assert (Hfive : take 5 languageIconMap
                  = [(js "javascript", js "vs-icon-javascript");
                     (js "typescript", js "vs-icon-typescript");
                     (js "python", js "vs-icon-python");
                     (js "java", js "vs-icon-java");
                     (js "c", js "vs-icon-c")]) by reflexivity.
  destruct (find_first
              (fun p : jsstring * jsstring =>
                 includes p.1 (toLowerCase (u :: languageId)))
              languageIconMap 5 (js "c", js "vs-icon-c"))
    as (p & -> & Hp).
  - rewrite Hfive. do 4 right. left.
  - exact Hc.
  - rewrite Hfive in Hp. apply list_elem_of_fmap_2'  with (x := p.2).
    + repeat (apply elem_of_cons in Hp as [->|Hp]); cbn [snd];
        try (inversion Hp; fail);
        solve [repeat first [left | right]].
    + reflexivity.
Qed.

(** X15. [getLanguageIcon] falls back to the file icon exactly when there is
    no id, or when no key of the table occurs in the lower-cased id
    (which then holds none of the letters [c], [r] and [d], keys of the
    table) and the id is no property of [Object.prototype]. *)
Theorem default_icon_iff (languageId : option jsstring) :
  getLanguageIcon languageId = IconClass (js "vs-icon-file")
  ↔ (truthy languageId = false
     ∨ ((toLowerCase (orEmpty languageId) ∉ objectPrototypeKeys)
        ∧ Forall (fun p : jsstring * jsstring =>
                    includes p.1 (toLowerCase (orEmpty languageId)) = false)
                 languageIconMap)).
Proof.
  pose proof table_no_default as Htable. rewrite Forall_forall in Htable.
  unfold getLanguageIcon. destruct (truthy languageId) eqn:Ht; cbn [negb];
    [|split; auto].
  set (lang := toLowerCase (orEmpty languageId)).
  split.
  - intros H. right. unfold lookupOwn in H.
    destruct (List.find _ languageIconMap) as [p|] eqn:Hown in H.
    { cbn in H. injection H as H. apply find_some in Hown as [Hin _].
      exfalso. apply (Htable p); [apply list_elem_of_In; exact Hin|exact H]. }
    cbn [fmap option_fmap option_map] in H.
    destruct (bool_decide (lang ∈ objectPrototypeKeys)) eqn:Hproto;
      [discriminate|].
    apply bool_decide_eq_false_1 in Hproto. split; [exact Hproto|].
    destruct (List.find (fun p : jsstring * jsstring => includes p.1 lang)
                        languageIconMap) as [p|] eqn:Hpart.
    { injection H as H. apply find_some in Hpart as [Hin _].
      exfalso. apply (Htable p); [apply list_elem_of_In; exact Hin|exact H]. }
    apply Forall_forall. intros p Hp.
    apply (find_none _ _ Hpart p). apply list_elem_of_In. exact Hp.
  - intros [H|[Hproto Hnone]]; [discriminate|].
    rewrite Forall_forall in Hnone.
    rewrite lookupOwn_None.
    + rewrite bool_decide_eq_false_2 by exact Hproto.
      destruct (List.find (fun p : jsstring * jsstring => includes p.1 lang)
                          languageIconMap) as [p|] eqn:Hpart; [|reflexivity].
      apply find_some in Hpart as [Hin Hp].
      rewrite Hnone in Hp by (apply list_elem_of_In; exact Hin). discriminate.
    + intros Hkey. apply list_elem_of_fmap in Hkey as (p & Hp & Hin).
      pose proof (Hnone p Hin) as Hinc. rewrite <- Hp, includes_refl in Hinc.
      discriminate.
Qed.

(** ** The caret by text position *)

Lemma getTextNodeAtPositionFrom_spec (texts : list jsstring)
      (index currentPos position : nat) :
  currentPos ≤ position →
  match getTextNodeAtPositionFrom texts index currentPos position with
  | Some (k, offset) =>
      ∃ j node,
        k = index + j ∧ texts !! j = Some node
        ∧ currentPos + length (concat (take j texts)) + offset = position
        ∧ offset ≤ length node
        ∧ ∀ j', j' < j →
                currentPos + length (concat (take (S j') texts)) < position
  | None => texts = [] ∨ currentPos + length (concat texts) < position
  end.
Proof.
  revert index currentPos. induction texts as [|node texts IH];
    intros index currentPos Hle; cbn [getTextNodeAtPositionFrom]; [left; done|].
  destruct (Nat.leb_spec position (currentPos + length node)) as [Hin|Hout].
  - exists 0, node. cbn [take concat length lookup list_lookup].
    repeat split; lia.
  - specialize (IH (S index) (currentPos + length node) ltac:(lia)).
    destruct (getTextNodeAtPositionFrom texts (S index)
                (currentPos + length node) position) as [[k offset]|].
    + destruct IH as (j & node' & -> & Hj & Hpos & Hoff & Hfirst).
      exists (S j), node'. cbn [take concat]. rewrite length_app.
      repeat split; try done; try lia.
      intros [|j'] Hlt.
      * cbn [take concat]. rewrite app_nil_r. exact Hout.
      * change (take (S (S j')) (node :: texts))
          with (node :: take (S j') texts).
        cbn [concat]. rewrite length_app.
        specialize (Hfirst j' ltac:(lia)). lia.
    + right. cbn [concat]. rewrite length_app.
      destruct IH as [->|IH]; [cbn; lia|lia].
Qed.

(** X16. [setCursorPosition] finds the first text node, in document order,
    up to whose end the text is at least as long as the position, or
    none when there is no text node or the position lies behind the
    text.  It collapses the range at [min(position, length)] in that
    node, not at the offset of the position inside the node: the two
    agree exactly when no text precedes the node or the position is the
    end of the node. *)
Theorem setCursorPosition_spec (texts : list jsstring) (position : nat) :
  match getTextNodeAtPosition texts position, setCursorPosition texts position with
  | Some (k, offset), Some (k', offset') =>
      k' = k
      ∧ ∃ node,
          texts !! k = Some node
          ∧ length (concat (take k texts)) + offset = position
          ∧ offset ≤ length node
          ∧ (∀ j, j < k → length (concat (take (S j) texts)) < position)
          ∧ offset' = position `min` length node
          ∧ (offset' = offset ↔ concat (take k texts) = [] ∨ offset = length node)
  | None, None => texts = [] ∨ length (concat texts) < position
  | _, _ => False
  end.
Proof.
  unfold setCursorPosition, getTextNodeAtPosition.
  pose proof (getTextNodeAtPositionFrom_spec texts 0 0 position ltac:(lia)) as H.
  destruct (getTextNodeAtPositionFrom texts 0 0 position) as [[k offset]|];
    [|exact H].
  destruct H as (j & node & -> & Hj & Hpos & Hoff & Hfirst). cbn [Nat.add] in *.
  split; [reflexivity|]. exists node.
  rewrite (list_lookup_total_correct _ _ _ Hj).
  split; [exact Hj|]. split; [exact Hpos|]. split; [exact Hoff|].
  split; [exact Hfirst|]. split; [reflexivity|]. split.
  - intros Heq. destruct (concat (take j texts)) as [|c l]; [left; done|right].
    cbn [length] in Hpos. lia.
  - intros [Hnil|Hend].
    + rewrite Hnil in Hpos. cbn [length] in Hpos. lia.
    + lia.
Qed.

(** ** The display text *)

(** X17. A document without tokens reads the same in both modes: the display
    text, the storage string and the text of the text nodes are one
    string. *)
Theorem display_without_tokens (s : State) :
  tokenIds (childNodes s) = [] →
  getDisplayContent s = getContent s
  ∧ getContent s = textOf (childNodes s).
Proof.
  unfold getDisplayContent, getContent, extractTextFromNode, textOf, tokenIds,
    querySelectorAllTags.
  generalize (propsResources s) as resources. intros resources.
  induction (childNodes s) as [|n nodes IHn]; [done|].
  cbn [map concat]. rewrite fmap_app. intros Hnil.
  apply app_eq_nil in Hnil as [Hn Hrest].
  destruct (IHn Hrest) as [IH1 IH2]. rewrite IH1, IH2.
  enough (Hnode : extractChildDisplay resources n = extractChild n
                  ∧ extractChild n = textOfNode n)
    by (destruct Hnode as [-> ->]; done).
  clear -Hn. induction n as [data|el i| |tagName children IH] using Node_ind.
  - done.
  - discriminate.
  - done.
  - cbn [extractChildDisplay extractChild textOfNode tagsOfNode] in *.
    induction IH as [|c children Hc _ IHc]; [done|].
    cbn [map concat] in *. rewrite fmap_app in Hn.
    apply app_eq_nil in Hn as [Hn1 Hn2].
    destruct (Hc Hn1) as [-> ->]. destruct (IHc Hn2) as [-> ->]. done.
Qed.

(** ** Input *)

(** X18. An input event that leaves the div blank (white space only, no tag)
    reports the white space as the value and defers the clearing; after
    the tick the div has no child and reads as the empty string, and no
    further value is emitted. *)
Theorem input_on_blank_clears (s : State) :
  blank s = true → ticks s = [] →
  let result := handleInput s in
  result.2 = true
  ∧ emitted result.1 = emitted s ++ [UpdateModelValue (getContent s); InputEvent]
  ∧ childNodes (afterInput result) = []
  ∧ getContent (afterInput result) = []
  ∧ emitted (afterInput result) = emitted result.1.
Proof.
  intros Hblank Hticks. cbn zeta. unfold handleInput, afterInput.
  rewrite Hblank. cbn [fst snd]. unfold syncValue, flush. simpl_state.
  rewrite Hticks. cbn [foldl]. unfold clearIfBlank.
  assert (Hb : blank {| childNodes := childNodes s;
                        resourcesMap := resourcesMap s;
                        selection := selection s;
                        propsResources := propsResources s;
                        nextEl := nextEl s;
                        emitted := (emitted s ++ [UpdateModelValue (getContent s)])
                                   ++ [InputEvent];
                        ticks := [];
                        wrapped := wrapped s |} = true) by exact Hblank.
  rewrite Hb. simpl_state. rewrite <- app_assoc. done.
Qed.

(** X19. An input event on a div that is not blank defers [ensureInputArea]:
    after the tick every token and every text node that holds more than
    white space is there, in order, and the only value emitted is the
    one of the event. *)
Theorem input_keeps_content (s : State) :
  blank s = false → ticks s = [] →
  let result := handleInput s in
  result.2 = false
  ∧ emitted (afterInput result)
    = emitted s ++ [UpdateModelValue (getContent s); InputEvent]
  ∧ querySelectorAllTags (childNodes (afterInput result))
    = querySelectorAllTags (childNodes s)
  ∧ solid (childNodes (afterInput result)) = solid (childNodes s).
Proof.
  intros Hblank Hticks. cbn zeta. unfold handleInput, afterInput.
  rewrite Hblank. cbn [fst snd]. unfold syncValue, flush. simpl_state.
  rewrite Hticks. cbn [app foldl runTask].
  match goal with
  | |- context [ensureInputArea ?st] =>
      destruct (ensureInputArea_spec st) as (-> & -> & _ & _ & _ & -> & _)
  end.
  simpl_state. rewrite <- app_assoc. done.
Qed.

(** ** The chat page *)

Lemma handleResourceRemoved_resources (resourceId : jsstring) (h : ChatPage.t) :
  ChatPage.resources (handleResourceRemoved resourceId h)
  = List.filter (fun r => negb (bool_decide (id r = resourceId)))
                (ChatPage.resources h).
Proof.
  unfold handleResourceRemoved.
  destruct (findById (ChatPage.resources h) resourceId) as [r|]; [|reflexivity].
  destruct (bool_decide (type r = Code)); reflexivity.
Qed.

Lemma findById_filter (resources : list Resource) (i j : jsstring) (r : Resource) :
  findById resources j = Some r → j ≠ i →
  findById (List.filter (fun r => negb (bool_decide (id r = i))) resources) j
  = Some r.
Proof.
  unfold findById. intros Hfind Hne.
  induction resources as [|r0 resources IH]; [discriminate|].
  cbn [List.find List.filter] in *.
  destruct (bool_decide (id r0 = j)) eqn:Hj.
  - apply bool_decide_eq_true_1 in Hj.
    rewrite bool_decide_eq_false_2 by congruence. cbn [negb List.find].
    rewrite bool_decide_eq_true_2 by exact Hj. exact Hfind.
  - destruct (bool_decide (id r0 = i)); cbn [negb List.find];
      rewrite ?Hj; apply IH; exact Hfind.
Qed.

(** X20. The close button of a token and the answer of the page.  On a
    component whose tokens are all indexed and listed and whose
    resources all have their entry, [removeResource], then
    [handleResourceRemoved] of the page, then the watcher with the list
    of the page: the resource is out of the list, the tokens of that id
    are out of the document, every other token is where it was, and no
    element is created. *)
Theorem removal_round (i : jsstring) (s : State) (h : ChatPage.t) :
  wellFormed s →
  ChatPage.resources h = propsResources s →
  tagsListed (propsResources s) s →
  (∀ r, r ∈ propsResources s → is_Some (resourcesMap s !! id r)) →
  (∃ el, (el, i) ∈ querySelectorAllTags (childNodes s)) →
  let s1 := removeResource i s in
  let h' := handleResourceRemoved i h in
  let s2 := reconcile (ChatPage.resources h') s1 in
  (i ∉ id <$> ChatPage.resources h')
  ∧ querySelectorAllTags (childNodes s2)
    = List.filter (fun t : handle * jsstring => negb (bool_decide (t.2 = i)))
                  (querySelectorAllTags (childNodes s))
  ∧ resourcesMap s2 = delete i (resourcesMap s)
  ∧ nextEl s2 = nextEl s.
Proof.
  intros (Hreg & Hex & _) Hres Hlisted Hall [el Hel]. cbn zeta.
  rewrite handleResourceRemoved_resources, Hres.
  set (kept := List.filter (fun r => negb (bool_decide (id r = i)))
                           (propsResources s)).
  pose proof (Hreg _ _ Hel) as Hmap.
  destruct (removeResource_acts i s el i Hmap Hel)
    as (_ & Htags & Hmap1 & _ & Hnext1 & _).
  cbn zeta in *. set (s1 := removeResource i s) in *.
  assert (Htags1 : querySelectorAllTags (childNodes s1)
                   = List.filter (fun t : handle * jsstring =>
                                    negb (bool_decide (t.2 = i)))
                                 (querySelectorAllTags (childNodes s))).
  { rewrite Htags. apply filter_ext_in. intros [el' i'] Ht.
    apply list_elem_of_In in Ht. unfold keepsTag. cbn [fst snd isElement].
    f_equal. destruct (decide (el' = el)) as [->|Hne].
    - rewrite bool_decide_eq_true_2 by reflexivity.
      rewrite bool_decide_eq_true_2; [reflexivity|]. eapply Hex; eassumption.
    - rewrite bool_decide_eq_false_2 by exact Hne.
      rewrite bool_decide_eq_false_2; [reflexivity|].
      intros ->. apply Hne. pose proof (Hreg _ _ Ht) as Hm. congruence. }
  split.
  { intros Hi. apply list_elem_of_fmap in Hi as (r & -> & Hr).
    subst kept. apply list_elem_of_In, filter_In in Hr as [_ Hr].
    rewrite bool_decide_eq_true_2 in Hr by reflexivity. discriminate. }
  assert (Hlisted1 : tagsListed kept (setProps kept s1)).
  { intros t Ht. simpl_state. rewrite Htags1 in Ht.
    apply list_elem_of_In, filter_In in Ht as [Ht Hne].
    apply list_elem_of_In in Ht. apply negb_true_iff, bool_decide_eq_false_1 in Hne.
    destruct (Hlisted t Ht) as [r Hr]. exists r. subst kept.
    apply findById_filter; assumption. }
  assert (Hall1 : ∀ r, r ∈ kept → is_Some (resourcesMap s1 !! id r)).
  { intros r Hr. subst kept. apply list_elem_of_In, filter_In in Hr as [Hr Hne].
    apply negb_true_iff, bool_decide_eq_false_1 in Hne.
    rewrite Hmap1, lookup_delete_ne by congruence.
    apply Hall, list_elem_of_In, Hr. }
  unfold reconcile, updateResources.
  destruct (prune_listed kept (setProps kept s1) Hlisted1) as [Hnodes Hmap'].
  rewrite fold_updateOne_indexed
    by (intros r Hr; rewrite Hmap'; simpl_state; apply Hall1; exact Hr).
  match goal with
  | |- context [flush ?st] =>
      destruct (flush_spec st) as (-> & _ & -> & _ & -> & _)
  end.
  simpl_state. rewrite Hnodes, Hmap'.
  destruct (prune_spec kept (setProps kept s1)) as (_ & _ & _ & -> & _).
  simpl_state. done.
Qed.





(** ** Twice the same *)

(** X22. A second [removeResource] of the same id does nothing: the tag is
    removed and [resource-removed] is emitted at most once. *)
Theorem removeResource_twice (resourceId : jsstring) (s : State) :
  removeResource resourceId (removeResource resourceId s)
  = removeResource resourceId s.
Proof.
  enough (H : ∀ s', s' = removeResource resourceId s →
                    removeResource resourceId s' = s')
    by (apply H; reflexivity).
  intros s' Hs'. unfold removeResource in Hs'.
  destruct (resourcesMap s !! resourceId) as [tag|] eqn:Hmap.
  - destruct (hasParent tag s) eqn:Ha; subst s'.
    + unfold removeResource, syncValue. simpl_state.
      rewrite lookup_delete_eq. reflexivity.
    + unfold removeResource. rewrite Hmap, Ha. reflexivity.
  - subst s'. unfold removeResource. rewrite Hmap. reflexivity.
Qed.

(** X23. A second [insertResourceTag] of the same resource does nothing, with
    any selection: one resource never gets two tags from two
    insertions. *)
Theorem insertResourceTag_twice (resource : Resource) (s : State) :
  insertResourceTag resource (insertResourceTag resource s)
  = insertResourceTag resource s.
Proof.
  destruct (resourcesMap s !! id resource) as [el|] eqn:Hmap.
  - rewrite (insertResourceTag_known resource s el Hmap).
    apply (insertResourceTag_known resource s el Hmap).
  - destruct (insertResourceTag_new resource s Hmap) as (Hnew & _).
    cbn zeta in Hnew.
    apply (insertResourceTag_known _ _ (nextEl s)).
    rewrite Hnew. apply lookup_insert_eq.
Qed.

(** ** What the watchers always do *)

Lemma updateOne_listed (resources : list Resource) (s : State) (r : Resource) :
  r ∈ resources → tagsListed resources s → tagsListed resources (updateOne s r).
Proof.
  intros Hr Hlisted.
  assert (Hinsert : tagsListed resources (insertResourceTag r s)).
  { destruct (resourcesMap s !! id r) as [el|] eqn:Hmap.
    - rewrite (insertResourceTag_known _ _ _ Hmap). exact Hlisted.
    - destruct (insertResourceTag_new r s Hmap) as (_ & _ & _ & _ & _ & Hperm).
      cbn zeta in Hperm. intros t Ht. rewrite Hperm in Ht.
      apply elem_of_cons in Ht as [->|Ht].
      + apply findById_elem. exact Hr.
      + apply Hlisted, survivors_tags, Ht. }
  unfold updateOne. destruct (resourcesMap s !! id r) as [el|]; [exact Hlisted|].
  destruct (bool_decide (type r = Code) && truthy (filePath r)); [|exact Hinsert].
  destruct (findTagByFilePath r s) as [[sameFileTag oldResourceId]|];
    [|exact Hinsert].
  destruct (decide (oldResourceId = id r)); [exact Hlisted|].
  intros t Ht. unfold setAttribute in Ht. simpl_state.
  rewrite tags_setAttribute in Ht.
  apply list_elem_of_fmap in Ht as (t0 & -> & Ht0). unfold rekeyed.
  destruct (decide (t0.1 = sameFileTag)).
  - apply findById_elem. exact Hr.
  - apply Hlisted. exact Ht0.
Qed.

Lemma fold_updateOne_listed (resources todo : list Resource) (s : State) :
  (∀ r, r ∈ todo → r ∈ resources) →
  tagsListed resources s → tagsListed resources (foldl updateOne s todo).
Proof.
  revert s. induction todo as [|r todo IH]; intros s Hsub Hlisted; [exact Hlisted|].
  cbn [foldl]. apply IH.
  - intros r' Hr'. apply Hsub. right. exact Hr'.
  - apply updateOne_listed; [apply Hsub; left|exact Hlisted].
Qed.

Lemma flush_last_sync (s : State) (tasks : list Task) :
  ticks s = tasks ++ [SyncValue] →
  ∃ earlier,
    emitted (flush s) = earlier ++ [UpdateModelValue (getContent (flush s))].
Proof.
  intros Hticks. unfold flush. rewrite Hticks, foldl_app. cbn [foldl runTask].
  eexists. unfold syncValue, getContent. simpl_state. reflexivity.
Qed.

(** X24. After the watcher of the resources and its tick, from any state
    and for any list, every token of the document has an id of the
    list, and the last event emitted is [update:modelValue] with the
    storage string of the document as it then is. *)
Theorem reconcile_listed_and_reported (resources : list Resource) (s : State) :
  Forall (fun i => i ∈ id <$> resources)
         (tokenIds (childNodes (reconcile resources s)))
  ∧ ∃ earlier,
      emitted (reconcile resources s)
      = earlier ++ [UpdateModelValue (getContent (reconcile resources s))].
Proof.
  split.
  - unfold reconcile, updateResources.
    assert (Hlisted : tagsListed resources
                        (foldl updateOne (prune resources (setProps resources s))
                               resources)).
    { apply fold_updateOne_listed; [done|].
      intros t Ht.
      destruct (prune_spec resources (setProps resources s)) as (Htags & _).
      cbn zeta in Htags. rewrite Htags in Ht.
      apply list_elem_of_In, filter_In in Ht as [_ Ht].
      apply keepsTag_notListed. exact Ht. }
    apply Forall_forall. intros i Hi. unfold tokenIds in Hi.
    rewrite (proj1 (flush_spec _)) in Hi. simpl_state.
    apply list_elem_of_fmap in Hi as (t & -> & Ht).
    destruct (Hlisted t Ht) as [r Hf]. apply findById_Some in Hf as [<- Hr].
    apply list_elem_of_fmap_2. exact Hr.
  - unfold reconcile, updateResources. eapply flush_last_sync. simpl_state.
    reflexivity.
Qed.

Lemma parseLoop_emitted (fuel : nat) (rest : jsstring) (s : State) :
  emitted (parseLoop fuel rest s) = emitted s.
Proof.
  revert rest s. induction fuel as [|fuel IH]; intros rest s; [reflexivity|].
  cbn [parseLoop]. destruct (exec rest) as [[[before cap] rest']|].
  - rewrite IH. destruct before, (findById _ cap); reflexivity.
  - destruct rest; reflexivity.
Qed.

(** X25. The watcher of [modelValue] emits nothing, neither at once nor
    in the tick it defers: a value set from outside is not echoed as
    [update:modelValue]. *)
Theorem watchModelValue_silent (newVal : jsstring) (s : State) :
  ticks s = [] →
  emitted (watchModelValue newVal s) = emitted s
  ∧ emitted (flush (watchModelValue newVal s)) = emitted s.
Proof.
  intros Hticks.
  assert (Hset : emitted (setContent newVal s) = emitted s
                 ∧ emitted (flush (setContent newVal s)) = emitted s).
  { unfold setContent. destruct (includes DELIM newVal).
    - unfold parseContentWithResources, flush. simpl_state.
      rewrite !parseLoop_emitted. simpl_state. split; [reflexivity|].
      assert (Ht : ∀ fuel rest s0, ticks (parseLoop fuel rest s0) = ticks s0).
      { clear. induction fuel as [|fuel IH]; intros rest s0; [reflexivity|].
        cbn [parseLoop]. destruct (exec rest) as [[[before cap] rest']|].
        - rewrite IH. destruct before, (findById _ cap); reflexivity.
        - destruct rest; reflexivity. }
      rewrite Ht. simpl_state. rewrite Hticks. cbn [app foldl runTask].
      match goal with
      | |- context [ensureInputArea ?st] =>
          destruct (ensureInputArea_spec st) as (_ & _ & _ & _ & _ & -> & _)
      end.
      simpl_state. rewrite ?parseLoop_emitted. reflexivity.
    - unfold flush. simpl_state. rewrite Hticks. split; reflexivity. }
  unfold watchModelValue. cbn zeta.
  assert (Hsame : emitted s = emitted s ∧ emitted (flush s) = emitted s).
  { split; [reflexivity|]. unfold flush. rewrite Hticks. reflexivity. }
  destruct (decide (newVal = getContent s)); [exact Hsame|].
  destruct (truthy (Some newVal) && truthy (Some (getContent s))
            && includes DELIM newVal && includes DELIM (getContent s)
            && bool_decide (sortIds (matchAll newVal)
                            = sortIds (matchAll (getContent s))));
    [exact Hsame|exact Hset].
Qed.

End Component.

(** * Concrete runs *)

Lemma enter_emits_and_keeps_document_witness :
  let '(s', prevented) := handleKeydown enterKey helloState in
  emitted s' = emitted helloState ++ [EnterEvent]
  ∧ prevented = true
  ∧ childNodes s' = childNodes helloState
  ∧ getContent s' = getContent helloState
  ∧ resourcesMap s' = resourcesMap helloState
  ∧ selection s' = selection helloState
  ∧ ticks s' = ticks helloState.
Proof.
  apply (enter_emits_and_keeps_document enterKey helloState); reflexivity.
Defined.

(** C8, as the claim has it, fails: the text of the div is [hello], not
    empty, and ArrowUp emits [arrow-up] all the same. *)
Lemma arrow_up_emits_on_text :
  textOf (childNodes helloState) ≠ []
  ∧ emitted (handleKeydown arrowUpKey helloState).1 = [ArrowUpEvent].
Proof. split; [discriminate | reflexivity]. Qed.

Lemma arrow_up_always_emits_witness :
  handleKeydown arrowUpKey helloState = (emit ArrowUpEvent helloState, false).
Proof.
  apply (arrow_up_always_emits arrowUpKey helloState).
  - reflexivity.
  - intros [Hcode _]. vm_compute in Hcode. discriminate.
Defined.



(** ** Reconciliation *)

Lemma helloWorld_registered : registered helloWorldState.
Proof.
  intros el i Ht. apply list_elem_of_singleton in Ht as [= -> ->]. reflexivity.
Qed.




(** The other hypotheses of [reconcile_complete] cannot be dropped.  A
    tag in the div without an entry gets a second token of its id; a
    stale entry under an id of the list keeps the token of that id out
    of the div; and a selection over the token of a listed id deletes
    it when the next token is inserted. *)
Example reconcile_needs_index :
  tokenIds (childNodes orphanTagState) = [js "r1"]
  ∧ resourcesMap orphanTagState !! js "r1" = None
  ∧ tokenIds (childNodes (reconcile asciiLower [fileResource "r1" "a.ts"] orphanTagState))
    = [js "r1"; js "r1"].
Proof. repeat split; vm_compute; reflexivity. Qed.

Example reconcile_blocked_by_stale_entry :
  let s := setContent (js "hello") helloWorldState in
  resourcesMap s !! js "r1" = Some 0
  ∧ tokenIds (childNodes s) = []
  ∧ tokenIds (childNodes (reconcile asciiLower [fileResource "r1" "a.ts"] s)) = [].
Proof. repeat split; vm_compute; reflexivity. Qed.

Example reconcile_deletes_selected_token :
  let resources := [codeResource "g1" "a.ts"; fileResource "x" "b.ts"] in
  tokenIds (childNodes selectedTokenState) = [js "g1"]
  ∧ tokenIds (childNodes (reconcile asciiLower resources selectedTokenState))
    = [js "x"].
Proof. repeat split; vm_compute; reflexivity. Qed.



(** ** Insertion of a token that is there *)

(** C9. The code adds a second token of an id that is in the document.
    A storage string with the marker of [r1] twice is set and the second
    tag is removed by its close button: the div holds the first tag of
    [r1], and [resourcesMap] has no entry for [r1].  [insertResourceTag]
    tests [resourcesMap], not the div, so the insertion of [r1] goes
    through: the div holds two tokens of [r1], and the storage string that
    is emitted has the marker twice. *)
Theorem insert_duplicates_unindexed_token :
  let s := insertResourceTag (fileResource "r1" "a.ts") orphanTagState in
  tokenIds (childNodes orphanTagState) = [js "r1"]
  ∧ resourcesMap orphanTagState !! js "r1" = None
  ∧ childNodes s = [Tag 0 (js "r1"); Tag 2 (js "r1"); Text (js " ")]
  ∧ tokenIds (childNodes s) = [js "r1"; js "r1"]
  ∧ emitted s = emitted orphanTagState ++ [UpdateModelValue (twiceMarked ++ js " ")].
Proof. repeat split; vm_compute; reflexivity. Qed.

(** ** Re-keying *)

(** C3. On Example 2 the code does not re-key: the tag of [r1] is removed
    by the first loop, before the path search runs, and a new element for
    [r2] is appended at the end of the div; the token has left its place
    between the two text nodes. *)
Theorem rekey_example_removes_and_appends :
  let s' := reconcile asciiLower [codeResource "r2" "A.TS"] rekeyState in
  childNodes s' = [Text (js "x"); Text (js "y"); Tag 1 (js "r2"); Br]
  ∧ resourcesMap s' !! js "r2" = Some 1
  ∧ childNodes (prune [codeResource "r2" "A.TS"] rekeyState)
    = [Text (js "x"); Text (js "y")].
Proof. repeat split; vm_compute; reflexivity. Qed.

(** ** Backspace at a token *)

Lemma backspace_removes_token_witness :
  let '(s', prevented) := handleKeydown backspaceKey betweenWordsState in
  prevented = true
  ∧ childNodes s' = delete 1 (childNodes betweenWordsState)
  ∧ resourcesMap s' = delete (js "r1") (resourcesMap betweenWordsState)
  ∧ emitted s'
    = emitted betweenWordsState
      ++ [UpdateModelValue
            (extractTextFromNode (delete 1 (childNodes betweenWordsState)));
          ResourceRemoved (js "r1")]
  ∧ solid (childNodes (flush s')) = solid (delete 1 (childNodes betweenWordsState))
  ∧ tokenIds (childNodes (flush s'))
    = tokenIds (delete 1 (childNodes betweenWordsState))
  ∧ items (childNodes (flush s')) = solid (delete 1 (childNodes betweenWordsState))
  ∧ brs (childNodes (flush s')) = 0
  ∧ (solid (delete 1 (childNodes betweenWordsState)) = [] →
     childNodes (flush s') = [])
  ∧ (ticks betweenWordsState = [] →
     childNodes (flush s')
     = if blank s' then []
       else removeNodes emptyNode (delete 1 (childNodes betweenWordsState))).
Proof.
  apply (backspace_removes_token backspaceKey betweenWordsState 1 0 (js "r1")).
  - reflexivity.
  - discriminate.
  - reflexivity.
  - reflexivity.
  - discriminate.
  - reflexivity.
  - repeat constructor. intros H. inversion H.
Defined.

(** C4, as the claim has it, fails: the content other than the token is
    the text node of one space, and after the Backspace and its deferred
    clean-up the div has no child left. *)
Lemma backspace_cleanup_drops_space :
  delete 0 (childNodes spaceAfterTokenState) = [Text (js " ")]
  ∧ (handleKeydown backspaceKey spaceAfterTokenState).2 = true
  ∧ childNodes (handleKeydown backspaceKey spaceAfterTokenState).1 = [Text (js " ")]
  ∧ childNodes (flush (handleKeydown backspaceKey spaceAfterTokenState).1) = [].
Proof. repeat split; vm_compute; reflexivity. Qed.

(** ** The index *)

Lemma helloWorld_wellFormed : wellFormed helloWorldState.
Proof.
  split; [exact helloWorld_registered|]. split; [|split].
  - intros i el i' Hi Ht.
    change (({[ js "r1" := 0 ]} : gmap (list N) handle) !! i = Some el) in Hi.
    apply lookup_singleton_Some in Hi as [<- <-].
    apply list_elem_of_singleton in Ht as [= ->]. reflexivity.
  - intros el i Ht. apply list_elem_of_singleton in Ht as [= -> ->].
    cbn. lia.
  - intros i el Hi.
    change (({[ js "r1" := 0 ]} : gmap (list N) handle) !! i = Some el) in Hi.
    apply lookup_singleton_Some in Hi as [<- <-]. cbn. lia.
Qed.

(** C10. The code does not keep [resourcesMap] in step with the tags in
    the div.  [setContent] of a plain text empties the div and leaves the
    entry of [r1] in the map; from then on the token of [r1] cannot come
    back: [insertResourceTag] returns at once on the stale entry, and so
    does [updateResources] for a list that has [r1].  Nor does
    [removeResource] act exactly when a tag of the id is in the div: a
    tag that left the div inside another element still has a parent, so
    the entry is deleted and [resource-removed] is emitted for a token
    that is not in the document; and a tag in the div whose entry is
    gone is not removed at all. *)
Theorem setContent_leaves_stale_entry :
  let r1 := fileResource "r1" "a.ts" in
  let s := setContent (js "hello") (insertResourceTag r1 mounted) in
  let w := setContent (js "hello") wrappedTokenState in
  (tokenIds (childNodes s) = []
   ∧ resourcesMap s !! js "r1" = Some 0
   ∧ insertResourceTag r1 s = s
   ∧ tokenIds (childNodes (reconcile asciiLower [r1] s)) = []
   ∧ removeResource (js "r1") s = s)
  ∧ (tokenIds (childNodes w) = []
     ∧ resourcesMap w !! js "r1" = Some 0
     ∧ childNodes (removeResource (js "r1") w) = childNodes w
     ∧ resourcesMap (removeResource (js "r1") w) !! js "r1" = None
     ∧ emitted (removeResource (js "r1") w)
       = [UpdateModelValue (js "hello"); ResourceRemoved (js "r1")])
  ∧ (tokenIds (childNodes orphanTagState) = [js "r1"]
     ∧ removeResource (js "r1") orphanTagState = orphanTagState).
Proof.
  cbv zeta. repeat match goal with |- _ ∧ _ => split end;
    vm_compute; reflexivity.
Qed.

(** ** More of the component *)

Lemma setContent_then_getContent_witness :
  getContent (setContent helloWorldStorage helloWorldState) = helloWorldStorage.
Proof.
  apply (setContent_then_getContent helloWorldStorage helloWorldState).
  reflexivity.
Defined.

(** A new value with another text and the same marker is ignored. *)
Example watcher_drops_text_change :
  watchModelValue (js "bye " ++ DELIM ++ js "r1" ++ DELIM) helloWorldState
  = helloWorldState.
Proof. reflexivity. Qed.

Lemma betweenWords_wellFormed : wellFormed betweenWordsState.
Proof.
  apply (wellFormed_transfer helloWorldState); try reflexivity.
  exact helloWorld_wellFormed.
Qed.

Lemma paste_at_caret_witness :
  let s' := handlePaste (js " there") helloState in
  let before := contentBefore (childNodes helloState) (InText 0 5) in
  let after := contentAfter (childNodes helloState) (InText 0 5) in
  getContent helloState = before ++ after
  ∧ getContent s' = before ++ js " there" ++ after
  ∧ emitted s'
    = emitted helloState ++ [UpdateModelValue (before ++ js " there" ++ after)]
  ∧ querySelectorAllTags (childNodes s')
    = querySelectorAllTags (childNodes helloState)
  ∧ resourcesMap s' = resourcesMap helloState.
Proof.
  apply (paste_at_caret (js " there") helloState (InText 0 5));
    reflexivity.
Defined.

Lemma paste_keeps_index_witness :
  let s' := handlePaste (js "c") betweenWordsState in
  wellFormed s'
  ∧ (∀ t, t ∈ querySelectorAllTags (childNodes s') →
          t ∈ querySelectorAllTags (childNodes betweenWordsState))
  ∧ resourcesMap s' = resourcesMap betweenWordsState
  ∧ nextEl s' = nextEl betweenWordsState.
Proof.
  apply (paste_keeps_index (js "c") betweenWordsState).
  exact betweenWords_wellFormed.
Defined.


Lemma reconcile_empty_list_witness :
  let s' := reconcile asciiLower [] helloWorldState in
  querySelectorAllTags (childNodes s') = []
  ∧ solid (childNodes s')
    = List.filter (fun it => match it with IText _ => true | IToken _ => false end)
                  (solid (childNodes helloWorldState))
  ∧ emitted s' = emitted helloWorldState ++ [UpdateModelValue (getContent s')].
Proof.
  apply (reconcile_empty_list asciiLower helloWorldState). reflexivity.
Defined.

Lemma insert_then_remove_witness :
  let s1 := insertResourceTag (fileResource "r2" "b.ts") betweenWordsState in
  let s2 := removeResource (js "r2") s1 in
  querySelectorAllTags (childNodes s2)
  = querySelectorAllTags (survivors betweenWordsState)
  ∧ querySelectorAllTags (childNodes (flush s2))
    = querySelectorAllTags (survivors betweenWordsState)
  ∧ resourcesMap s2 = resourcesMap betweenWordsState
  ∧ emitted s2
    = emitted betweenWordsState
      ++ [UpdateModelValue (getContent s1); UpdateModelValue (getContent s2);
          ResourceRemoved (js "r2")].
Proof.
  apply (insert_then_remove (fileResource "r2" "b.ts") betweenWordsState).
  - exact betweenWords_wellFormed.
  - reflexivity.
Defined.

Lemma mount_restores_tokens_witness :
  tokenIds (childNodes (flush (onMounted asciiLower helloWorldStorage
                                 (setProps [fileResource "r1" "a.ts"] mounted))))
  = List.filter
      (fun i => bool_decide (is_Some (findById [fileResource "r1" "a.ts"] i)))
      (matchAll helloWorldStorage).
Proof.
  apply (mount_restores_tokens asciiLower helloWorldStorage
           [fileResource "r1" "a.ts"]).
  intros r Hr. apply list_elem_of_singleton in Hr as ->. vm_compute. left.
Defined.

Lemma label_is_file_name_witness :
  ∃ dir fileName lines,
    js "src/a.ts" = dir ++ fileName
    ∧ getResourceLabel decimal (fileResource "r1" "src/a.ts") = fileName ++ lines
    ∧ fileName ≠ []
    ∧ Forall (fun u => isPathSeparator u = false) fileName
    ∧ (dir = [] ∨ ∃ d u, dir = d ++ [u] ∧ isPathSeparator u = true)
    ∧ (type (fileResource "r1" "src/a.ts") = File
       ∨ startLine (fileResource "r1" "src/a.ts") = None → lines = []).
Proof.
  apply (label_is_file_name decimal (fileResource "r1" "src/a.ts")
           (js "src/a.ts") 0x73%N); try reflexivity.
  right. reflexivity.
Defined.

(** The label of a selection of lines 3 to 4. *)
Example label_of_code_lines :
  getResourceLabel decimal
    (mkResource (js "r") Code None None (Some (js "src\a.ts")) None
                (Some 3%Z) (Some 4%Z) None)
  = js "a.ts(3-4)".
Proof. reflexivity. Qed.

Lemma icon_of_id_holding_c_witness :
  getLanguageIcon asciiLower (Some (js "Objective-C"))
  ∈ IconClass <$> [js "vs-icon-javascript"; js "vs-icon-typescript";
                   js "vs-icon-python"; js "vs-icon-java"; js "vs-icon-c"].
Proof.
  apply (icon_of_id_holding_c asciiLower (js "Objective-C")).
  - discriminate.
  - reflexivity.
  - apply (bool_decide_unpack _). vm_compute. exact I.
  - apply (bool_decide_unpack _). vm_compute. exact I.
Defined.

(** [cpp17] is no key: the partial match stops at [c], before [cpp];
    and [constructor] is found on the prototype. *)
Example icon_of_cpp17 :
  getLanguageIcon asciiLower (Some (js "cpp17")) = IconClass (js "vs-icon-c")
  ∧ getLanguageIcon asciiLower (Some (js "cpp")) = IconClass (js "vs-icon-cpp")
  ∧ getLanguageIcon asciiLower (Some (js "Constructor"))
    = Inherited (js "constructor").
Proof. repeat split; reflexivity. Qed.

(** Position 3 lies in the second of two text nodes of two letters, at
    offset 1; the range is collapsed at offset 2. *)
Example caret_in_second_text_node :
  getTextNodeAtPosition [js "ab"; js "cd"] 3 = Some (1, 1)
  ∧ setCursorPosition [js "ab"; js "cd"] 3 = Some (1, 2).
Proof. split; reflexivity. Qed.

Lemma display_without_tokens_witness :
  getDisplayContent decimal helloState = getContent helloState
  ∧ getContent helloState = textOf (childNodes helloState).
Proof. apply (display_without_tokens decimal helloState). reflexivity. Defined.

Lemma input_on_blank_clears_witness :
  let result := handleInput blankState in
  result.2 = true
  ∧ emitted result.1
    = emitted blankState ++ [UpdateModelValue (getContent blankState); InputEvent]
  ∧ childNodes (afterInput result) = []
  ∧ getContent (afterInput result) = []
  ∧ emitted (afterInput result) = emitted result.1.
Proof. apply (input_on_blank_clears blankState); reflexivity. Defined.

Lemma input_keeps_content_witness :
  let result := handleInput helloWorldState in
  result.2 = false
  ∧ emitted (afterInput result)
    = emitted helloWorldState
      ++ [UpdateModelValue (getContent helloWorldState); InputEvent]
  ∧ querySelectorAllTags (childNodes (afterInput result))
    = querySelectorAllTags (childNodes helloWorldState)
  ∧ solid (childNodes (afterInput result)) = solid (childNodes helloWorldState).
Proof. apply (input_keeps_content helloWorldState); reflexivity. Defined.

Lemma removal_round_witness :
  let s1 := removeResource (js "r1") helloWorldState in
  let h' := handleResourceRemoved (js "r1") helloWorldPage in
  let s2 := reconcile asciiLower (ChatPage.resources h') s1 in
  (js "r1" ∉ id <$> ChatPage.resources h')
  ∧ querySelectorAllTags (childNodes s2)
    = List.filter (fun t : handle * jsstring => negb (bool_decide (t.2 = js "r1")))
                  (querySelectorAllTags (childNodes helloWorldState))
  ∧ resourcesMap s2 = delete (js "r1") (resourcesMap helloWorldState)
  ∧ nextEl s2 = nextEl helloWorldState.
Proof.
  apply (removal_round asciiLower (js "r1") helloWorldState helloWorldPage).
  - exact helloWorld_wellFormed.
  - reflexivity.
  - intros t Ht. apply list_elem_of_singleton in Ht as ->. vm_compute. eauto.
  - intros r Hr. apply list_elem_of_singleton in Hr as ->. exists 0. reflexivity.
  - exists 0. left.
Defined.



(** The selection in [B.ts] updates the code resource of [b.ts]: the
    ids of the list are the ones before. *)
Example selection_in_same_file_keeps_id :
  id <$> ChatPage.resources
           (handleSelectionChange asciiLower selectionInB (js "code_1")
              twoResourcesPage)
  = [js "r1"; js "r2"].
Proof. reflexivity. Qed.

Lemma watchModelValue_silent_witness :
  emitted (watchModelValue (js "bye") helloWorldState) = emitted helloWorldState
  ∧ emitted (flush (watchModelValue (js "bye") helloWorldState))
    = emitted helloWorldState.
Proof. apply (watchModelValue_silent (js "bye") helloWorldState). reflexivity. Defined.

(** The display text of Example 1: the token reads as the reference to
    its file. *)
Example display_of_hello_world :
  getDisplayContent decimal helloWorldState
  = js "hello " ++ FILE_REF ++ js "a.ts," ++ js " world".
Proof. reflexivity. Qed.
